(** * Tracking/event synchronisation tool: alignment engine and coordinate converter

    A shallow embedding of
      - src/context/SyncContext.tsx  (cursor, offsets, confirmed results),
      - src/utils/optaConverter.ts   (piecewise-linear pitch conversion),
      - src/utils/db.ts              (the object stores),
      - the upload page              (conversion, event filter, jersey numbers, teams),
      - the sync page                (frame selection, JSON import, controls),
      - src/components/SyncInstructions.tsx (event categories).

    Conventions of the embedding.
      - A JavaScript number is an exact rational ([Q]) or [NaN]; the rounding
        of IEEE-754 doubles and the infinities are not represented.  Indices,
        offsets and row counts are integers ([Z]).
      - [SyncedResults] is the finite map of the own members of the object;
        [k in results] also holds for the names the object inherits from
        [Object.prototype].
      - A pure function returns [None] where the source throws a [TypeError]
        (indexing a column that is absent) and where it leaves the numbers of
        the embedding: the source casts a column to [number[]] and sorts or
        compares its cells, and the order of cells that are not finite
        numbers depends on the host.
      - The provider's state is the record [AppState].  An operation on it
        gives an [outcome]: the state after a normal return, or the state
        after the setters that ran before a throw or before an awaited write
        to the results store was rejected. *)

From Stdlib Require Import ZArith QArith Qround Qabs Lia Lqa SetoidList.
From stdpp Require Import gmap strings list sorting pretty.

Local Open Scope Z_scope.

(** ** JavaScript values held in a column *)

Inductive num : Type :=
| NaN
| Fin (q : Q).

Inductive jsval : Type :=
| JUndefined
| JNull
| JNum (n : num)
| JStr (s : string).

Definition JInt (z : Z) : jsval := JNum (Fin (inject_Z z)).

(** [a ?? b] *)
Definition nullish (a b : jsval) : jsval :=
  match a with
  | JUndefined | JNull => b
  | _ => a
  end.

(** [a === b] *)
Definition strict_eq (a b : jsval) : bool :=
  match a, b with
  | JUndefined, JUndefined => true
  | JNull, JNull => true
  | JNum (Fin p), JNum (Fin q) => Qeq_bool p q
  | JStr s, JStr t => bool_decide (s = t)
  | _, _ => false
  end.

(** [Number.isNaN(v)] *)
Definition Number_isNaN (v : jsval) : bool :=
  match v with
  | JNum NaN => true
  | _ => false
  end.

(** *** [String(x)] on a number

    [Number::toString]: the shortest decimal numeral that reads back as the
    double, printed plainly between 1e-6 and 1e21 and with an exponent
    outside.  A rational that is no double is printed as the double nearest
    to it. *)

(** [q * 2^e] and [q * 10^e] *)
Definition Qscale2 (q : Q) (e : Z) : Q :=
  if 0 <=? e then (q * inject_Z (2 ^ e))%Q else (q / inject_Z (2 ^ (- e)))%Q.

Definition Qscale10 (q : Q) (e : Z) : Q :=
  if 0 <=? e then (q * inject_Z (10 ^ e))%Q else (q / inject_Z (10 ^ (- e)))%Q.

(** The integer nearest to [q], a tie going to the even one. *)
Definition round_half_even (q : Q) : Z :=
  let f := Qfloor q in
  match ((q - inject_Z f) ?= 1 # 2)%Q with
  | Lt => f
  | Gt => f + 1
  | Eq => if Z.even f then f else f + 1
  end.

(** The exponent [e] with [2^e <= q < 2^(e+1)], for [0 < q]. *)
Definition binary_exponent (q : Q) : Z :=
  let e := Z.log2 (Qnum q) - Z.log2 (Z.pos (Qden q)) in
  if Qle_bool (Qscale2 1 e) q then e else e - 1.

(** The double nearest to [q], for [0 < q] below the largest double: 53
    significant bits, the last one not below 2^-1074. *)
Definition to_double (q : Q) : Q :=
  let ulp := Z.max (binary_exponent q - 52) (-1074) in
  Qscale2 (inject_Z (round_half_even (Qscale2 q (- ulp)))) ulp.

(** The [n] with [10^(n-1) <= q < 10^n], for [0 < q], searched from an
    estimate. *)
Fixpoint decimal_exponent_from (fuel : nat) (q : Q) (n : Z) : Z :=
  match fuel with
  | O => n
  | S fuel' =>
      if Qle_bool (Qscale10 1 n) q then decimal_exponent_from fuel' q (n + 1)
      else if Qle_bool (Qscale10 1 (n - 1)) q then n
      else decimal_exponent_from fuel' q (n - 1)
  end.

Definition decimal_exponent (q : Q) : Z :=
  decimal_exponent_from 8 q (binary_exponent q * 30103 / 100000 + 1).

(** Whether the [k] digits [s], read as [s * 10^(n-k)], give back [x]; the
    digits [10^k] stand for [10^(k-1)] one place higher. *)
Definition candidate (x : Q) (n k s : Z) : option (Z * Z) :=
  if (10 ^ (k - 1) <=? s) && (s <? 10 ^ k)
  then if Qeq_bool (to_double (Qscale10 (inject_Z s) (n - k))) x then Some (s, n) else None
  else if s =? 10 ^ k
  then if Qeq_bool (to_double (Qscale10 (inject_Z (10 ^ (k - 1))) (n + 1 - k))) x
       then Some (10 ^ (k - 1), n + 1) else None
  else None.

(** The digits [s] and the exponent [n] of the shortest numeral of the
    double [x], the nearer one when two numerals of that length read back
    as [x]; 17 digits always suffice. *)
Fixpoint shortest_digits (fuel : nat) (x : Q) (n k : Z) : Z * Z :=
  match fuel with
  | O => (round_half_even (Qscale10 x (k - n)), n)
  | S fuel' =>
      let scaled := Qscale10 x (k - n) in
      let near := round_half_even scaled in
      let far := if near =? Qfloor scaled then near + 1 else near - 1 in
      match candidate x n k near with
      | Some r => r
      | None =>
          match candidate x n k far with
          | Some r => r
          | None => shortest_digits fuel' x n (k + 1)
          end
      end
  end.

Definition zeros (n : Z) : string := String.concat "" (replicate (Z.to_nat n) "0").

Definition positive_to_string (x : Q) : string :=
  let '(s, n) := shortest_digits 17 x (decimal_exponent x) 1 in
  let digits := pretty s in
  let k := Z.of_nat (String.length digits) in
  if (-5 <=? n) && (n <=? 21) then
    if k <=? n then digits +:+ zeros (n - k)
    else if 0 <? n then
      String.substring 0 (Z.to_nat n) digits +:+ "." +:+
      String.substring (Z.to_nat n) (Z.to_nat (k - n)) digits
    else "0." +:+ zeros (- n) +:+ digits
  else
    let e := n - 1 in
    let exponent := (if 0 <=? e then "+" else "-") +:+ pretty (Z.abs e) in
    if k =? 1 then digits +:+ "e" +:+ exponent
    else String.substring 0 1 digits +:+ "." +:+
         String.substring 1 (Z.to_nat (k - 1)) digits +:+ "e" +:+ exponent.

(** [String(x)] on a finite number. *)
Definition number_to_string (q : Q) : string :=
  match (q ?= 0)%Q with
  | Eq => "0"
  | Gt => positive_to_string (to_double q)
  | Lt => "-" +:+ positive_to_string (to_double (- q))
  end.

(** [String(v)] *)
Definition js_String (v : jsval) : string :=
  match v with
  | JUndefined => "undefined"
  | JNull => "null"
  | JNum NaN => "NaN"
  | JNum (Fin q) => number_to_string q
  | JStr s => s
  end.

(** [arr[i]]: reading outside the array gives [undefined]. *)
Definition at_index (arr : list jsval) (i : Z) : jsval :=
  if i <? 0 then JUndefined else default JUndefined (arr !! Z.to_nat i).

(** [col[i]] where [col] may be [undefined]: the read then throws. *)
Definition col_index (col : option (list jsval)) (i : Z) : option jsval :=
  match col with
  | None => None
  | Some arr => Some (at_index arr i)
  end.

(** [col?.[i]] *)
Definition opt_index (col : option (list jsval)) (i : Z) : jsval :=
  match col with
  | None => JUndefined
  | Some arr => at_index arr i
  end.

(** The cast of a cell of a [number[]] column. *)
Definition as_number (v : jsval) : option Q :=
  match v with
  | JNum (Fin q) => Some q
  | _ => None
  end.

(** ** types/index.ts *)

Record ColumnarData : Type := mkColumnarData {
  columns : gmap string (list jsval);
  numRows : Z;
  fieldNames : list string
}.

Abbreviation SyncedResults := (gmap string Q).

Record AppState : Type := mkAppState {
  eventsData : option ColumnarData;
  trackingData : option ColumnarData;
  syncedResults : SyncedResults;
  currentEventIndex : Z;
  frameOffset : Z;
  lastSyncOffset : Z
}.

(** The names a plain object inherits from [Object.prototype]. *)
Definition Object_prototype : list string :=
  ["constructor"; "__defineGetter__"; "__defineSetter__"; "hasOwnProperty";
   "__lookupGetter__"; "__lookupSetter__"; "isPrototypeOf"; "propertyIsEnumerable";
   "toString"; "valueOf"; "__proto__"; "toLocaleString"].

(** [eventId in results]: an own key or an inherited name. *)
Definition has_key (k : string) (results : SyncedResults) : bool :=
  bool_decide (is_Some (results !! k)) || bool_decide (k ∈ Object_prototype).

(** ** Event ids and the scan for the first unsynced event *)

(** [String(eventIdCol?.[index] ?? index)] *)
Definition eventIdOf (eventIdCol : option (list jsval)) (index : Z) : string :=
  js_String (nullish (opt_index eventIdCol index) (JInt index)).

Definition eventId (events : ColumnarData) (index : Z) : string :=
  eventIdOf (columns events !! "opta_event_id") index.

Definition isSynced (events : ColumnarData) (results : SyncedResults) (index : Z) : bool :=
  has_key (eventId events index) results.

(** The [while (index < events.numRows)] loop; [fuel] bounds the number of
    iterations. *)
Fixpoint scanUnsynced (fuel : nat) (eventIdCol : option (list jsval))
    (rows : Z) (results : SyncedResults) (index : Z) : Z :=
  match fuel with
  | O => index
  | S fuel' =>
      if index <? rows then
        if has_key (eventIdOf eventIdCol index) results
        then scanUnsynced fuel' eventIdCol rows results (index + 1)
        else index
      else index
  end.

(** The loop makes at most [numRows - startIndex] iterations. *)
Definition findFirstUnsynced (startIndex : Z) (events : ColumnarData)
    (results : SyncedResults) : Z :=
  scanUnsynced (Z.to_nat (numRows events - startIndex))
    (columns events !! "opta_event_id") (numRows events) results startIndex.

(** ** Period times and the restored frame offset *)

(** [times.add(t)] on a [Set<number>] kept in insertion order. *)
Definition set_add (t : Q) (times : list Q) : list Q :=
  if existsb (Qeq_bool t) times then times else times ++ [t].

(** The body of [for (let i = 0; i < tracking.numRows; i++)]. *)
Fixpoint collectTimes (periodCol timeCol : option (list jsval)) (periodId : jsval)
    (rows : list Z) (times : list Q) : option (list Q) :=
  match rows with
  | [] => Some times
  | i :: rest =>
      p ← col_index periodCol i;
      if strict_eq p periodId then
        v ← col_index timeCol i;
        t ← as_number v;
        collectTimes periodCol timeCol periodId rest (set_add t times)
      else collectTimes periodCol timeCol periodId rest times
  end.

Fixpoint insert_ascending (t : Q) (l : list Q) : list Q :=
  match l with
  | [] => [t]
  | h :: r => if Qle_bool t h then t :: l else h :: insert_ascending t r
  end.

(** [arr.sort((a, b) => a - b)] on finite numbers. *)
Definition sort_ascending (l : list Q) : list Q :=
  foldr insert_ascending [] l.

Definition getPeriodTimes (tracking : ColumnarData) (periodId : jsval) : option (list Q) :=
  let periodCol := columns tracking !! "period_id" in
  let timeCol := columns tracking !! "matched_time" in
  times ← collectTimes periodCol timeCol periodId (seqZ 0 (numRows tracking)) [];
  Some (sort_ascending times).

(** [arr.findIndex(p)]: the first index satisfying [p], or [-1]. *)
Fixpoint findIndexFrom (p : Q → bool) (l : list Q) (i : Z) : Z :=
  match l with
  | [] => -1
  | t :: r => if p t then i else findIndexFrom p r (i + 1)
  end.

Definition findIndex (p : Q → bool) (l : list Q) : Z := findIndexFrom p l 0.

(** [t >= v] for a time [t] of the period and a cell [v]: [null] counts as
    0, [undefined] and [NaN] are not below or at any time, and the number a
    string stands for is the host's. *)
Definition at_or_after (v : jsval) : option (Q → bool) :=
  match v with
  | JNum (Fin q) => Some (λ t, Qle_bool q t)
  | JNull => Some (λ t, Qle_bool 0 t)
  | JNum NaN | JUndefined => Some (λ _, false)
  | JStr _ => None
  end.

(** [results[eventId]] is the confirmed time of an own key; under an
    inherited name it is a function or an object, which is not below or at
    any time. *)
Definition updateOffsetForEvent (eventIndex : Z) (events tracking : ColumnarData)
    (results : SyncedResults) (fallbackOffset : Z) : option Z :=
  if numRows events <=? eventIndex then Some fallbackOffset
  else
    let eventIdCol := columns events !! "opta_event_id" in
    let periodIdCol := columns events !! "period_id" in
    let matchedTimeCol := columns events !! "matched_time" in
    let eventId := eventIdOf eventIdCol eventIndex in
    eventPeriod ← col_index periodIdCol eventIndex;
    eventTime ← col_index matchedTimeCol eventIndex;
    if has_key eventId results then
      periodTimes ← getPeriodTimes tracking eventPeriod;
      if bool_decide (length periodTimes = 0%nat) then Some fallbackOffset
      else
        atOrAfterEventTime ← at_or_after eventTime;
        let baseIdx := findIndex atOrAfterEventTime periodTimes in
        let syncIdx :=
          match results !! eventId with
          | Some syncedTime => findIndex (λ t, Qle_bool syncedTime t) periodTimes
          | None => -1
          end in
        Some (syncIdx - (if 0 <=? baseIdx then baseIdx else 0))
    else Some fallbackOffset.

(** The calls of [getPeriodTimes] that throw: the first row indexes a
    [period_id] column that is absent, or a row of the period indexes a
    [matched_time] column that is absent. *)
Definition getPeriodTimes_throws (tracking : ColumnarData) (periodId : jsval) : bool :=
  match seqZ 0 (numRows tracking) with
  | [] => false
  | rows =>
      match columns tracking !! "period_id", columns tracking !! "matched_time" with
      | None, _ => true
      | Some periodCol, None => existsb (λ i, strict_eq (at_index periodCol i) periodId) rows
      | Some _, Some _ => false
      end
  end.

(** The calls of [updateOffsetForEvent] that throw: inside the dataset the
    two columns of the events are indexed, and the period times are asked
    for when the event's id is in the results. *)
Definition updateOffsetForEvent_throws (eventIndex : Z) (events tracking : ColumnarData)
    (results : SyncedResults) : bool :=
  if numRows events <=? eventIndex then false
  else
    match columns events !! "period_id", columns events !! "matched_time" with
    | Some periodIdCol, Some _ =>
        has_key (eventId events eventIndex) results
        && getPeriodTimes_throws tracking (at_index periodIdCol eventIndex)
    | _, _ => true
    end.

(** ** The frame the sync page shows

    The memo of the sync page that computes [currentTime]: the base index is
    the first sample at or after the event's nominal time, the last sample
    when there is none; the offset is added and the sum clamped into the
    samples. *)
Definition currentTimeOf (uniqueTimes : list Q) (baseTime : Q) (frameOffset : Z) : option Q :=
  if bool_decide (length uniqueTimes = 0%nat) then None
  else
    let baseIdx := findIndex (λ t, Qle_bool baseTime t) uniqueTimes in
    let baseIdx := if baseIdx =? -1 then Z.of_nat (length uniqueTimes) - 1 else baseIdx in
    let targetIdx := baseIdx + frameOffset in
    let targetIdx := Z.max 0 (Z.min (Z.of_nat (length uniqueTimes) - 1) targetIdx) in
    uniqueTimes !! Z.to_nat targetIdx.

(** ** The operations of the provider on its state *)

(** How a call of an operation ends.  The setters that ran before a throw,
    or before an awaited write was rejected, keep their effect: [Threw]
    carries the state they leave.  [ReturnedAt k] is a normal return whose
    frame offset is a number [z] that the embedding does not compute (the
    offset of a synced event whose times are not all finite numbers); the
    state is then [k z]. *)
Inductive outcome : Type :=
| Returned (st : AppState)
| Threw (st : AppState)
| ReturnedAt (st : Z → AppState).

(** The states a call may leave. *)
Definition stateAfter (o : outcome) (st' : AppState) : Prop :=
  match o with
  | Returned st | Threw st => st' = st
  | ReturnedAt k => ∃ offset, st' = k offset
  end.

Definition setCursor (st : AppState) (index offset : Z) : AppState :=
  mkAppState (eventsData st) (trackingData st) (syncedResults st)
    index offset (lastSyncOffset st).

(** [const offset = updateOffsetForEvent(...)] followed by the setters of
    [finish]; [thrown] is the state the earlier setters leave. *)
Definition recompute (eventIndex : Z) (events tracking : ColumnarData)
    (results : SyncedResults) (fallbackOffset : Z)
    (finish : Z → AppState) (thrown : AppState) : outcome :=
  match updateOffsetForEvent eventIndex events tracking results fallbackOffset with
  | Some offset => Returned (finish offset)
  | None =>
      if updateOffsetForEvent_throws eventIndex events tracking results
      then Threw thrown
      else ReturnedAt finish
  end.

(** [setCurrentEventIndex(newIndex)], then the offset is recomputed with
    [lastSyncOffset] as fallback and set. *)
Definition moveCursor (st : AppState) (events tracking : ColumnarData) (newIndex : Z)
    : outcome :=
  recompute newIndex events tracking (syncedResults st) (lastSyncOffset st)
    (setCursor st newIndex) (setCursor st newIndex (frameOffset st)).

Definition nextEvent (st : AppState) : outcome :=
  match eventsData st, trackingData st with
  | Some events, Some tracking =>
      moveCursor st events tracking (Z.min (numRows events - 1) (currentEventIndex st + 1))
  | _, _ => Returned st
  end.

Definition prevEvent (st : AppState) : outcome :=
  match eventsData st, trackingData st with
  | Some events, Some tracking =>
      moveCursor st events tracking (Z.max 0 (currentEventIndex st - 1))
  | _, _ => Returned st
  end.

Definition nextUnsynced (st : AppState) : outcome :=
  match eventsData st, trackingData st with
  | Some events, Some tracking =>
      moveCursor st events tracking
        (findFirstUnsynced (currentEventIndex st + 1) events (syncedResults st))
  | _, _ => Returned st
  end.

(** [Math.max(a, b)] and [Math.min(a, b)] on finite numbers. *)
Definition Math_max (a b : Q) : Q := if Qle_bool a b then b else a.
Definition Math_min (a b : Q) : Q := if Qle_bool a b then a else b.

(** [Math.max(0, Math.min(rows - 1, index))] for a finite number [index]. *)
Definition clampedTarget (rows : Z) (index : Q) : Q :=
  Math_max 0 (Math_min (inject_Z (rows - 1)) index).

(** The index [jumpToEvent(index)] sets: [None] when the clamped target is a
    fraction, which the integer cursor of the embedding does not hold. *)
Definition clampedIndex (rows : Z) (index : Q) : option Z :=
  let newIndex := clampedTarget rows index in
  if Qeq_bool newIndex (inject_Z (Qfloor newIndex)) then Some (Qfloor newIndex) else None.

Definition jumpToEvent (index : Q) (st : AppState) : option outcome :=
  match eventsData st, trackingData st with
  | Some events, Some tracking =>
      newIndex ← clampedIndex (numRows events) index;
      Some (moveCursor st events tracking newIndex)
  | _, _ => Some (Returned st)
  end.

Definition adjustFrameOffset (delta : Z) (st : AppState) : AppState :=
  setCursor st (currentEventIndex st) (frameOffset st + delta).

(** [written] tells whether the awaited [saveSyncedResults(newResults)]
    resolves; when it is rejected the call ends there. *)
Definition syncCurrentEvent (currentTime : Q) (written : bool) (st : AppState) : outcome :=
  match eventsData st, trackingData st with
  | Some events, Some tracking =>
      if numRows events <=? currentEventIndex st then Returned st
      else
        let eventIdCol := columns events !! "opta_event_id" in
        let eventId := eventIdOf eventIdCol (currentEventIndex st) in
        let newResults := <[eventId := currentTime]> (syncedResults st) in
        if written then
          let newIndex := findFirstUnsynced (currentEventIndex st + 1) events newResults in
          let finish offset :=
            mkAppState (eventsData st) (trackingData st) newResults
              newIndex offset (frameOffset st) in
          recompute newIndex events tracking newResults (frameOffset st)
            finish (finish (frameOffset st))
        else
          Threw (mkAppState (eventsData st) (trackingData st) newResults
                   (currentEventIndex st) (frameOffset st) (lastSyncOffset st))
  | _, _ => Returned st
  end.

Definition skipEvent (st : AppState) : outcome :=
  match eventsData st, trackingData st with
  | Some events, Some tracking =>
      moveCursor st events tracking
        (findFirstUnsynced (currentEventIndex st + 1) events (syncedResults st))
  | _, _ => Returned st
  end.

(** [written] tells whether the awaited [saveSyncedResults(results)]
    resolves. *)
Definition uploadResults (results : SyncedResults) (written : bool) (st : AppState)
    : outcome :=
  match eventsData st, trackingData st with
  | Some events, Some tracking =>
      if written then
        let firstUnsynced := findFirstUnsynced 0 events results in
        recompute firstUnsynced events tracking results 0
          (λ offset, mkAppState (eventsData st) (trackingData st) results
                       firstUnsynced offset 0)
          (mkAppState (eventsData st) (trackingData st) results
             firstUnsynced (frameOffset st) (lastSyncOffset st))
      else
        Threw (mkAppState (eventsData st) (trackingData st) results
                 (currentEventIndex st) (frameOffset st) (lastSyncOffset st))
  | _, _ => Returned st
  end.

(** ** The JSON import of the sync page *)

(** A parsed JSON value.  An object carries its entries in the order
    [Object.entries] lists them. *)
#[warnings="-register-all"]
Inductive json : Type :=
| JsonNull
| JsonBool (b : bool)
| JsonNumber (q : Q)
| JsonString (s : string)
| JsonArray (items : list json)
| JsonObject (entries : list (string * json)).

(** What [alert] is called with: one of the two messages of the
    validation, or ['Failed to upload JSON: '] followed by the message of
    what was caught, the error of [JSON.parse] or the one [uploadResults]
    ended with. *)
Inductive alert : Type :=
| AlertInvalidFormat
| AlertInvalidValue (key : string)
| AlertError (message : string)
| AlertUploadFailed.

Inductive importOutcome : Type :=
| Applied (st : AppState)
| AppliedAt (st : Z → AppState)
| Alerted (a : alert) (st : AppState).

(** [results[key] = value] on the plain object [results]: under ["__proto__"]
    the assignment runs the inherited setter, which ignores a number. *)
Definition assign (key : string) (value : Q) (results : SyncedResults) : SyncedResults :=
  if bool_decide (key = "__proto__") then results else <[key := value]> results.

(** The loop over [Object.entries(parsed)]: the key of the first value that
    is not a number stops it. *)
Fixpoint collectResults (entries : list (string * json)) (results : SyncedResults)
    : string + SyncedResults :=
  match entries with
  | [] => inr results
  | (key, value) :: rest =>
      match value with
      | JsonNumber q => collectResults rest (assign key q results)
      | _ => inl key
      end
  end.

(** How the handler ends once [uploadResults] was called: the call is
    inside the [try], and when it throws the handler alerts, with the state
    the call has left. *)
Definition afterUpload (o : outcome) : importOutcome :=
  match o with
  | Returned st' => Applied st'
  | ReturnedAt k => AppliedAt k
  | Threw st' => Alerted AlertUploadFailed st'
  end.

(** [parsed] is the result of [JSON.parse(text)]: a value, or the message of
    the [SyntaxError] it threw. *)
Definition handleFileChange (parsed : string + json) (written : bool) (st : AppState)
    : importOutcome :=
  match parsed with
  | inl message => Alerted (AlertError message) st
  | inr (JsonObject entries) =>
      match collectResults entries ∅ with
      | inl key => Alerted (AlertInvalidValue key) st
      | inr results => afterUpload (uploadResults results written st)
      end
  | inr _ => Alerted AlertInvalidFormat st
  end.

(** ** utils/optaConverter.ts *)

(** Arithmetic on numbers: [NaN] is absorbing and every comparison with it is
    false.  A division by zero does not occur on the breakpoint tables below,
    whose consecutive source breakpoints differ. *)
Definition num_lift2 (f : Q → Q → Q) (a b : num) : num :=
  match a, b with
  | Fin p, Fin q => Fin (f p q)
  | _, _ => NaN
  end.

Definition nadd : num → num → num := num_lift2 Qplus.
Definition nsub : num → num → num := num_lift2 Qminus.
Definition nmul : num → num → num := num_lift2 Qmult.
Definition ndiv : num → num → num := num_lift2 Qdiv.

(** [a > b] *)
Definition ngt (a b : num) : bool :=
  match a, b with
  | Fin p, Fin q => negb (Qle_bool p q)
  | _, _ => false
  end.

(** [Math.round(a)]: the nearest integer, a half going up. *)
Definition Math_round (a : num) : num :=
  match a with
  | Fin q => Fin (inject_Z (Qfloor (q + (1 # 2))%Q))
  | NaN => NaN
  end.

(** [breaks[i]] on a table of numbers. *)
Definition break_at (breaks : list Q) (i : Z) : num :=
  if i <? 0 then NaN
  else match breaks !! Z.to_nat i with
       | Some q => Fin q
       | None => NaN
       end.

Definition PITCH_LENGTH : Q := 105.0.
Definition PITCH_WIDTH : Q := 68.0.

Definition PITCH_X_HALF : Q := PITCH_LENGTH / 2.0.
Definition PITCH_Y_HALF : Q := PITCH_WIDTH / 2.0.

Definition X_BREAKS_OPTA : list Q := [0; 5.8; 11.5; 17; 20.4; 41; 50]%Q.
Definition X_BREAKS_REAL : list Q := [0; 5.5; 11; 16.5; 20.15; 43.35; 52.5]%Q.

Definition Y_BREAKS_OPTA : list Q := [0; 21.1; 36.8; 40; 44.2; 45.2; 50]%Q.
Definition Y_BREAKS_REAL : list Q := [0; 13.84; 24.84; 26.69; 30.22; 30.34; 34]%Q.

Definition REAL_X_MID : Q := 52.5.
Definition REAL_Y_MID : Q := 34.0.

(** [while (i < sourceBreaks.length - 1 && value > sourceBreaks[i + 1]) i++]:
    the index at which the loop stops. *)
Fixpoint findInterval (fuel : nat) (value : num) (sourceBreaks : list Q) (i : Z) : Z :=
  match fuel with
  | O => i
  | S fuel' =>
      if (i <? Z.of_nat (length sourceBreaks) - 1) && ngt value (break_at sourceBreaks (i + 1))
      then findInterval fuel' value sourceBreaks (i + 1)
      else i
  end.

Definition interp (value : num) (sourceBreaks targetBreaks : list Q) : num :=
  let len := Z.of_nat (length sourceBreaks) in
  let i := findInterval (length sourceBreaks) value sourceBreaks 0 in
  let i := if len - 1 <=? i then len - 2 else i in
  let t := ndiv (nsub value (break_at sourceBreaks i))
                (nsub (break_at sourceBreaks (i + 1)) (break_at sourceBreaks i)) in
  nadd (break_at targetBreaks i)
       (nmul t (nsub (break_at targetBreaks (i + 1)) (break_at targetBreaks i))).

Definition convertWithMirror (value : num) (sourceBreaks targetBreaks : list Q)
    (sourceMid : Q) : num :=
  let isMirrored := ngt value (Fin sourceMid) in
  let adjValue := if isMirrored then nsub (nmul (Fin 2) (Fin sourceMid)) value else value in
  let targetMid := break_at targetBreaks (Z.of_nat (length targetBreaks) - 1) in
  let converted := interp adjValue sourceBreaks targetBreaks in
  if isMirrored then nsub (nmul (Fin 2) targetMid) converted else converted.

Definition realToOpta (x y : num) : num * num :=
  let normX := nadd (ndiv (nmul x (Fin REAL_X_MID)) (Fin PITCH_X_HALF)) (Fin REAL_X_MID) in
  let normY := nadd (ndiv (nmul y (Fin REAL_Y_MID)) (Fin PITCH_Y_HALF)) (Fin REAL_Y_MID) in
  let optaX := convertWithMirror normX X_BREAKS_REAL X_BREAKS_OPTA REAL_X_MID in
  let optaY := convertWithMirror normY Y_BREAKS_REAL Y_BREAKS_OPTA REAL_Y_MID in
  (ndiv (Math_round (nmul optaX (Fin 100))) (Fin 100),
   ndiv (Math_round (nmul optaY (Fin 100))) (Fin 100)).

Section ColumnarConversion.

(** The conversion of a string to a number ([Number(s)]) is the host's; the
    development is parametric in it. *)
Variable StringToNumber : string → num.

(** The coercion applied to an operand of [*], [-] or [/]. *)
Definition ToNumber (v : jsval) : num :=
  match v with
  | JUndefined => NaN
  | JNull => Fin 0
  | JNum n => n
  | JStr s => StringToNumber s
  end.

(** [arr[i] = v]: a write at or past the end extends the array. *)
Definition array_set (arr : list jsval) (i : nat) (v : jsval) : list jsval :=
  if decide (i < length arr)%nat then <[i := v]> arr
  else arr ++ replicate (i - length arr) JUndefined ++ [v].

(** One iteration of the loop of [realToOptaArrays]. *)
Definition convertRow (xArray yArray : list jsval) (acc : list jsval * list jsval)
    (i : nat) : list jsval * list jsval :=
  let converted := realToOpta (ToNumber (at_index xArray (Z.of_nat i)))
                              (ToNumber (at_index yArray (Z.of_nat i))) in
  (array_set acc.1 i (JNum converted.1), array_set acc.2 i (JNum converted.2)).

Definition realToOptaArrays (xArray yArray : list jsval) : list jsval * list jsval :=
  let optaX := replicate (length xArray) JUndefined in
  let optaY := replicate (length yArray) JUndefined in
  foldl (convertRow xArray yArray) (optaX, optaY) (seq 0 (length xArray)).

(** ** The upload page *)

Definition convertTrackingToOpta (data : ColumnarData) : ColumnarData :=
  match columns data !! "pos_x", columns data !! "pos_y" with
  | Some posXCol, Some posYCol =>
      let converted := realToOptaArrays posXCol posYCol in
      mkColumnarData
        (<["pos_y" := converted.2]> (<["pos_x" := converted.1]> (columns data)))
        (numRows data) (fieldNames data)
  | _, _ => data
  end.

End ColumnarConversion.

Definition SYNCABLE_EVENT_TYPES : list Z := [1; 5; 49; 12; 44; 6; 8; 13; 14; 15; 16; 2].

(** [SYNCABLE_EVENT_TYPES.has(v)] *)
Definition syncable_has (v : jsval) : bool :=
  match v with
  | JNum (Fin q) => existsb (λ z, Qeq_bool q (inject_Z z)) SYNCABLE_EVENT_TYPES
  | _ => false
  end.

(** [v !== null && v !== undefined && !Number.isNaN(v)] *)
Definition hasCoordinate (v : jsval) : bool :=
  negb (strict_eq v JNull) && negb (strict_eq v JUndefined) && negb (Number_isNaN v).

(** The condition under which row [i] is pushed on [validIndices]. *)
Definition isSyncableRow (xCol yCol periodCol eventTypeCol : list jsval) (i : Z) : bool :=
  let x := at_index xCol i in
  let y := at_index yCol i in
  let period := at_index periodCol i in
  let eventType := at_index eventTypeCol i in
  hasCoordinate x && hasCoordinate y &&
  (strict_eq period (JInt 1) || strict_eq period (JInt 2)) &&
  syncable_has eventType.

(** [validIndices.map(i => col[i])]: the callback runs, and reads [col], only
    when there is an index to map. *)
Definition pickRows (col : option (list jsval)) (validIndices : list Z) : option (list jsval) :=
  match validIndices with
  | [] => Some []
  | _ => match col with
         | Some arr => Some (map (at_index arr) validIndices)
         | None => None
         end
  end.

(** The loop [for (const fieldName of data.fieldNames)]. *)
Fixpoint filterColumns (cols : gmap string (list jsval)) (validIndices : list Z)
    (names : list string) (filteredColumns : gmap string (list jsval))
    : option (gmap string (list jsval)) :=
  match names with
  | [] => Some filteredColumns
  | fieldName :: rest =>
      picked ← pickRows (cols !! fieldName) validIndices;
      filterColumns cols validIndices rest (<[fieldName := picked]> filteredColumns)
  end.

Definition filterEventsToSync (data : ColumnarData) : option ColumnarData :=
  match columns data !! "x", columns data !! "y",
        columns data !! "period_id", columns data !! "event_type_id" with
  | Some xCol, Some yCol, Some periodCol, Some eventTypeCol =>
      let validIndices :=
        filter (λ i, isSyncableRow xCol yCol periodCol eventTypeCol i = true)
               (seqZ 0 (numRows data)) in
      filteredColumns ← filterColumns (columns data) validIndices (fieldNames data) ∅;
      Some (mkColumnarData filteredColumns (Z.of_nat (length validIndices)) (fieldNames data))
  | _, _, _, _ => Some data
  end.


(** ** types/index.ts: rows *)

(** A row object: one property per field name. *)
Abbreviation Row := (gmap string jsval).

(** [row[name]]: a property that is absent reads as [undefined]. *)
Definition field (row : Row) (name : string) : jsval :=
  default JUndefined (row !! name).

(** The loop [for (const name of data.fieldNames)] of [getRow]; a field name
    without a column makes the read of its cell throw. *)
Fixpoint buildRow (cols : gmap string (list jsval)) (names : list string) (index : Z)
    (row : Row) : option Row :=
  match names with
  | [] => Some row
  | name :: rest =>
      v ← col_index (cols !! name) index;
      buildRow cols rest index (<[name := v]> row)
  end.

Definition getRow (data : ColumnarData) (index : Z) : option Row :=
  buildRow (columns data) (fieldNames data) index ∅.

(** ** The sync page: what it derives from the state *)

(** [getEventRow(index)]: [null] without events or past the last row. *)
Definition getEventRow (events : option ColumnarData) (index : Z) : option (option Row) :=
  match events with
  | None => Some None
  | Some data =>
      if numRows data <=? index then Some None
      else row ← getRow data index; Some (Some row)
  end.

(** The memo that selects the frame, reduced to its [currentTime]: the times
    of the event's period are collected by the loop of [getPeriodTimes]. *)
Definition frameTime (currentEvent : option Row) (tracking : option ColumnarData)
    (offset : Z) : option (option Q) :=
  match currentEvent, tracking with
  | Some event, Some trackingData =>
      let period := field event "period_id" in
      let baseTime := field event "matched_time" in
      uniqueTimes ← getPeriodTimes trackingData period;
      if bool_decide (length uniqueTimes = 0%nat) then Some None
      else
        base ← as_number baseTime;
        Some (currentTimeOf uniqueTimes base offset)
  | _, _ => Some None
  end.

Definition currentEvent (st : AppState) : option (option Row) :=
  getEventRow (eventsData st) (currentEventIndex st).

Definition currentTime (st : AppState) : option (option Q) :=
  event ← currentEvent st;
  frameTime event (trackingData st) (frameOffset st).

(** [isCurrentSynced] *)
Definition isCurrentSynced (st : AppState) : option bool :=
  event ← currentEvent st;
  match event with
  | None => Some false
  | Some row =>
      Some (has_key (js_String (nullish (field row "opta_event_id")
                                        (JInt (currentEventIndex st))))
                    (syncedResults st))
  end.

(** [isComplete]: the page then shows its completion screen. *)
Definition isComplete (st : AppState) : bool :=
  match eventsData st with
  | None => true
  | Some events => numRows events <=? currentEventIndex st
  end.

(** What [results[k]] reads: the time under an own key, or an inherited
    function or object. *)
Inductive member : Type :=
| OwnTime (t : Q)
| Inherited.

Definition member_of (k : string) (results : SyncedResults) : option member :=
  match results !! k with
  | Some t => Some (OwnTime t)
  | None => if bool_decide (k ∈ Object_prototype) then Some Inherited else None
  end.

(** [previousEventSyncedTime]: [syncedResults[prevEventId] ?? null] *)
Definition previousEventSyncedTime (st : AppState) : option (option member) :=
  if currentEventIndex st <=? 0 then Some None
  else
    match eventsData st with
    | None => Some None
    | Some _ =>
        prev ← getEventRow (eventsData st) (currentEventIndex st - 1);
        match prev with
        | None => Some None
        | Some row =>
            let prevEventId :=
              js_String (nullish (field row "opta_event_id")
                                 (JInt (currentEventIndex st - 1))) in
            Some (member_of prevEventId (syncedResults st))
        end
    end.

(** [handleSync] *)
Definition handleSync (written : bool) (st : AppState) : option outcome :=
  time ← currentTime st;
  match time with
  | Some t => Some (syncCurrentEvent t written st)
  | None => Some (Returned st)
  end.

(** [handleSyncToPrevious]; what is confirmed under an inherited member is
    no number and leaves the embedding. *)
Definition handleSyncToPrevious (written : bool) (st : AppState) : option outcome :=
  time ← previousEventSyncedTime st;
  match time with
  | Some (OwnTime t) => Some (syncCurrentEvent t written st)
  | Some Inherited => None
  | None => Some (Returned st)
  end.

(** [handleJump]; [jumpValue] is the number typed into the jump box. *)
Definition handleJump (jumpValue : Q) (st : AppState) : option outcome :=
  jumpToEvent jumpValue st.

(** [setFrameOffset], which the slider calls. *)
Definition setFrameOffset (offset : Z) (st : AppState) : AppState :=
  setCursor st (currentEventIndex st) offset.

(** The state of the provider when it mounts, and after [resetAll]. *)
Definition initialState : AppState := mkAppState None None ∅ 0 0 0.

(** The state [saveData] sets once the three writes are done. *)
Definition savedState (tracking events : ColumnarData) : AppState :=
  mkAppState (Some events) (Some tracking) ∅ 0 0 0.

(** The states an import may leave. *)
Definition stateAfterImport (o : importOutcome) (st' : AppState) : Prop :=
  match o with
  | Applied st | Alerted _ st => st' = st
  | AppliedAt k => ∃ offset, st' = k offset
  end.

(** What the controls of the pages do to the state.  The completion screen
    ([isComplete]) offers the import and the reset only; the arrow keys are
    bound on both screens.  The slider may hand any offset to
    [setFrameOffset], and [saveData] (the start button of the upload page)
    any pair of datasets whose row count is not negative.  A write of the
    results may resolve or be rejected. *)
Inductive pageStep : AppState → AppState → Prop :=
| StepSync st written o st' :
    isComplete st = false → handleSync written st = Some o → stateAfter o st' →
    pageStep st st'
| StepSyncToPrevious st written o st' :
    isComplete st = false → handleSyncToPrevious written st = Some o → stateAfter o st' →
    pageStep st st'
| StepSkip st st' :
    isComplete st = false → stateAfter (skipEvent st) st' → pageStep st st'
| StepSlider st offset :
    isComplete st = false → pageStep st (setFrameOffset offset st)
| StepFrameButton st delta :
    isComplete st = false → pageStep st (adjustFrameOffset delta st)
| StepArrowKey st delta :
    pageStep st (adjustFrameOffset delta st)
| StepPrev st st' :
    isComplete st = false → stateAfter (prevEvent st) st' → pageStep st st'
| StepNext st st' :
    isComplete st = false → stateAfter (nextEvent st) st' → pageStep st st'
| StepNextUnsynced st st' :
    isComplete st = false → stateAfter (nextUnsynced st) st' → pageStep st st'
| StepJump st jumpValue o st' :
    isComplete st = false → handleJump jumpValue st = Some o → stateAfter o st' →
    pageStep st st'
| StepImport st parsed written st' :
    stateAfterImport (handleFileChange parsed written st) st' → pageStep st st'
| StepReset st :
    pageStep st initialState
| StepSaveData st tracking events :
    0 <= numRows events → pageStep st (savedState tracking events).

(** ** utils/db.ts *)

Record Metadata : Type := mkMetadata {
  gameUuid : string;
  teamIds : list jsval
}.

(** What an object store of a dataset holds under a key: the record of
    [numRows] and [fieldNames] written under ["_meta"], or the record of a
    column, whose [data] is [undefined] when the dataset has no such column. *)
Inductive storeValue : Type :=
| MetaValue (rows : Z) (names : list string)
| ColumnValue (data : option (list jsval)).

Record Database : Type := mkDatabase {
  trackingStore : gmap string storeValue;
  eventsStore : gmap string storeValue;
  metadataStore : gmap string Metadata;
  syncedResultsStore : gmap string SyncedResults
}.

(** The transaction of [saveTrackingData] and [saveEventsData]: the store is
    cleared, the ["_meta"] record is put, then one record per field name. *)
Definition saveColumnar (data : ColumnarData) : gmap string storeValue :=
  foldl (λ store fieldName, <[fieldName := ColumnValue (columns data !! fieldName)]> store)
        (<["_meta" := MetaValue (numRows data) (fieldNames data)]> ∅)
        (fieldNames data).

Definition saveTrackingData (data : ColumnarData) (db : Database) : Database :=
  mkDatabase (saveColumnar data) (eventsStore db) (metadataStore db) (syncedResultsStore db).

Definition saveEventsData (data : ColumnarData) (db : Database) : Database :=
  mkDatabase (trackingStore db) (saveColumnar data) (metadataStore db) (syncedResultsStore db).

(** The loop that fills [columns] from the records read: a record that is
    absent or whose [data] is [undefined] gives no column.  A ["_meta"]
    record among the columns is not an array and leaves the typed fragment. *)
Fixpoint loadColumns (store : gmap string storeValue) (names : list string)
    (cols : gmap string (list jsval)) : option (gmap string (list jsval)) :=
  match names with
  | [] => Some cols
  | fieldName :: rest =>
      match store !! fieldName with
      | Some (ColumnValue (Some data)) => loadColumns store rest (<[fieldName := data]> cols)
      | Some (ColumnValue None) | None => loadColumns store rest cols
      | Some (MetaValue _ _) => None
      end
  end.

(** [loadTrackingData] and [loadEventsData] on their store: [null] without a
    ["_meta"] record; a ["_meta"] record that is a column's makes the
    destructuring or the [map] over [fieldNames] throw. *)
Definition loadColumnar (store : gmap string storeValue) : option (option ColumnarData) :=
  match store !! "_meta" with
  | None => Some None
  | Some (MetaValue rows names) =>
      cols ← loadColumns store names ∅;
      Some (Some (mkColumnarData cols rows names))
  | Some (ColumnValue _) => None
  end.

Definition loadTrackingData (db : Database) : option (option ColumnarData) :=
  loadColumnar (trackingStore db).

Definition loadEventsData (db : Database) : option (option ColumnarData) :=
  loadColumnar (eventsStore db).

Definition saveMetadata (metadata : Metadata) (db : Database) : Database :=
  mkDatabase (trackingStore db) (eventsStore db)
    (<["main" := metadata]> (metadataStore db)) (syncedResultsStore db).

(** [result || null] *)
Definition loadMetadata (db : Database) : option Metadata :=
  metadataStore db !! "main".

Definition saveSyncedResults (results : SyncedResults) (db : Database) : Database :=
  mkDatabase (trackingStore db) (eventsStore db) (metadataStore db)
    (<["main" := results]> (syncedResultsStore db)).

(** [result?.data || {}] *)
Definition loadSyncedResults (db : Database) : SyncedResults :=
  default ∅ (syncedResultsStore db !! "main").

Definition clearAllData (db : Database) : Database := mkDatabase ∅ ∅ ∅ ∅.

Definition hasStoredData (db : Database) : bool :=
  bool_decide (is_Some (eventsStore db !! "_meta"))
  && bool_decide (is_Some (trackingStore db !! "_meta")).

(** ** The provider and its store *)

(** The state of the provider: the cursor state with the metadata and the
    two flags. *)
Record Provider : Type := mkProvider {
  app : AppState;
  metadata : option Metadata;
  isLoading : bool;
  hasData : bool
}.

(** [loadFromStorage]: a load that throws, and an offset that cannot be
    computed after the first setters have run, end in the [catch]. *)
Definition loadFromStorage (db : Database) (p : Provider) : Provider :=
  let failed := mkProvider (app p) (metadata p) false false in
  if hasStoredData db then
    match loadTrackingData db, loadEventsData db with
    | Some (Some tracking), Some (Some events) =>
        let results := loadSyncedResults db in
        let firstUnsynced := findFirstUnsynced 0 events results in
        match updateOffsetForEvent firstUnsynced events tracking results 0 with
        | Some offset =>
            mkProvider
              (mkAppState (Some events) (Some tracking) results firstUnsynced offset
                 (lastSyncOffset (app p)))
              (loadMetadata db) false true
        | None =>
            mkProvider
              (mkAppState (Some events) (Some tracking) results firstUnsynced
                 (frameOffset (app p)) (lastSyncOffset (app p)))
              (loadMetadata db) false false
        end
    | _, _ => failed
    end
  else failed.

(** [saveData], its three writes done. *)
Definition saveData (tracking events : ColumnarData) (meta : Metadata)
    (db : Database) (p : Provider) : Database * Provider :=
  (saveMetadata meta (saveEventsData events (saveTrackingData tracking db)),
   mkProvider (savedState tracking events) (Some meta) false true).

(** [resetAll], the stores cleared. *)
Definition resetAll (db : Database) (p : Provider) : Database * Provider :=
  (clearAllData db, mkProvider initialState None false false).

(** The store after [syncCurrentEvent]: past its two guards it writes the
    new map, when the write resolves. *)
Definition storeAfterSync (currentTime : Q) (written : bool) (st : AppState)
    (db : Database) : Database :=
  match eventsData st, trackingData st with
  | Some events, Some _ =>
      if (numRows events <=? currentEventIndex st) || negb written then db
      else saveSyncedResults
             (<[eventId events (currentEventIndex st) := currentTime]> (syncedResults st)) db
  | _, _ => db
  end.

(** The store after [uploadResults]. *)
Definition storeAfterUpload (results : SyncedResults) (written : bool) (st : AppState)
    (db : Database) : Database :=
  match eventsData st, trackingData st with
  | Some _, Some _ => if written then saveSyncedResults results db else db
  | _, _ => db
  end.

(** ** The upload page: jersey numbers and teams *)

(** SameValueZero, the equality of the keys of a [Map], of the members of a
    [Set] and of [includes]. *)
Definition same_value_zero (a b : jsval) : bool :=
  match a, b with
  | JNum NaN, JNum NaN => true
  | _, _ => strict_eq a b
  end.

(** [v === null || v === undefined] *)
Definition isNullish (v : jsval) : bool :=
  match v with
  | JUndefined | JNull => true
  | _ => false
  end.

(** A [Map], as its entries in insertion order. *)
Abbreviation JsMap := (list (jsval * jsval)).

Fixpoint Map_set (key value : jsval) (m : JsMap) : JsMap :=
  match m with
  | [] => [(key, value)]
  | (k, v) :: rest =>
      if same_value_zero k key then (k, value) :: rest
      else (k, v) :: Map_set key value rest
  end.

Fixpoint Map_get (key : jsval) (m : JsMap) : option jsval :=
  match m with
  | [] => None
  | (k, v) :: rest => if same_value_zero k key then Some v else Map_get key rest
  end.

(** The condition under which a tracking row enters [playerJerseyMap]. *)
Definition hasJersey (playerId jerseyNo : jsval) : bool :=
  negb (isNullish playerId) && negb (strict_eq playerId (JInt (-1)))
  && negb (isNullish jerseyNo).

(** One iteration of the loop that fills [playerJerseyMap]. *)
Definition addPlayer (playerOptaIdCol trackingJerseyCol : list jsval) (m : JsMap) (i : Z)
    : JsMap :=
  let playerId := at_index playerOptaIdCol i in
  let jerseyNo := at_index trackingJerseyCol i in
  if hasJersey playerId jerseyNo then Map_set playerId jerseyNo m else m.

Definition playerJerseyMap (playerOptaIdCol trackingJerseyCol : list jsval) (rows : Z)
    : JsMap :=
  foldl (addPlayer playerOptaIdCol trackingJerseyCol) [] (seqZ 0 rows).

(** The cell [mappedJerseyNos[i]]. *)
Definition mappedJerseyNo (m : JsMap) (eventPlayerIdCol : list jsval) (i : Z) : jsval :=
  let playerId := at_index eventPlayerIdCol i in
  if isNullish playerId then JNull
  else match Map_get playerId m with
       | Some jerseyNo => jerseyNo
       | None => JNull
       end.

(** [mapJerseyNumbersToEvents]; [new Array(events.numRows)] throws on a
    length that is negative or above [2^32 - 1]. *)
Definition mapJerseyNumbersToEvents (events tracking : ColumnarData) : option ColumnarData :=
  match columns tracking !! "player_opta_id", columns tracking !! "jersey_no" with
  | Some playerOptaIdCol, Some trackingJerseyCol =>
      let m := playerJerseyMap playerOptaIdCol trackingJerseyCol (numRows tracking) in
      match columns events !! "player_id" with
      | None => Some events
      | Some eventPlayerIdCol =>
          if (numRows events <? 0) || (2 ^ 32 - 1 <? numRows events) then None
          else
            let mappedJerseyNos :=
              mappedJerseyNo m eventPlayerIdCol <$> seqZ 0 (numRows events) in
            let newFieldNames :=
              if bool_decide ("jersey_no" ∈ fieldNames events) then fieldNames events
              else fieldNames events ++ ["jersey_no"] in
            Some (mkColumnarData (<["jersey_no" := mappedJerseyNos]> (columns events))
                    (numRows events) newFieldNames)
      end
  | _, _ => Some events
  end.

(** [new Set(col)], as its members in insertion order; [new Set(undefined)]
    is empty. *)
Definition Set_add (members : list jsval) (v : jsval) : list jsval :=
  if existsb (same_value_zero v) members then members else members ++ [v].

Definition Set_from (col : option (list jsval)) : list jsval :=
  foldl Set_add [] (default [] col).

(** [id !== -1 && id !== undefined && id !== null] *)
Definition isTeamId (id : jsval) : bool :=
  negb (strict_eq id (JInt (-1))) && negb (strict_eq id JUndefined)
  && negb (strict_eq id JNull).

Definition uniqueTeamIds (tracking : ColumnarData) : list jsval :=
  List.filter isTeamId (Set_from (columns tracking !! "team_opta_id")).

(** [s.replace(pattern, '')]: the first occurrence of [pattern] is removed. *)
Fixpoint remove_first (pattern s : string) : string :=
  if String.prefix pattern s
  then String.substring (String.length pattern)
         (String.length s - String.length pattern)%nat s
  else match s with
       | EmptyString => EmptyString
       | String c rest => String c (remove_first pattern rest)
       end.

Definition gameUuidOf (name : string) : string :=
  remove_first "events_" (remove_first "tracking_" (remove_first ".parquet" name)).

(** How [handleStartSync] ends: with one of its two error messages, in its
    [catch], or in [saveData]. *)
Inductive startOutcome : Type :=
| UploadBothFirst
| NoTwoTeams
| FailedToSave
| SaveData (tracking events : ColumnarData) (meta : Metadata).

(** [handleStartSync] on the file name of the tracking file and the two
    parsed datasets. *)
Definition handleStartSync (trackingFile : option string)
    (trackingParsed eventsParsed : option ColumnarData) : startOutcome :=
  match trackingParsed, eventsParsed, trackingFile with
  | Some tracking, Some events, Some name =>
      let teams := uniqueTeamIds tracking in
      if (length teams <? 2)%nat then NoTwoTeams
      else
        let meta := mkMetadata (gameUuidOf name) (take 2 teams) in
        match mapJerseyNumbersToEvents events tracking with
        | Some eventsWithJersey => SaveData tracking eventsWithJersey meta
        | None => FailedToSave
        end
  | _, _, _ => UploadBothFirst
  end.

(** ** The export of the confirmations *)

(** The object [downloadResults] serialises with [JSON.stringify]: one
    member per confirmed event, its time as a number.  The text of the file
    and the order of the members are left open. *)
Definition downloadResults (st : AppState) : list (string * json) :=
  prod_map id JsonNumber <$> map_to_list (syncedResults st).

(** ** components/SyncInstructions.tsx *)

Inductive EventCategory : Type :=
| pass
| aerial
| interception
| outofbounds
| other.

(** [ids.includes(id)] *)
Definition includes (ids : list Z) (id : num) : bool :=
  existsb (λ z, same_value_zero (JInt z) (JNum id)) ids.

(** [getEventCategory]; [Number(eventTypeId)] is [ToNumber]. *)
Definition getEventCategory (StringToNumber : string → num) (eventTypeId : jsval)
    : EventCategory :=
  if isNullish eventTypeId then other
  else
    let id := ToNumber StringToNumber eventTypeId in
    if includes [1; 12; 13; 14; 15; 16] id then pass
    else if strict_eq (JNum id) (JInt 44) then aerial
    else if includes [8; 49] id then interception
    else if includes [5; 6] id then outofbounds
    else other.

(** ** The sync page: the rows of the frame *)

(** The second loop of the frame memo: the rows of the period at the target
    time, each as a row object. *)
Fixpoint frameRows (periodCol timeCol : option (list jsval)) (trackingData : ColumnarData)
    (period : jsval) (targetTime : Q) (rows : list Z) : option (list Row) :=
  match rows with
  | [] => Some []
  | i :: rest =>
      p ← col_index periodCol i;
      shown ← (if strict_eq p period
               then v ← col_index timeCol i; Some (strict_eq v (JNum (Fin targetTime)))
               else Some false);
      if shown : bool then
        row ← getRow trackingData i;
        others ← frameRows periodCol timeCol trackingData period targetTime rest;
        Some (row :: others)
      else frameRows periodCol timeCol trackingData period targetTime rest
  end.

(** The frame memo, reduced to its [frameData]. *)
Definition frameDataOf (currentEvent : option Row) (tracking : option ColumnarData)
    (offset : Z) : option (list Row) :=
  match currentEvent, tracking with
  | Some event, Some trackingData =>
      let period := field event "period_id" in
      let baseTime := field event "matched_time" in
      uniqueTimes ← getPeriodTimes trackingData period;
      if bool_decide (length uniqueTimes = 0%nat) then Some []
      else
        base ← as_number baseTime;
        match currentTimeOf uniqueTimes base offset with
        | Some targetTime =>
            frameRows (columns trackingData !! "period_id")
              (columns trackingData !! "matched_time") trackingData period targetTime
              (seqZ 0 (numRows trackingData))
        | None => None
        end
  | _, _ => Some []
  end.

Definition frameData (st : AppState) : option (list Row) :=
  event ← currentEvent st;
  frameDataOf event (trackingData st) (frameOffset st).

(** ** components/PitchSVG.tsx: who is drawn *)

(** [frameData.filter(d => d.team_opta_id === teamIds[k])] *)
Definition teamPlayers (frame : list Row) (teamIds : list jsval) (k : Z) : list Row :=
  List.filter (λ d, strict_eq (field d "team_opta_id") (at_index teamIds k)) frame.
(** * Statements and examples *)

(** ** Datasets of the examples *)

(** A dataset of one event without an id column: its id is its row index. *)
Definition oneEvent : ColumnarData := mkColumnarData ∅ 1 [].

(** The two events of the specification's example. *)
Definition exampleEvents : ColumnarData :=
  mkColumnarData
    (<["opta_event_id" := [JStr "E1"; JStr "E2"]]>
     (<["period_id" := [JInt 1; JInt 1]]>
     (<["matched_time" := [JInt 1000; JInt 2000]]> ∅)))
    2 ["opta_event_id"; "period_id"; "matched_time"].

(** Period 1 sampled every 50 ms from 900 ms to 2050 ms. *)
Definition exampleTracking : ColumnarData :=
  mkColumnarData
    (<["period_id" := replicate 24 (JInt 1)]>
     (<["matched_time" := map (λ k, JInt (900 + 50 * k)) (seqZ 0 24)]> ∅))
    24 ["period_id"; "matched_time"].

(** The cursor on E1, two frames after the nominal frame, nothing confirmed. *)
Definition exampleState : AppState :=
  mkAppState (Some exampleEvents) (Some exampleTracking) ∅ 0 2 0.

(** Both events confirmed, the cursor on E1. *)
Definition confirmedState : AppState :=
  mkAppState (Some exampleEvents) (Some exampleTracking)
    (<["E1" := 1100%Q]> (<["E2" := 1900%Q]> ∅)) 0 3 3.

(** ** Well-formed datasets *)

(** A column of finite numbers with one cell per row. *)
Definition numberColumn (data : ColumnarData) (name : string) : bool :=
  match columns data !! name with
  | Some col =>
      bool_decide (Z.of_nat (length col) = numRows data)
      && forallb (λ v, bool_decide (is_Some (as_number v))) col
  | None => false
  end.



(** Two events of a dataset that has no [period_id] column. *)
Definition periodlessEvents : ColumnarData :=
  mkColumnarData
    (<["opta_event_id" := [JStr "E1"; JStr "E2"]]>
     (<["matched_time" := [JInt 1000; JInt 2000]]> ∅))
    2 ["opta_event_id"; "matched_time"].

Definition periodlessState : AppState :=
  mkAppState (Some periodlessEvents) (Some exampleTracking) ∅ 0 2 5.



(** Two events, the first of which has the id [toString]. *)
Definition namedEvents : ColumnarData :=
  mkColumnarData
    (<["opta_event_id" := [JStr "toString"; JStr "E2"]]>
     (<["period_id" := [JInt 1; JInt 1]]>
     (<["matched_time" := [JInt 1000; JInt 2000]]> ∅)))
    2 ["opta_event_id"; "period_id"; "matched_time"].

(** ** Statements about the scan *)

(** Following the specification: the derived id of row [j] is [String(opta_event_id)]
    if present and non-null, else [String(j)]. *)
Definition derivedId (events : ColumnarData) (j : Z) : string :=
  match columns events !! "opta_event_id" with
  | Some col =>
      match at_index col j with
      | JUndefined | JNull => js_String (JInt j)
      | id => js_String id
      end
  | None => js_String (JInt j)
  end.

(** Following the specification: the event at [j] is synced when its derived
    id is a key of the results. *)
Definition synced (events : ColumnarData) (results : SyncedResults) (j : Z) : Prop :=
  is_Some (results !! derivedId events j).

(** The derived id of the event at [j] is a name that a plain object
    inherits from [Object.prototype]. *)
Definition inheritedId (events : ColumnarData) (j : Z) : Prop :=
  derivedId events j ∈ Object_prototype.

(** The event at [j] counts as synced for the test [eventId in results]: it
    is synced, or its id is an inherited name. *)
Definition countsAsSynced (events : ColumnarData) (results : SyncedResults) (j : Z) : Prop :=
  synced events results j ∨ inheritedId events j.

(** ** Statements about navigation *)

(** The events carry the two columns [updateOffsetForEvent] indexes. *)
Definition indexedColumns (data : ColumnarData) : Prop :=
  is_Some (columns data !! "period_id") ∧ is_Some (columns data !! "matched_time").


(** ** The offset as the specification words it *)

(** Following the specification: the smallest index whose time is at or after
    [target], and the last valid index when there is none. *)
Definition nearestIndexAtOrAfter (times : list Q) (target : Q) : Z :=
  let i := findIndex (λ t, Qle_bool target t) times in
  if i <? 0 then Z.of_nat (length times) - 1 else i.

(** Following the specification: [syncIdx - baseIdx] over the period's times. *)
Definition specOffset (periodTimes : list Q) (nominalTime confirmedTime : Q) : Z :=
  nearestIndexAtOrAfter periodTimes confirmedTime
  - nearestIndexAtOrAfter periodTimes nominalTime.

(** An event whose nominal time lies after the last sample of its period. *)
Definition lateEvents : ColumnarData :=
  mkColumnarData
    (<["opta_event_id" := [JStr "E1"]]>
     (<["period_id" := [JInt 1]]>
     (<["matched_time" := [JInt 400]]> ∅)))
    1 ["opta_event_id"; "period_id"; "matched_time"].

Definition shortTracking : ColumnarData :=
  mkColumnarData
    (<["period_id" := [JInt 1; JInt 1; JInt 1; JInt 1]]>
     (<["matched_time" := [JInt 300; JInt 100; JInt 200; JInt 100]]> ∅))
    4 ["period_id"; "matched_time"].

(** An event inside the samples of its period. *)
Definition earlyEvents : ColumnarData :=
  mkColumnarData
    (<["opta_event_id" := [JStr "E1"]]>
     (<["period_id" := [JInt 1]]>
     (<["matched_time" := [JInt 100]]> ∅)))
    1 ["opta_event_id"; "period_id"; "matched_time"].

(** ** Statements about the interpolation *)

(** The breakpoint at index [i], as a rational. *)
Definition qat (breaks : list Q) (i : Z) : Q := default 0%Q (breaks !! Z.to_nat i).
Arguments qat breaks i%_Z.

(** A table whose entries strictly increase. *)
Fixpoint increasing (breaks : list Q) : bool :=
  match breaks with
  | a :: rest =>
      match rest with
      | b :: _ => negb (Qle_bool b a) && increasing rest
      | [] => true
      end
  | [] => true
  end.

(** The segment [interp] interpolates on: the index its loop stops at, after
    the clamp. *)
Definition segmentOf (value : Q) (sourceBreaks : list Q) : Z :=
  let len := Z.of_nat (length sourceBreaks) in
  let i := findInterval (length sourceBreaks) (Fin value) sourceBreaks 0 in
  if len - 1 <=? i then len - 2 else i.

(** The line through the breakpoints [i] and [i + 1]. *)
Definition lineAt (sourceBreaks targetBreaks : list Q) (i : Z) (value : Q) : Q :=
  (qat targetBreaks i
   + (value - qat sourceBreaks i) / (qat sourceBreaks (i + 1) - qat sourceBreaks i)
     * (qat targetBreaks (i + 1) - qat targetBreaks i))%Q.
Arguments lineAt sourceBreaks targetBreaks i%_Z value%_Q.

(** ** Statements about the array conversion *)

(** Row [i] of the two position columns, converted. *)
Definition convertedAt (StringToNumber : string → num) (xArray yArray : list jsval)
    (i : nat) : num * num :=
  realToOpta (ToNumber StringToNumber (at_index xArray (Z.of_nat i)))
             (ToNumber StringToNumber (at_index yArray (Z.of_nat i))).

(** A tracking dataset of two rows with a position and a team column. *)
Definition positionsTracking : ColumnarData :=
  mkColumnarData
    (<["pos_x" := [JNum (Fin 0); JNum (Fin 10)]]>
     (<["pos_y" := [JNum (Fin 0); JNum (Fin (-7.3))]]>
     (<["team_opta_id" := [JInt 3; JInt 4]]> ∅)))
    2 ["pos_x"; "pos_y"; "team_opta_id"].

(** ** Statements about the event filter *)

(** A coordinate that is present: not [null], not [undefined], not [NaN]. *)
Definition presentCoordinate (v : jsval) : Prop :=
  v ≠ JNull ∧ v ≠ JUndefined ∧ v ≠ JNum NaN.

(** The number [z]. *)
Definition isNumber (v : jsval) (z : Z) : Prop :=
  ∃ q, v = JNum (Fin q) ∧ (q == inject_Z z)%Q.

(** The row condition, property by property. *)
Definition syncableRow (xCol yCol periodCol eventTypeCol : list jsval) (i : Z) : Prop :=
  presentCoordinate (at_index xCol i) ∧
  presentCoordinate (at_index yCol i) ∧
  (isNumber (at_index periodCol i) 1 ∨ isNumber (at_index periodCol i) 2) ∧
  ∃ z, z ∈ [1; 2; 5; 6; 8; 12; 13; 14; 15; 16; 44; 49] ∧
       isNumber (at_index eventTypeCol i) z.

(** Four events: a pass, an event without coordinates, an event of the third
    period and an event of a type that is not synced. *)
Definition rawEvents : ColumnarData :=
  mkColumnarData
    (<["opta_event_id" := [JStr "A"; JStr "B"; JStr "C"; JStr "D"]]>
     (<["x" := [JNum (Fin 50.5); JNull; JNum (Fin 10); JNum (Fin 20)]]>
     (<["y" := [JNum (Fin 30); JNum (Fin 1); JNum (Fin 2); JNum (Fin 3)]]>
     (<["period_id" := [JInt 1; JInt 1; JInt 3; JInt 2]]>
     (<["event_type_id" := [JInt 1; JInt 1; JInt 1; JInt 43]]> ∅)))))
    4 ["opta_event_id"; "x"; "y"; "period_id"; "event_type_id"].

(** ** Statements about the import *)

(** [typeof value === 'number'] *)
Definition isNumeric (value : json) : bool :=
  match value with
  | JsonNumber _ => true
  | _ => false
  end.

Definition numberOf (value : json) : Q :=
  match value with
  | JsonNumber q => q
  | _ => 0%Q
  end.

(** The map the assignments [results[key] = value] build, in the order of
    the entries. *)
Definition assignAll (results : SyncedResults) (entries : list (string * json))
    : SyncedResults :=
  foldl (λ acc entry, assign entry.1 (numberOf entry.2) acc) results entries.

(** Every value of the payload is a number. *)
Definition allNumeric (entries : list (string * json)) : Prop :=
  Forall (λ entry, isNumeric entry.2 = true) entries.

(** The import was rejected by the validation: the handler alerted and the
    state is the one it started from. *)
Definition rejected (o : importOutcome) (st : AppState) : Prop :=
  ∃ a, o = Alerted a st ∧ a ≠ AlertUploadFailed.

(** An import file that confirms E2 at 2100 ms. *)
Definition importE2 : json := JsonObject [("E2", JsonNumber 2100)].

(** An import file whose second value is a string. *)
Definition importBad : json :=
  JsonObject [("E1", JsonNumber 1100); ("E2", JsonString "2100"); ("E3", JsonNull)].

(** ** Statements about the period times *)

(** The rows of period [periodId], with their times. *)
Definition sampledAt (pc tc : list jsval) (periodId : jsval) (rows : list Z) (x : Q) : Prop :=
  ∃ i t, i ∈ rows ∧ strict_eq (at_index pc i) periodId = true ∧
         as_number (at_index tc i) = Some t ∧ (t == x)%Q.


(** ** Statements about the sync page *)

(** The cursor lies between 0 and [numRows], and the two datasets are loaded
    together; without datasets the cursor is 0. *)
Definition cursorInRange (st : AppState) : Prop :=
  match eventsData st, trackingData st with
  | Some events, Some _ => 0 <= currentEventIndex st <= numRows events
  | None, None => currentEventIndex st = 0
  | _, _ => False
  end.

(** A dataset every field name of which has a column. *)
Definition namedColumns (data : ColumnarData) : Prop :=
  Forall (λ name, is_Some (columns data !! name)) (fieldNames data).

(** ** Statements about the store *)

(** A dataset reduced to the columns its [fieldNames] list. *)
Definition listedColumns (data : ColumnarData) : ColumnarData :=
  mkColumnarData
    (filter (λ entry, entry.1 ∈ fieldNames data) (columns data))
    (numRows data) (fieldNames data).

(** The store holds the datasets and the confirmations of the state. *)
Definition storeAgrees (db : Database) (st : AppState) : Prop :=
  loadEventsData db = Some (eventsData st)
  ∧ loadTrackingData db = Some (trackingData st)
  ∧ loadSyncedResults db = syncedResults st.

Definition emptyDatabase : Database := mkDatabase ∅ ∅ ∅ ∅.

Definition exampleMetadata : Metadata := mkMetadata "game" [JInt 1; JInt 2].

Definition exampleDatabase : Database :=
  saveSyncedResults (<["E1" := 1100%Q]> ∅)
    (saveData exampleTracking exampleEvents exampleMetadata emptyDatabase
       (mkProvider initialState None false false)).1.

(** E1 confirmed, the cursor moved on to E2 and three frames late. *)
Definition resumedState : AppState :=
  mkAppState (Some exampleEvents) (Some exampleTracking) (<["E1" := 1100%Q]> ∅) 1 3 2.

(** ** Statements about the upload page *)

(** Tracking row [r] gives the player [playerId] a jersey number. *)
Definition jerseyRow (rows : Z) (playerOptaIdCol trackingJerseyCol : list jsval)
    (playerId : jsval) (r : Z) : Prop :=
  0 <= r < rows
  ∧ hasJersey (at_index playerOptaIdCol r) (at_index trackingJerseyCol r) = true
  ∧ same_value_zero (at_index playerOptaIdCol r) playerId = true.

(** Four tracking rows: player 7 wears 10 and then 11, player 9 wears 4, and
    the ball (player -1) has no jersey. *)
Definition jerseyTracking : ColumnarData :=
  mkColumnarData
    (<["player_opta_id" := [JInt 7; JInt 9; JInt (-1); JInt 7]]>
     (<["jersey_no" := [JInt 10; JInt 4; JInt 0; JInt 11]]>
     (<["team_opta_id" := [JInt 30; JInt 30; JInt (-1); JInt 31]]> ∅)))
    4 ["player_opta_id"; "jersey_no"; "team_opta_id"].

(** Three events: of player 7, of an unknown player and of no player. *)
Definition jerseyEvents : ColumnarData :=
  mkColumnarData (<["player_id" := [JInt 7; JInt 8; JNull]]> ∅) 3 ["player_id"].

(** The id column is a field of the dataset, or the dataset has none. *)
Definition listedIds (events : ColumnarData) : Prop :=
  "opta_event_id" ∈ fieldNames events ∨ columns events !! "opta_event_id" = None.
(** * Properties *)

(** ** Comparisons of rationals *)

Lemma Qle_bool_false (x y : Q) : Qle_bool x y = false → (y < x)%Q.
Proof.
  intros H. apply Qnot_le_lt. intros Hle.
  apply Qle_bool_iff in Hle. congruence.
Qed.

(** ** The scan for the first unsynced event *)

Lemma has_key_true k (results : SyncedResults) :
  has_key k results = true ↔ is_Some (results !! k) ∨ k ∈ Object_prototype.
Proof.
  unfold has_key. rewrite orb_true_iff, !bool_decide_eq_true. reflexivity.
Qed.

Lemma has_key_false k (results : SyncedResults) :
  has_key k results = false ↔ results !! k = None ∧ k ∉ Object_prototype.
Proof.
  unfold has_key.
  rewrite orb_false_iff, !bool_decide_eq_false, eq_None_not_Some. reflexivity.
Qed.

(** The id the code derives is the derived id of the specification. *)
Lemma eventId_derived events j : eventId events j = derivedId events j.
Proof.
  unfold eventId, eventIdOf, derivedId, opt_index.
  destruct (columns events !! "opta_event_id") as [col|]; [|reflexivity].
  destruct (at_index col j); reflexivity.
Qed.

Lemma isSynced_counts events results j :
  isSynced events results j = true ↔ countsAsSynced events results j.
Proof.
  unfold isSynced, countsAsSynced. rewrite has_key_true, eventId_derived. reflexivity.
Qed.

Lemma scanUnsynced_ge fuel col rows results i :
  i <= scanUnsynced fuel col rows results i.
Proof.
  revert i. induction fuel as [|fuel IH]; intros i; simpl; [lia|].
  destruct (i <? rows); [|lia].
  destruct (has_key _ results); [|lia].
  specialize (IH (i + 1)). lia.
Qed.

Lemma scanUnsynced_le fuel col rows results i :
  i <= rows → scanUnsynced fuel col rows results i <= rows.
Proof.
  revert i. induction fuel as [|fuel IH]; intros i Hi; simpl; [lia|].
  destruct (i <? rows) eqn:Hlt; [|lia].
  apply Z.ltb_lt in Hlt.
  destruct (has_key _ results); [|lia].
  apply IH. lia.
Qed.

Lemma scanUnsynced_past fuel col rows results i :
  rows <= i → scanUnsynced fuel col rows results i = i.
Proof.
  intros Hi. destruct fuel as [|fuel]; simpl; [reflexivity|].
  destruct (i <? rows) eqn:Hlt; [|reflexivity].
  apply Z.ltb_lt in Hlt. lia.
Qed.

Lemma scanUnsynced_prefix fuel col rows results i j :
  i <= j < scanUnsynced fuel col rows results i →
  has_key (eventIdOf col j) results = true.
Proof.
  revert i. induction fuel as [|fuel IH]; intros i Hj; simpl in Hj; [lia|].
  destruct (i <? rows); [|lia].
  destruct (has_key (eventIdOf col i) results) eqn:Hk; [|lia].
  destruct (decide (j = i)) as [->|Hne]; [exact Hk|].
  apply (IH (i + 1)). lia.
Qed.

(** With the fuel [findFirstUnsynced] gives it, the loop leaves through its
    own exit: at the end of the rows, or at an id that is not in the
    results. *)
Lemma scanUnsynced_stop fuel col rows results i :
  rows - i <= Z.of_nat fuel →
  scanUnsynced fuel col rows results i < rows →
  has_key (eventIdOf col (scanUnsynced fuel col rows results i)) results = false.
Proof.
  revert i. induction fuel as [|fuel IH]; intros i Hfuel Hlt; simpl in *; [lia|].
  destruct (i <? rows) eqn:Hi; [|apply Z.ltb_ge in Hi; lia].
  destruct (has_key (eventIdOf col i) results) eqn:Hk; [|exact Hk].
  apply IH; [lia|exact Hlt].
Qed.

(** More fuel than the rows left does not change the result. *)
Lemma scanUnsynced_fuel fuel fuel' col rows results i :
  rows - i <= Z.of_nat fuel → (fuel <= fuel')%nat →
  scanUnsynced fuel' col rows results i = scanUnsynced fuel col rows results i.
Proof.
  revert fuel' i. induction fuel as [|fuel IH]; intros fuel' i Hfuel Hle.
  - simpl. apply scanUnsynced_past. lia.
  - destruct fuel' as [|fuel']; [lia|]. simpl.
    destruct (i <? rows); [|reflexivity].
    destruct (has_key _ results); [|reflexivity].
    apply IH; lia.
Qed.

Lemma findFirstUnsynced_unsynced i events results :
  findFirstUnsynced i events results < numRows events →
  isSynced events results (findFirstUnsynced i events results) = false.
Proof.
  intros Hlt. unfold isSynced, eventId. unfold findFirstUnsynced in *.
  apply scanUnsynced_stop; [lia|exact Hlt].
Qed.

(** C4, as the code has it: the scan never moves backwards; every event it
    passes is synced, its id being a key of the results, unless that id is
    one of the names a plain object inherits from [Object.prototype]; it
    stops on an unsynced event whenever it stops before the end; and from a
    start index within the dataset it reaches [numRows] when every remaining
    event is synced.  From a start index past the end it returns the start
    index itself. *)
Theorem findFirstUnsynced_scan (i : Z) (events : ColumnarData) (results : SyncedResults) :
  let r := findFirstUnsynced i events results in
  i <= r ∧
  (∀ j, i <= j < r → ¬ inheritedId events j → synced events results j) ∧
  (r < numRows events → ¬ synced events results r) ∧
  (i <= numRows events →
     (∀ j, i <= j < numRows events → synced events results j) →
     r = numRows events) ∧
  (numRows events < i → r = i).
Proof.
  cbv zeta. repeat split.
  - apply scanUnsynced_ge.
  - intros j Hj Hown.
    assert (Hs : isSynced events results j = true)
      by (unfold isSynced, eventId; eapply scanUnsynced_prefix; exact Hj).
    apply isSynced_counts in Hs as [Hs|Hs]; [exact Hs|contradiction].
  - intros Hlt Hsynced.
    assert (Hs : isSynced events results (findFirstUnsynced i events results) = true)
      by (apply isSynced_counts; left; exact Hsynced).
    rewrite findFirstUnsynced_unsynced in Hs by exact Hlt. discriminate.
  - intros Hi Hall.
    pose proof (scanUnsynced_le (Z.to_nat (numRows events - i))
                  (columns events !! "opta_event_id") (numRows events) results i Hi) as Hle.
    fold (findFirstUnsynced i events results) in Hle.
    destruct (decide (findFirstUnsynced i events results = numRows events))
      as [Heq|Hne]; [exact Heq|].
    assert (Hlt : findFirstUnsynced i events results < numRows events) by lia.
    pose proof (findFirstUnsynced_unsynced i events results Hlt) as Hstop.
    pose proof (scanUnsynced_ge (Z.to_nat (numRows events - i))
                  (columns events !! "opta_event_id") (numRows events) results i) as Hge.
    fold (findFirstUnsynced i events results) in Hge.
    assert (Hs : isSynced events results (findFirstUnsynced i events results) = true)
      by (apply isSynced_counts; left; apply Hall; lia).
    congruence.
  - intros Hi. apply scanUnsynced_past. lia.
Qed.

(** C4, as stated, fails in two ways.  For a start index past the end: no
    event lies at or after index 2, so every one of them is synced, and the
    scan returns 2, not [numRows = 1].  And for an id that a plain object
    inherits: with nothing confirmed the scan from 0 passes the event with
    the id [toString], which is not synced. *)
Lemma findFirstUnsynced_past_end_or_inherited :
  (numRows oneEvent = 1 ∧
   (∀ j, 2 <= j < numRows oneEvent → synced oneEvent ∅ j) ∧
   findFirstUnsynced 2 oneEvent ∅ = 2 ∧
   findFirstUnsynced 2 oneEvent ∅ ≠ numRows oneEvent) ∧
  (findFirstUnsynced 0 namedEvents ∅ = 1 ∧
   derivedId namedEvents 0 = "toString" ∧
   ¬ synced namedEvents ∅ 0).
Proof.
  split.
  - split; [reflexivity|]. split; [|split; [reflexivity|discriminate]].
    intros j Hj. simpl in Hj. lia.
  - split; [reflexivity|]. split; [reflexivity|].
    intros [t Ht]. discriminate Ht.
Qed.

(** ** The restored offset falls back *)

Lemma updateOffsetForEvent_past_end i events tracking results fallback :
  numRows events <= i →
  updateOffsetForEvent i events tracking results fallback = Some fallback.
Proof.
  intros Hi. unfold updateOffsetForEvent.
  destruct (numRows events <=? i) eqn:Hle; [reflexivity|].
  apply Z.leb_gt in Hle. lia.
Qed.

Lemma updateOffsetForEvent_unsynced i events tracking results fallback :
  is_Some (columns events !! "period_id") →
  is_Some (columns events !! "matched_time") →
  isSynced events results i = false →
  updateOffsetForEvent i events tracking results fallback = Some fallback.
Proof.
  intros [pc Hpc] [tc Htc] Hun. unfold updateOffsetForEvent.
  destruct (numRows events <=? i); [reflexivity|].
  rewrite Hpc, Htc. simpl.
  unfold isSynced, eventId in Hun. rewrite Hun. reflexivity.
Qed.

(** The index a scan returns is never that of a synced event inside the
    dataset, so the offset recomputed there is the fallback. *)
Lemma updateOffsetForEvent_after_scan i events tracking results fallback :
  is_Some (columns events !! "period_id") →
  is_Some (columns events !! "matched_time") →
  updateOffsetForEvent (findFirstUnsynced i events results) events tracking results fallback
  = Some fallback.
Proof.
  intros Hpc Htc.
  destruct (decide (findFirstUnsynced i events results < numRows events)) as [Hlt|Hge].
  - apply updateOffsetForEvent_unsynced; auto.
    apply findFirstUnsynced_unsynced, Hlt.
  - apply updateOffsetForEvent_past_end. lia.
Qed.

(** Inside the dataset the two columns of the events are indexed before
    anything else: without one of them the call throws. *)
Lemma updateOffsetForEvent_missing i events tracking results fallback :
  i < numRows events →
  columns events !! "period_id" = None ∨ columns events !! "matched_time" = None →
  updateOffsetForEvent i events tracking results fallback = None ∧
  updateOffsetForEvent_throws i events tracking results = true.
Proof.
  intros Hi Hmissing. unfold updateOffsetForEvent, updateOffsetForEvent_throws.
  destruct (numRows events <=? i) eqn:Hle; [apply Z.leb_le in Hle; lia|].
  destruct (columns events !! "period_id") as [pc|];
    destruct (columns events !! "matched_time") as [tc|];
    destruct Hmissing as [H|H]; try discriminate; split; reflexivity.
Qed.


(** The offset recomputed on an event that is not synced, or past the end:
    the call returns with the fallback set, or it throws on an events dataset
    without one of the two columns. *)
Lemma recompute_unsynced i events tracking results fallback finish thrown :
  numRows events <= i ∨ isSynced events results i = false →
  (updateOffsetForEvent i events tracking results fallback = Some fallback ∧
   recompute i events tracking results fallback finish thrown = Returned (finish fallback)) ∨
  (i < numRows events ∧ ¬ indexedColumns events ∧
   recompute i events tracking results fallback finish thrown = Threw thrown).
Proof.
  intros Hi. unfold recompute.
  destruct (decide (numRows events <= i)) as [Hpast|Hin].
  { left. rewrite updateOffsetForEvent_past_end by exact Hpast. split; reflexivity. }
  destruct Hi as [Hi|Hun]; [lia|].
  destruct (columns events !! "period_id") as [pc|] eqn:Hpc;
    [destruct (columns events !! "matched_time") as [tc|] eqn:Htc|].
  - left. rewrite updateOffsetForEvent_unsynced; [split; reflexivity| | |exact Hun].
    + rewrite Hpc. eauto.
    + rewrite Htc. eauto.
  - right. destruct (updateOffsetForEvent_missing i events tracking results fallback)
      as [-> ->]; [lia|right; exact Htc|].
    split; [lia|]. split; [|reflexivity].
    intros [_ [x Hx]]. congruence.
  - right. destruct (updateOffsetForEvent_missing i events tracking results fallback)
      as [-> ->]; [lia|left; exact Hpc|].
    split; [lia|]. split; [|reflexivity].
    intros [[x Hx] _]. congruence.
Qed.

Lemma recompute_after_scan i events tracking results fallback finish thrown :
  let r := findFirstUnsynced i events results in
  (updateOffsetForEvent r events tracking results fallback = Some fallback ∧
   recompute r events tracking results fallback finish thrown = Returned (finish fallback)) ∨
  (r < numRows events ∧ ¬ indexedColumns events ∧
   recompute r events tracking results fallback finish thrown = Threw thrown).
Proof.
  cbv zeta. apply recompute_unsynced.
  destruct (decide (findFirstUnsynced i events results < numRows events)) as [Hlt|Hge].
  - right. apply findFirstUnsynced_unsynced, Hlt.
  - left. lia.
Qed.

(** ** On well-formed datasets the period times are computed *)

Lemma numberColumn_true data name :
  numberColumn data name = true →
  ∃ col, columns data !! name = Some col ∧
         Z.of_nat (length col) = numRows data ∧
         Forall (λ v, is_Some (as_number v)) col.
Proof.
  unfold numberColumn. destruct (columns data !! name) as [col|]; [|discriminate].
  intros H. apply andb_true_iff in H as [Hlen Hall].
  apply bool_decide_eq_true in Hlen.
  exists col. split; [reflexivity|]. split; [exact Hlen|].
  apply Forall_forall. intros v Hv.
  rewrite forallb_forall in Hall.
  apply list_elem_of_In in Hv. apply Hall in Hv.
  apply bool_decide_eq_true in Hv. exact Hv.
Qed.

Lemma at_index_lookup (col : list jsval) i :
  0 <= i < Z.of_nat (length col) →
  ∃ v, col !! Z.to_nat i = Some v ∧ at_index col i = v.
Proof.
  intros Hi. unfold at_index.
  destruct (i <? 0) eqn:Hneg; [apply Z.ltb_lt in Hneg; lia|].
  destruct (lookup_lt_is_Some_2 col (Z.to_nat i)) as [v Hv]; [lia|].
  exists v. rewrite Hv. split; reflexivity.
Qed.

Lemma at_index_number (col : list jsval) i :
  Forall (λ v, is_Some (as_number v)) col →
  0 <= i < Z.of_nat (length col) →
  is_Some (as_number (at_index col i)).
Proof.
  intros Hall Hi. destruct (at_index_lookup col i Hi) as (v & Hv & ->).
  eapply Forall_lookup_1 in Hall; eauto.
Qed.

Lemma collectTimes_total pc tc periodId rows times :
  Forall (λ v, is_Some (as_number v)) tc →
  Forall (λ i, 0 <= i < Z.of_nat (length tc)) rows →
  is_Some (collectTimes (Some pc) (Some tc) periodId rows times).
Proof.
  intros Htc Hrows. revert times.
  induction Hrows as [|i rest Hi _ IH]; intros times; simpl; [eauto|].
  destruct (strict_eq (at_index pc i) periodId); [|apply IH].
  destruct (at_index_number tc i Htc Hi) as [t Ht].
  rewrite Ht. simpl. apply IH.
Qed.

Lemma getPeriodTimes_total tracking periodId :
  numberColumn tracking "period_id" = true →
  numberColumn tracking "matched_time" = true →
  is_Some (getPeriodTimes tracking periodId).
Proof.
  intros Hp Ht.
  apply numberColumn_true in Hp as (pc & Hpc & _ & _).
  apply numberColumn_true in Ht as (tc & Htc & Hlen & Hnum).
  unfold getPeriodTimes. rewrite Hpc, Htc.
  destruct (collectTimes_total pc tc periodId (seqZ 0 (numRows tracking)) [] Hnum)
    as [times Htimes].
  - apply Forall_forall. intros i Hi. apply elem_of_seqZ in Hi. lia.
  - rewrite Htimes. simpl. eauto.
Qed.

(** ** The times of a period *)

Lemma existsb_Qeq (t : Q) (times : list Q) :
  existsb (Qeq_bool t) times = true ↔ InA Qeq t times.
Proof.
  induction times as [|h rest IH]; simpl.
  - split; [discriminate|inversion 1].
  - rewrite orb_true_iff, InA_cons, IH, Qeq_bool_iff. reflexivity.
Qed.

Lemma set_add_InA (t x : Q) (times : list Q) :
  InA Qeq x (set_add t times) ↔ InA Qeq x times ∨ (x == t)%Q.
Proof.
  unfold set_add. destruct (existsb (Qeq_bool t) times) eqn:Hex.
  - apply existsb_Qeq in Hex. split; [auto|].
    intros [Hin|Heq]; [exact Hin|].
    eapply InA_eqA; [apply Q_Setoid| |exact Hex]. symmetry. exact Heq.
  - rewrite InA_app_iff, InA_cons, InA_nil. tauto.
Qed.

Lemma set_add_NoDupA (t : Q) (times : list Q) :
  NoDupA Qeq times → NoDupA Qeq (set_add t times).
Proof.
  intros Hnd. unfold set_add. destruct (existsb (Qeq_bool t) times) eqn:Hex; [exact Hnd|].
  apply NoDupA_app; [apply Q_Setoid|exact Hnd| |].
  - constructor; [inversion 1|constructor].
  - intros x Hin Hx. apply InA_cons in Hx as [Hx|Hx]; [|inversion Hx].
    assert (Ht : InA Qeq t times)
      by (eapply InA_eqA; [apply Q_Setoid|exact Hx|exact Hin]).
    apply existsb_Qeq in Ht. congruence.
Qed.

Lemma collectTimes_members pc tc periodId rows :
  ∀ acc out,
    collectTimes (Some pc) (Some tc) periodId rows acc = Some out →
    (NoDupA Qeq acc → NoDupA Qeq out) ∧
    ∀ x, InA Qeq x out ↔ InA Qeq x acc ∨ sampledAt pc tc periodId rows x.
Proof.
  unfold sampledAt. induction rows as [|i rows IH]; intros acc out Hout; simpl in Hout.
  - injection Hout as <-. split; [auto|]. intros x. split; [auto|].
    intros [H|(j & t & Hj & _)]; [exact H|]. apply elem_of_nil in Hj. destruct Hj.
  - destruct (strict_eq (at_index pc i) periodId) eqn:Hp.
    + destruct (as_number (at_index tc i)) as [t|] eqn:Ht; [|discriminate].
      simpl in Hout. destruct (IH _ _ Hout) as [Hnd Hmem]. split.
      * intros Hacc. apply Hnd, set_add_NoDupA, Hacc.
      * intros x. rewrite Hmem, set_add_InA. split.
        -- intros [[H|H]|(j & t' & Hj & Hpj & Htj & Hx)]; [auto| |].
           ++ right. exists i, t. rewrite elem_of_cons.
              repeat split; auto. symmetry. exact H.
           ++ right. exists j, t'. rewrite elem_of_cons. auto.
        -- intros [H|(j & t' & Hj & Hpj & Htj & Hx)]; [auto|].
           apply elem_of_cons in Hj as [->|Hj].
           ++ left. right. rewrite Ht in Htj. injection Htj as <-. symmetry. exact Hx.
           ++ right. exists j, t'. auto.
    + destruct (IH _ _ Hout) as [Hnd Hmem]. split; [exact Hnd|].
      intros x. rewrite Hmem. split.
      * intros [H|(j & t' & Hj & Hrest)]; [auto|].
        right. exists j, t'. rewrite elem_of_cons. auto.
      * intros [H|(j & t' & Hj & Hpj & Hrest)]; [auto|].
        apply elem_of_cons in Hj as [->|Hj]; [congruence|].
        right. exists j, t'. auto.
Qed.

Lemma insert_ascending_InA (t x : Q) (l : list Q) :
  InA Qeq x (insert_ascending t l) ↔ (x == t)%Q ∨ InA Qeq x l.
Proof.
  induction l as [|h rest IH]; simpl.
  - rewrite InA_cons. reflexivity.
  - destruct (Qle_bool t h).
    + rewrite InA_cons. reflexivity.
    + rewrite !InA_cons, IH. tauto.
Qed.

Lemma insert_ascending_Forall (P : Q → Prop) (t : Q) (l : list Q) :
  P t → Forall P l → Forall P (insert_ascending t l).
Proof.
  intros Ht Hl. induction Hl as [|h rest Hh Hrest IH]; simpl.
  - constructor; [exact Ht|constructor].
  - destruct (Qle_bool t h); repeat constructor; assumption.
Qed.

Lemma insert_ascending_sorted (t : Q) (l : list Q) :
  StronglySorted Qlt l → ¬ InA Qeq t l →
  StronglySorted Qlt (insert_ascending t l).
Proof.
  induction 1 as [|h rest Hsorted IH Hall]; intros Hnew; simpl.
  - repeat constructor.
  - assert (Hne : ¬ (t == h)%Q) by (intros Heq; apply Hnew; left; exact Heq).
    destruct (Qle_bool t h) eqn:Hle.
    + apply Qle_bool_iff in Hle.
      assert (Hlt : (t < h)%Q).
      { destruct (Qlt_le_dec t h) as [H|H]; [exact H|].
        exfalso. apply Hne. apply Qle_antisym; assumption. }
      constructor; [constructor; assumption|].
      constructor; [exact Hlt|].
      eapply Forall_impl; [exact Hall|]. intros y Hy. simpl in Hy.
      eapply Qlt_trans; eassumption.
    + apply Qle_bool_false in Hle.
      constructor.
      * apply IH. intros Hin. apply Hnew. right. exact Hin.
      * apply insert_ascending_Forall; assumption.
Qed.

Lemma sort_ascending_sorted (l : list Q) :
  NoDupA Qeq l →
  StronglySorted Qlt (sort_ascending l) ∧
  ∀ x, InA Qeq x (sort_ascending l) ↔ InA Qeq x l.
Proof.
  induction 1 as [|h rest Hnew Hnd [IHs IHm]]; simpl.
  - split; [constructor|reflexivity].
  - split.
    + apply insert_ascending_sorted; [exact IHs|]. rewrite IHm. exact Hnew.
    + intros x. rewrite insert_ascending_InA, InA_cons, IHm. reflexivity.
Qed.

(** X2: the period times are computed on a well-formed tracking dataset;
    they strictly increase (sorted, without duplicates), and they are the
    times of the rows of the period. *)
Theorem getPeriodTimes_sorted_distinct (tracking : ColumnarData) (periodId : jsval)
    (pc tc : list jsval) :
  columns tracking !! "period_id" = Some pc →
  columns tracking !! "matched_time" = Some tc →
  numberColumn tracking "period_id" = true →
  numberColumn tracking "matched_time" = true →
  ∃ times,
    getPeriodTimes tracking periodId = Some times ∧
    StronglySorted Qlt times ∧
    ∀ x, InA Qeq x times ↔
         ∃ i t, 0 <= i < numRows tracking ∧
                strict_eq (at_index pc i) periodId = true ∧
                as_number (at_index tc i) = Some t ∧ (t == x)%Q.
Proof.
  intros Hpc Htc Hp Ht.
  destruct (getPeriodTimes_total tracking periodId Hp Ht) as [times Htimes].
  exists times. split; [exact Htimes|].
  unfold getPeriodTimes in Htimes. rewrite Hpc, Htc in Htimes.
  destruct (collectTimes (Some pc) (Some tc) periodId (seqZ 0 (numRows tracking)) [])
    as [collected|] eqn:Hcollect; [|discriminate].
  simpl in Htimes. injection Htimes as <-.
  destruct (collectTimes_members pc tc periodId _ _ _ Hcollect) as [Hnd Hmem].
  destruct (sort_ascending_sorted collected (Hnd (NoDupA_nil _))) as [Hsorted Hsame].
  split; [exact Hsorted|].
  intros x. rewrite Hsame, Hmem, InA_nil. unfold sampledAt. split.
  - intros [[]|(i & t & Hi & Hrest)]. exists i, t. apply elem_of_seqZ in Hi.
    split; [lia|exact Hrest].
  - intros (i & t & Hi & Hrest). right. exists i, t.
    split; [apply elem_of_seqZ; lia|exact Hrest].
Qed.

(** Four rows sampled at 300, 100, 200 and 100 ms give the three times in
    increasing order. *)
Lemma getPeriodTimes_sorted_distinct_example :
  ∃ times, getPeriodTimes shortTracking (JInt 1) = Some times ∧
           times = [100; 200; 300]%Q ∧ StronglySorted Qlt times.
Proof.
  destruct (getPeriodTimes_sorted_distinct shortTracking (JInt 1) _ _
              eq_refl eq_refl eq_refl eq_refl) as (times & Htimes & Hsorted & _).
  exists times. split; [exact Htimes|]. split; [|exact Hsorted].
  assert (Hval : getPeriodTimes shortTracking (JInt 1) = Some [100; 200; 300]%Q)
    by reflexivity.
  rewrite Htimes in Hval. injection Hval as ->. reflexivity.
Defined.

(** ** The restored offset where the lookups find a sample *)

(** [findIndex] returns the first index whose element satisfies the
    predicate, and -1 when no element does. *)
Lemma findIndexFrom_first (p : Q → bool) (l : list Q) (i : Z) :
  (Forall (λ t, p t = false) l ∧ findIndexFrom p l i = -1) ∨
  (∃ (k : nat) t, l !! k = Some t ∧ p t = true ∧
     (∀ (j : nat) t', (j < k)%nat → l !! j = Some t' → p t' = false) ∧
     findIndexFrom p l i = i + Z.of_nat k).
Proof.
  revert i. induction l as [|h rest IH]; intros i; simpl.
  - left. split; [constructor|reflexivity].
  - destruct (p h) eqn:Hh.
    + right. exists 0%nat, h. repeat split; auto; [lia|lia].
    + destruct (IH (i + 1)) as [[Hall Hnone]|(k & t & Hk & Hp & Hbefore & Hidx)].
      * left. split; [constructor; assumption|exact Hnone].
      * right. exists (S k), t. repeat split; auto; [|lia].
        intros [|j] t' Hj Hlook; simpl in Hlook.
        -- injection Hlook as <-. exact Hh.
        -- eapply Hbefore; [|exact Hlook]. lia.
Qed.

(** The lookup of the specification: the smallest index at or after the
    target when a sample lies there, the last index otherwise. *)
Lemma nearestIndexAtOrAfter_smallest (times : list Q) (target : Q) :
  (Exists (λ t, (target <= t)%Q) times →
   findIndex (λ t, Qle_bool target t) times = nearestIndexAtOrAfter times target ∧
   ∃ (k : nat) t, nearestIndexAtOrAfter times target = Z.of_nat k ∧
     times !! k = Some t ∧ (target <= t)%Q ∧
     ∀ (j : nat) t', (j < k)%nat → times !! j = Some t' → (t' < target)%Q) ∧
  (Forall (λ t, (t < target)%Q) times →
   findIndex (λ t, Qle_bool target t) times = -1 ∧
   nearestIndexAtOrAfter times target = Z.of_nat (length times) - 1).
Proof.
  unfold nearestIndexAtOrAfter, findIndex.
  destruct (findIndexFrom_first (λ t, Qle_bool target t) times 0)
    as [[Hall Hnone]|(k & t & Hk & Hp & Hbefore & Hidx)].
  - split.
    + intros Hex. exfalso. apply Exists_exists in Hex as (t & Hin & Hle).
      rewrite Forall_forall in Hall. specialize (Hall t Hin). simpl in Hall.
      apply Qle_bool_iff in Hle. congruence.
    + intros _. rewrite Hnone. split; reflexivity.
  - split.
    + intros _. rewrite Hidx.
      destruct (0 + Z.of_nat k <? 0) eqn:Hneg; [apply Z.ltb_lt in Hneg; lia|].
      split; [reflexivity|].
      exists k, t. split; [lia|]. split; [exact Hk|].
      split; [apply Qle_bool_iff; exact Hp|].
      intros j t' Hj Hlook. apply Qle_bool_false. eapply Hbefore; eassumption.
    + intros Hall. exfalso. rewrite Forall_forall in Hall.
      apply list_elem_of_lookup_2 in Hk. specialize (Hall t Hk). simpl in Hall.
      apply Qle_bool_iff in Hp. lra.
Qed.

Lemma updateOffsetForEvent_found i events tracking results fallback pc tc
    times confirmed nominal :
  columns events !! "period_id" = Some pc →
  columns events !! "matched_time" = Some tc →
  i < numRows events →
  results !! derivedId events i = Some confirmed →
  getPeriodTimes tracking (at_index pc i) = Some times →
  at_index tc i = JNum (Fin nominal) →
  Exists (λ t, (nominal <= t)%Q) times →
  Exists (λ t, (confirmed <= t)%Q) times →
  updateOffsetForEvent i events tracking results fallback
  = Some (specOffset times nominal confirmed).
Proof.
  intros Hpc Htc Hlt Hres Htimes Hnom Hbase Hsync.
  rewrite <- eventId_derived in Hres. unfold eventId in Hres.
  unfold updateOffsetForEvent.
  destruct (numRows events <=? i) eqn:Hle; [apply Z.leb_le in Hle; lia|].
  rewrite Hpc, Htc. simpl.
  rewrite (proj2 (has_key_true _ results)) by (left; rewrite Hres; eauto).
  rewrite Hres, Htimes. simpl.
  destruct times as [|t0 rest]; [inversion Hbase|].
  rewrite bool_decide_eq_false_2 by discriminate.
  rewrite Hnom. simpl.
  destruct (nearestIndexAtOrAfter_smallest (t0 :: rest) nominal) as [Hb _].
  destruct (nearestIndexAtOrAfter_smallest (t0 :: rest) confirmed) as [Hs _].
  destruct (Hb Hbase) as (Hbi & kb & tb & Hkb & _).
  destruct (Hs Hsync) as (Hsi & _).
  rewrite Hbi, Hsi, Hkb. unfold specOffset. rewrite Hkb.
  destruct (0 <=? Z.of_nat kb) eqn:Hk; [reflexivity|]. apply Z.leb_gt in Hk. lia.
Qed.

(** X1: past the last event the fallback is returned.  Inside the dataset
    the [period_id] and [matched_time] columns of the events are indexed
    first, and the call throws when one of them is absent.  With both
    present, the fallback is returned on an event that does not count as
    synced (its id is neither a key of the results nor a name they inherit)
    and on an event of a period that no tracking row has; and on an event
    whose id is a key, with a nominal time that is a finite number and period
    times that are finite numbers, one of them at or after the nominal time
    and one at or after the confirmed time, the result is the difference of
    the two smallest such indices, the offset of the specification. *)
Theorem updateOffsetForEvent_restores (i : Z) (events tracking : ColumnarData)
    (results : SyncedResults) (fallback : Z) :
  (numRows events <= i →
   updateOffsetForEvent i events tracking results fallback = Some fallback) ∧
  (i < numRows events → ¬ indexedColumns events →
   updateOffsetForEvent i events tracking results fallback = None ∧
   updateOffsetForEvent_throws i events tracking results = true) ∧
  (∀ pc tc,
     i < numRows events →
     columns events !! "period_id" = Some pc →
     columns events !! "matched_time" = Some tc →
     (¬ countsAsSynced events results i →
      updateOffsetForEvent i events tracking results fallback = Some fallback) ∧
     (getPeriodTimes tracking (at_index pc i) = Some [] →
      updateOffsetForEvent i events tracking results fallback = Some fallback) ∧
     (∀ times confirmed nominal,
        results !! derivedId events i = Some confirmed →
        getPeriodTimes tracking (at_index pc i) = Some times →
        at_index tc i = JNum (Fin nominal) →
        Exists (λ t, (nominal <= t)%Q) times →
        Exists (λ t, (confirmed <= t)%Q) times →
        updateOffsetForEvent i events tracking results fallback
        = Some (specOffset times nominal confirmed))).
Proof.
  split; [|split].
  - apply updateOffsetForEvent_past_end.
  - intros Hlt Hmissing. apply updateOffsetForEvent_missing; [exact Hlt|].
    destruct (columns events !! "period_id") as [pc|] eqn:Hpc; [|left; reflexivity].
    destruct (columns events !! "matched_time") as [tc|] eqn:Htc; [|right; reflexivity].
    exfalso. apply Hmissing. split; [rewrite Hpc|rewrite Htc]; eauto.
  - intros pc tc Hlt Hpc Htc. split; [|split].
    + intros Hun. apply updateOffsetForEvent_unsynced;
        [rewrite Hpc; eauto|rewrite Htc; eauto|].
      apply not_true_is_false. intros Hs. apply Hun, isSynced_counts, Hs.
    + intros Hempty. unfold updateOffsetForEvent.
      destruct (numRows events <=? i) eqn:Hle; [reflexivity|].
      rewrite Hpc, Htc. simpl. destruct (has_key _ results); [|reflexivity].
      rewrite Hempty. reflexivity.
    + intros times confirmed nominal Hres Htimes Hnom Hbase Hsync.
      eapply updateOffsetForEvent_found; eauto.
Qed.

(** The specification's example after E1 was confirmed at 1100 ms: back on
    E1, whose nominal frame is the one at 1000 ms, the restored offset is 2. *)
Lemma updateOffsetForEvent_restores_example :
  updateOffsetForEvent 0 exampleEvents exampleTracking (<["E1" := 1100%Q]> ∅) 0 = Some 2.
Proof.
  destruct (updateOffsetForEvent_restores 0 exampleEvents exampleTracking
              (<["E1" := 1100%Q]> ∅) 0) as (_ & _ & Hin).
  destruct (Hin _ _ eq_refl eq_refl eq_refl) as (_ & _ & Hfound).
  assert (Htimes : ∃ times, getPeriodTimes exampleTracking (JInt 1) = Some times
                            ∧ specOffset times 1000 1100 = 2
                            ∧ Exists (λ t, (1000 <= t)%Q) times
                            ∧ Exists (λ t, (1100 <= t)%Q) times).
  { eexists. split; [reflexivity|]. split; [reflexivity|].
    split; apply Exists_exists; exists 1100%Q;
      (split; [apply (list_elem_of_lookup_2 _ 4); reflexivity|discriminate]). }
  destruct Htimes as (times & Htimes & Hspec & Hb & Hs).
  rewrite (Hfound times 1100%Q 1000%Q eq_refl Htimes eq_refl Hb Hs).
  f_equal. exact Hspec.
Defined.

(** ** The restored offset and the clamp at the end of the samples *)

(** C1 at an event whose nominal time (400) lies after the last sample (300)
    and which was confirmed at 200: the code computes the base index 0 and
    returns 1, where the lookup of the specification gives the last index, 2,
    and the offset -1.  With the offset 1 the sync page shows the sample at
    300, not the confirmed one; with -1 it shows the confirmed one. *)
Lemma updateOffsetForEvent_late_event :
  let results : SyncedResults := <["E1" := 200%Q]> ∅ in
  let times := [100; 200; 300]%Q in
  getPeriodTimes shortTracking (JInt 1) = Some times ∧
  updateOffsetForEvent 0 lateEvents shortTracking results 7 = Some 1 ∧
  specOffset times 400 200 = -1 ∧
  currentTimeOf times 400 1 = Some 300%Q ∧
  currentTimeOf times 400 (-1) = Some 200%Q.
Proof. repeat split. Qed.

(** The other lookup: a confirmed time (400) after the last sample.  The code
    returns -1 - 0, where the lookup of the specification gives 2 - 0. *)
Lemma updateOffsetForEvent_late_confirmation :
  let results : SyncedResults := <["E1" := 400%Q]> ∅ in
  updateOffsetForEvent 0 earlyEvents shortTracking results 7 = Some (-1) ∧
  specOffset [100; 200; 300]%Q 100 400 = 2.
Proof. repeat split. Qed.

(** ** Confirming an event *)

(** The state a confirmation ends in when its write resolves. *)
Lemma syncCurrentEvent_state (t : Q) (st : AppState) (events tracking : ColumnarData) :
  eventsData st = Some events →
  trackingData st = Some tracking →
  currentEventIndex st < numRows events →
  ∃ st',
    (syncCurrentEvent t true st = Returned st' ∨ syncCurrentEvent t true st = Threw st') ∧
    eventsData st' = Some events ∧ trackingData st' = Some tracking ∧
    syncedResults st' !! derivedId events (currentEventIndex st) = Some t ∧
    syncedResults st' = <[derivedId events (currentEventIndex st) := t]> (syncedResults st) ∧
    currentEventIndex st'
    = findFirstUnsynced (currentEventIndex st + 1) events (syncedResults st') ∧
    frameOffset st' = frameOffset st ∧ lastSyncOffset st' = frameOffset st.
Proof.
  intros Hev Htr Hlt. unfold syncCurrentEvent. rewrite Hev, Htr.
  destruct (numRows events <=? currentEventIndex st) eqn:Hle;
    [apply Z.leb_le in Hle; lia|].
  fold (eventId events (currentEventIndex st)). rewrite eventId_derived. cbv zeta.
  match goal with
  | |- ∃ st', (recompute ?i _ _ ?r ?f ?finish ?thrown = _ ∨ _) ∧ _ =>
      destruct (recompute_after_scan (currentEventIndex st + 1) events tracking r f
                  finish thrown) as [[_ Hret]|(_ & _ & Hthrew)]
  end.
  - eexists. split; [left; exact Hret|]. simpl.
    repeat split; try reflexivity. apply lookup_insert_eq.
  - eexists. split; [right; exact Hthrew|]. simpl.
    repeat split; try reflexivity. apply lookup_insert_eq.
Qed.

(** C2: with both datasets loaded, the cursor inside the dataset and the
    write of the new results resolving, confirming at tracking time [t]
    records [t] under the current event's id, whatever was recorded there
    before, and leaves every other entry alone; the offset in force becomes
    [lastSyncOffset]; the cursor moves to the first unsynced event after the
    current one; and the frame offset stays the offset in force.  Where the
    events have the two columns [updateOffsetForEvent] indexes, or no
    unsynced event is left, that is the offset [updateOffsetForEvent]
    returns there with the offset in force as fallback, and the call
    returns.  Past the last event nothing changes. *)
Theorem syncCurrentEvent_confirm (t : Q) (st : AppState) (events tracking : ColumnarData) :
  eventsData st = Some events →
  trackingData st = Some tracking →
  (currentEventIndex st < numRows events →
   let id := derivedId events (currentEventIndex st) in
   let newResults := <[id := t]> (syncedResults st) in
   let newIndex := findFirstUnsynced (currentEventIndex st + 1) events newResults in
   let confirmed :=
     mkAppState (Some events) (Some tracking) newResults newIndex
       (frameOffset st) (frameOffset st) in
   newResults !! id = Some t ∧
   (∀ k, k ≠ id → newResults !! k = syncedResults st !! k) ∧
   (syncCurrentEvent t true st = Returned confirmed ∨
    syncCurrentEvent t true st = Threw confirmed) ∧
   (indexedColumns events ∨ numRows events <= newIndex →
    updateOffsetForEvent newIndex events tracking newResults (frameOffset st)
      = Some (frameOffset st) ∧
    syncCurrentEvent t true st = Returned confirmed)) ∧
  (numRows events <= currentEventIndex st →
   ∀ written, syncCurrentEvent t written st = Returned st).
Proof.
  intros Hev Htr. split.
  - intros Hlt id newResults newIndex confirmed.
    split; [apply lookup_insert_eq|].
    split; [intros k Hk; apply lookup_insert_ne; congruence|].
    unfold syncCurrentEvent. rewrite Hev, Htr.
    destruct (numRows events <=? currentEventIndex st) eqn:Hle;
      [apply Z.leb_le in Hle; lia|].
    fold (eventId events (currentEventIndex st)).
    rewrite eventId_derived. fold id. fold newResults. cbv zeta. fold newIndex.
    rewrite <- Hev, <- Htr.
    destruct (recompute_after_scan (currentEventIndex st + 1) events tracking newResults
                (frameOffset st)
                (λ offset, mkAppState (eventsData st) (trackingData st) newResults
                             newIndex offset (frameOffset st))
                (mkAppState (eventsData st) (trackingData st) newResults
                   newIndex (frameOffset st) (frameOffset st)))
      as [[Hoff Hret]|(Hin & Hcols & Hthrew)];
      fold newIndex in Hoff || fold newIndex in Hin.
    + assert (Hreturned : recompute newIndex events tracking newResults (frameOffset st)
                (λ offset, mkAppState (eventsData st) (trackingData st) newResults
                             newIndex offset (frameOffset st))
                (mkAppState (eventsData st) (trackingData st) newResults
                   newIndex (frameOffset st) (frameOffset st)) = Returned confirmed)
        by (unfold confirmed; rewrite <- Hev, <- Htr; exact Hret).
      split; [left; exact Hreturned|]. intros _. split; [exact Hoff|exact Hreturned].
    + split.
      * right. unfold confirmed. rewrite <- Hev, <- Htr. exact Hthrew.
      * intros [Hcolumns|Hpast]; [contradiction|lia].
  - intros Hge written. unfold syncCurrentEvent. rewrite Hev, Htr.
    destruct (numRows events <=? currentEventIndex st) eqn:Hle; [reflexivity|].
    apply Z.leb_gt in Hle. lia.
Qed.

(** The specification's example: E1 confirmed at 1100 ms with offset 2.  E1 is
    recorded, [lastSyncOffset] is 2, and the cursor stands on E2 with offset 2. *)
Lemma syncCurrentEvent_confirm_example :
  syncCurrentEvent 1100 true exampleState
  = Returned (mkAppState (Some exampleEvents) (Some exampleTracking)
                (<["E1" := 1100%Q]> ∅) 1 2 2).
Proof.
  destruct (syncCurrentEvent_confirm 1100 exampleState exampleEvents exampleTracking
              eq_refl eq_refl) as [Hconfirm _].
  destruct (Hconfirm eq_refl) as (_ & _ & _ & Hreturned).
  apply Hreturned. left. split; eexists; reflexivity.
Defined.

(** C2, as stated, fails when the write of the new results is rejected: the
    call ends after the results were replaced in memory, with
    [lastSyncOffset] still 0, not the offset 2 in force, and the cursor still
    on E1, not on the first unsynced event after it.  It also fails on a
    state without a tracking dataset, where the guard returns at once. *)
Lemma syncCurrentEvent_write_rejected :
  (currentEventIndex exampleState < numRows exampleEvents ∧
   frameOffset exampleState = 2 ∧
   ∃ st', syncCurrentEvent 1100 false exampleState = Threw st' ∧
     syncedResults st' = <["E1" := 1100%Q]> ∅ ∧
     lastSyncOffset st' = 0 ∧
     currentEventIndex st' = 0 ∧
     findFirstUnsynced 1 exampleEvents (syncedResults st') = 1) ∧
  (let st := mkAppState (Some exampleEvents) None ∅ 0 2 0 in
   currentEventIndex st < numRows exampleEvents ∧
   syncCurrentEvent 1100 true st = Returned st ∧
   syncedResults st !! "E1" = None).
Proof.
  split.
  - split; [reflexivity|]. split; [reflexivity|].
    eexists. split; [reflexivity|]. repeat split.
  - repeat split.
Qed.

(** ** Importing results *)

(** The state an import ends in when its write resolves. *)
Lemma uploadResults_state (results : SyncedResults) (st : AppState)
    (events tracking : ColumnarData) :
  eventsData st = Some events →
  trackingData st = Some tracking →
  (∃ st',
     (uploadResults results true st = Returned st' ∨
      uploadResults results true st = Threw st') ∧
     syncedResults st' = results ∧
     currentEventIndex st' = findFirstUnsynced 0 events results ∧
     eventsData st' = Some events ∧ trackingData st' = Some tracking) ∧
  (indexedColumns events ∨ numRows events <= findFirstUnsynced 0 events results →
   updateOffsetForEvent (findFirstUnsynced 0 events results) events tracking results 0
   = Some 0 ∧
   uploadResults results true st
   = Returned (mkAppState (Some events) (Some tracking) results
                 (findFirstUnsynced 0 events results) 0 0)).
Proof.
  intros Hev Htr.
  unfold uploadResults. rewrite Hev, Htr.
  destruct (recompute_after_scan 0 events tracking results 0
              (λ offset, mkAppState (Some events) (Some tracking) results
                           (findFirstUnsynced 0 events results) offset 0)
              (mkAppState (Some events) (Some tracking) results
                 (findFirstUnsynced 0 events results) (frameOffset st) (lastSyncOffset st)))
    as [[Hoff Hret]|(Hin & Hcols & Hthrew)].
  - split.
    + eexists. split; [left; exact Hret|]. repeat split.
    + intros _. split; [exact Hoff|exact Hret].
  - split.
    + eexists. split; [right; exact Hthrew|]. repeat split.
    + intros [Hcolumns|Hpast]; [contradiction|lia].
Qed.

(** C3: with both datasets loaded and the write of the imported map
    resolving, an import replaces the confirmed results by the imported map,
    whatever they were, and moves the cursor to the first event the imported
    map leaves unsynced; and where the events carry the two columns
    [updateOffsetForEvent] indexes, or no event is left unsynced, the offset
    recomputed there with fallback 0 is 0, and [lastSyncOffset] is 0. *)
Theorem uploadResults_replaces (results : SyncedResults) (st : AppState)
    (events tracking : ColumnarData) :
  eventsData st = Some events →
  trackingData st = Some tracking →
  let firstUnsynced := findFirstUnsynced 0 events results in
  (∃ st',
     (uploadResults results true st = Returned st' ∨
      uploadResults results true st = Threw st') ∧
     syncedResults st' = results ∧
     currentEventIndex st' = firstUnsynced ∧
     eventsData st' = Some events ∧ trackingData st' = Some tracking) ∧
  (indexedColumns events ∨ numRows events <= firstUnsynced →
   updateOffsetForEvent firstUnsynced events tracking results 0 = Some 0 ∧
   uploadResults results true st
   = Returned (mkAppState (Some events) (Some tracking) results firstUnsynced 0 0)).
Proof.
  intros Hev Htr. cbv zeta. apply uploadResults_state; assumption.
Qed.

(** The specification's example: importing [{"E2": 2100}] over
    [{"E1": 1100, "E2": 1900}] leaves exactly [{"E2": 2100}], with the cursor
    on E1 and both offsets 0. *)
Lemma uploadResults_replaces_example :
  let imported : SyncedResults := <["E2" := 2100%Q]> ∅ in
  syncedResults confirmedState = <["E1" := 1100%Q]> (<["E2" := 1900%Q]> ∅) ∧
  imported !! "E1" = None ∧
  uploadResults imported true confirmedState
  = Returned (mkAppState (Some exampleEvents) (Some exampleTracking) imported 0 0 0).
Proof.
  intros imported. split; [reflexivity|]. split; [reflexivity|].
  destruct (uploadResults_replaces imported confirmedState exampleEvents exampleTracking
              eq_refl eq_refl) as [_ Hreset].
  apply Hreset. left. split; eexists; reflexivity.
Defined.

(** C3, as stated, fails in three ways.  When the write of the imported map
    is rejected the call ends after the results were replaced in memory:
    both offsets keep the value 3.  On events without a [period_id] column
    the results and the cursor are replaced and [updateOffsetForEvent]
    throws: the offsets keep the values 2 and 5.  And without datasets the
    guard returns at once and the results stay empty. *)
Lemma uploadResults_not_reset :
  let imported : SyncedResults := <["E2" := 2100%Q]> ∅ in
  (∃ st', uploadResults imported false confirmedState = Threw st' ∧
     syncedResults st' = imported ∧ frameOffset st' = 3 ∧ lastSyncOffset st' = 3) ∧
  (∃ st', uploadResults imported true periodlessState = Threw st' ∧
     syncedResults st' = imported ∧ currentEventIndex st' = 0 ∧
     frameOffset st' = 2 ∧ lastSyncOffset st' = 5) ∧
  (uploadResults imported true initialState = Returned initialState ∧
   syncedResults initialState ≠ imported).
Proof.
  intros imported. split; [|split].
  - eexists. split; [reflexivity|]. repeat split.
  - eexists. split; [reflexivity|]. repeat split.
  - split; [reflexivity|]. intros Heq.
    assert (Hnone : syncedResults initialState !! "E2" = None) by reflexivity.
    rewrite Heq in Hnone. discriminate Hnone.
Qed.

(** ** Navigation *)


(** The target of a jump is clamped into the dataset, and a clamped target
    that is an integer is the index the jump sets. *)
Lemma clampedTarget_range rows (index : Q) :
  1 <= rows → (0 <= clampedTarget rows index <= inject_Z (rows - 1))%Q.
Proof.
  intros Hrows.
  assert (Hlast : (0 <= inject_Z (rows - 1))%Q)
    by (change 0%Q with (inject_Z 0); rewrite <- Zle_Qle; lia).
  unfold clampedTarget, Math_max, Math_min.
  destruct (Qle_bool (inject_Z (rows - 1)) index) eqn:Hmin.
  - destruct (Qle_bool 0 (inject_Z (rows - 1))) eqn:Hmax.
    + split; [exact Hlast|apply Qle_refl].
    + split; [apply Qle_refl|exact Hlast].
  - apply Qle_bool_false in Hmin.
    destruct (Qle_bool 0 index) eqn:Hmax.
    + apply Qle_bool_iff in Hmax. split; [exact Hmax|apply Qlt_le_weak, Hmin].
    + split; [apply Qle_refl|exact Hlast].
Qed.

Lemma clampedIndex_integer rows (index : Q) (newIndex : Z) :
  (clampedTarget rows index == inject_Z newIndex)%Q →
  clampedIndex rows index = Some newIndex.
Proof.
  intros Heq. unfold clampedIndex. cbv zeta.
  assert (Hfloor : Qfloor (clampedTarget rows index) = newIndex)
    by (rewrite (Qfloor_comp _ _ Heq); apply Qfloor_Z).
  rewrite Hfloor.
  rewrite (proj2 (Qeq_bool_iff _ _) Heq). reflexivity.
Qed.



Lemma clampedTarget_inside rows (index : Z) :
  0 <= index <= rows - 1 → (clampedTarget rows (inject_Z index) == inject_Z index)%Q.
Proof.
  intros Hindex. unfold clampedTarget, Math_max, Math_min.
  assert (Hmax : Qle_bool 0 (inject_Z index) = true)
    by (apply Qle_bool_iff; change 0%Q with (inject_Z 0); rewrite <- Zle_Qle; lia).
  destruct (Qle_bool (inject_Z (rows - 1)) (inject_Z index)) eqn:Hmin.
  - apply Qle_bool_iff in Hmin. rewrite <- Zle_Qle in Hmin.
    assert (Hlast : rows - 1 = index) by lia. rewrite Hlast, Hmax. reflexivity.
  - rewrite Hmax. reflexivity.
Qed.

Lemma clampedIndex_inside rows (index : Z) :
  0 <= index <= rows - 1 → clampedIndex rows (inject_Z index) = Some index.
Proof.
  intros Hindex. apply clampedIndex_integer, clampedTarget_inside, Hindex.
Qed.




(** ** The interpolation *)

Lemma break_at_Fin (breaks : list Q) i :
  0 <= i < Z.of_nat (length breaks) → break_at breaks i = Fin (qat breaks i).
Proof.
  intros Hi. unfold break_at, qat.
  destruct (i <? 0) eqn:Hneg; [apply Z.ltb_lt in Hneg; lia|].
  destruct (lookup_lt_is_Some_2 breaks (Z.to_nat i)) as [q Hq]; [lia|].
  rewrite Hq. reflexivity.
Qed.

(** The loop only moves forward, never past the last index, and every
    breakpoint it passes lies strictly below the value. *)
Lemma findInterval_range fuel v src i :
  0 <= i →
  let r := findInterval fuel (Fin v) src i in
  i <= r ∧ r <= Z.max i (Z.of_nat (length src) - 1) ∧
  ∀ k, i < k <= r → (qat src k < v)%Q.
Proof.
  revert i. induction fuel as [|fuel IH]; intros i Hi; simpl.
  - repeat split; try lia.
  - destruct (i <? Z.of_nat (length src) - 1) eqn:Hlt; simpl.
    + apply Z.ltb_lt in Hlt.
      rewrite break_at_Fin by lia. simpl.
      destruct (Qle_bool v (qat src (i + 1))) eqn:Hle; simpl.
      * repeat split; try lia.
      * destruct (IH (i + 1)) as (H1 & H2 & H3); [lia|].
        repeat split; try lia.
        intros k Hk. destruct (decide (k = i + 1)) as [->|Hne].
        -- apply Qle_bool_false. exact Hle.
        -- apply H3. lia.
    + repeat split; try lia.
Qed.

(** With the fuel [interp] gives it, the loop stops before the last index
    only at a breakpoint that is not below the value. *)
Lemma findInterval_stop fuel v src i :
  0 <= i → Z.of_nat (length src) - 1 - i <= Z.of_nat fuel →
  findInterval fuel (Fin v) src i < Z.of_nat (length src) - 1 →
  (v <= qat src (findInterval fuel (Fin v) src i + 1))%Q.
Proof.
  revert i. induction fuel as [|fuel IH]; intros i Hi Hfuel Hr; simpl in *; [lia|].
  destruct (i <? Z.of_nat (length src) - 1) eqn:Hlt; simpl in *.
  - apply Z.ltb_lt in Hlt.
    rewrite break_at_Fin in * by lia. simpl in *.
    destruct (Qle_bool v (qat src (i + 1))) eqn:Hle; simpl in *.
    + apply Qle_bool_iff. exact Hle.
    + apply IH; [lia|lia|exact Hr].
  - apply Z.ltb_ge in Hlt. lia.
Qed.

Lemma segmentOf_range v src :
  (2 <= length src)%nat → 0 <= segmentOf v src <= Z.of_nat (length src) - 2.
Proof.
  intros Hlen. unfold segmentOf.
  destruct (findInterval_range (length src) v src 0) as (H1 & H2 & _); [lia|].
  destruct (_ <=? _) eqn:Hle; [lia|]. apply Z.leb_gt in Hle. lia.
Qed.

(** On a finite value [interp] is the line of the segment it selects. *)
Lemma interp_Fin v src tgt :
  (2 <= length src)%nat → (length src <= length tgt)%nat →
  interp (Fin v) src tgt = Fin (lineAt src tgt (segmentOf v src) v).
Proof.
  intros Hlen Htgt. pose proof (segmentOf_range v src Hlen) as Hseg.
  unfold interp. fold (segmentOf v src).
  rewrite !break_at_Fin by lia. reflexivity.
Qed.

Lemma increasing_adjacent (breaks : list Q) (n : nat) :
  increasing breaks = true → (S n < length breaks)%nat →
  (default 0 (breaks !! n) < default 0 (breaks !! S n))%Q.
Proof.
  revert n. induction breaks as [|a rest IH]; intros n Hinc Hn; simpl in Hn; [lia|].
  destruct rest as [|b rest']; simpl in Hn; [lia|].
  simpl in Hinc. apply andb_true_iff in Hinc as [Hab Hrest].
  destruct n as [|n]; simpl.
  - apply Qle_bool_false. apply negb_true_iff. exact Hab.
  - apply (IH n Hrest). simpl. lia.
Qed.

Lemma increasing_lt (breaks : list Q) i j :
  increasing breaks = true → 0 <= i → i < j → j < Z.of_nat (length breaks) →
  (qat breaks i < qat breaks j)%Q.
Proof.
  intros Hinc Hi Hij Hj. unfold qat.
  replace (Z.to_nat j) with (Z.to_nat i + S (Z.to_nat (j - i - 1)))%nat by lia.
  assert (Hlen : (Z.to_nat i + S (Z.to_nat (j - i - 1)) < length breaks)%nat) by lia.
  revert Hlen. generalize (Z.to_nat (j - i - 1)) as k. generalize (Z.to_nat i) as n.
  clear Hi Hij Hj. intros n k. induction k as [|k IH]; intros Hlen.
  - replace (n + 1)%nat with (S n) by lia. apply increasing_adjacent; [exact Hinc|lia].
  - eapply Qlt_trans; [apply IH; lia|].
    replace (n + S (S k))%nat with (S (n + S k)) by lia.
    apply increasing_adjacent; [exact Hinc|lia].
Qed.

Lemma increasing_le (breaks : list Q) i j :
  increasing breaks = true → 0 <= i → i <= j → j < Z.of_nat (length breaks) →
  (qat breaks i <= qat breaks j)%Q.
Proof.
  intros Hinc Hi Hij Hj. destruct (decide (i = j)) as [->|Hne]; [apply Qle_refl|].
  apply Qlt_le_weak. apply increasing_lt; auto. lia.
Qed.

Lemma div_sign (n d : Q) :
  (0 < d → (0 <= n → 0 <= n / d) ∧ (n <= d → n / d <= 1) ∧
           (n < 0 → n / d < 0) ∧ (d < n → 1 < n / d))%Q.
Proof.
  intros Hd. split; [|split; [|split]]; intros H.
  - apply Qle_shift_div_l; [exact Hd|]. lra.
  - apply Qle_shift_div_r; [exact Hd|]. lra.
  - apply Qlt_shift_div_r; [exact Hd|]. lra.
  - apply Qlt_shift_div_l; [exact Hd|]. lra.
Qed.

(** A line through two points with increasing coordinates stays between the
    target values over the source interval and leaves them outside it. *)
Lemma line_between (a b ta tb v : Q) :
  (a < b → ta < tb →
   (a <= v <= b → ta <= ta + (v - a) / (b - a) * (tb - ta) <= tb) ∧
   (v < a → ta + (v - a) / (b - a) * (tb - ta) < ta) ∧
   (b < v → tb < ta + (v - a) / (b - a) * (tb - ta)))%Q.
Proof.
  intros Hab Ht.
  assert (Hd : (0 < b - a)%Q) by lra.
  destruct (div_sign (v - a) (b - a) Hd) as (H0 & H1 & Hneg & Hbig).
  set (t := ((v - a) / (b - a))%Q) in *.
  split; [|split].
  - intros [Hl Hu]. assert (0 <= t)%Q by (apply H0; lra).
    assert (t <= 1)%Q by (apply H1; lra). split; nra.
  - intros Hv. assert (t < 0)%Q by (apply Hneg; lra). nra.
  - intros Hv. assert (1 < t)%Q by (apply Hbig; lra). nra.
Qed.

(** Where the value lies with respect to the selected segment. *)
Lemma segmentOf_position v src :
  (2 <= length src)%nat → increasing src = true →
  let i := segmentOf v src in
  let last := Z.of_nat (length src) - 1 in
  ((qat src 0 <= v <= qat src last)%Q → (qat src i <= v <= qat src (i + 1))%Q) ∧
  ((v < qat src 0)%Q → i = 0) ∧
  ((qat src last < v)%Q → i = last - 1).
Proof.
  intros Hlen Hinc. unfold segmentOf. cbv zeta.
  destruct (findInterval_range (length src) v src 0) as (H1 & H2 & Hpassed); [lia|].
  pose proof (findInterval_stop (length src) v src 0) as Hstop.
  set (r := findInterval (length src) (Fin v) src 0) in *.
  split; [|split].
  - intros [Hl Hu].
    destruct (Z.of_nat (length src) - 1 <=? r) eqn:Hle.
    + apply Z.leb_le in Hle.
      assert (qat src r < v)%Q by (apply Hpassed; lia).
      replace r with (Z.of_nat (length src) - 1) in * by lia. lra.
    + apply Z.leb_gt in Hle. split; [|apply Hstop; lia].
      destruct (decide (r = 0)) as [->|Hne]; [exact Hl|].
      apply Qlt_le_weak. apply Hpassed. lia.
  - intros Hv.
    destruct (decide (r = 0)) as [Hr|Hne].
    + rewrite Hr. destruct (_ <=? 0) eqn:Hle; [apply Z.leb_le in Hle; lia|reflexivity].
    + assert (qat src 1 < v)%Q by (apply Hpassed; lia).
      assert (qat src 0 < qat src 1)%Q by (apply increasing_lt; auto; lia). lra.
  - intros Hv.
    destruct (Z.of_nat (length src) - 1 <=? r) eqn:Hle; [lia|].
    apply Z.leb_gt in Hle.
    assert (v <= qat src (r + 1))%Q by (apply Hstop; lia).
    assert (qat src (r + 1) <= qat src (Z.of_nat (length src) - 1))%Q
      by (apply increasing_le; auto; lia).
    lra.
Qed.

(** C6, as the code has it: on tables of at least two strictly increasing
    breakpoints, [interp] evaluates the line of one segment, whose index lies
    among the segments of the table.  Inside the table's range the value lies
    between the two breakpoints of that segment and the result inside the
    target range.  Below the range the first segment is used, above it the
    last one, and the line is extended: the result leaves the target range. *)
Theorem interp_extends_end_segments (src tgt : list Q) (v : Q) :
  (2 <= length src)%nat → length tgt = length src →
  increasing src = true → increasing tgt = true →
  let i := segmentOf v src in
  let last := Z.of_nat (length src) - 1 in
  0 <= i <= last - 1 ∧
  interp (Fin v) src tgt = Fin (lineAt src tgt i v) ∧
  ((qat src 0 <= v <= qat src last)%Q →
     (qat src i <= v <= qat src (i + 1))%Q ∧
     (qat tgt 0 <= lineAt src tgt i v <= qat tgt last)%Q) ∧
  ((v < qat src 0)%Q → i = 0 ∧ (lineAt src tgt i v < qat tgt 0)%Q) ∧
  ((qat src last < v)%Q → i = last - 1 ∧ (qat tgt last < lineAt src tgt i v)%Q).
Proof.
  intros Hlen Htgt Hsrc Hinc i last.
  pose proof (segmentOf_range v src Hlen) as Hseg. fold i in Hseg.
  destruct (segmentOf_position v src Hlen Hsrc) as (Hin & Hlow & Hhigh).
  fold i in Hin, Hlow, Hhigh. fold last in Hin, Hhigh.
  assert (Hs : (qat src i < qat src (i + 1))%Q) by (apply increasing_lt; auto; lia).
  assert (Ht : (qat tgt i < qat tgt (i + 1))%Q) by (apply increasing_lt; auto; lia).
  destruct (line_between (qat src i) (qat src (i + 1)) (qat tgt i) (qat tgt (i + 1)) v Hs Ht)
    as (Lin & Llow & Lhigh).
  fold (lineAt src tgt i v) in Lin, Llow, Lhigh.
  split; [unfold last; lia|].
  split; [apply interp_Fin; lia|].
  split; [|split].
  - intros Hv. specialize (Hin Hv). split; [exact Hin|].
    specialize (Lin Hin).
    assert (qat tgt 0 <= qat tgt i)%Q by (apply increasing_le; auto; lia).
    assert (qat tgt (i + 1) <= qat tgt last)%Q by (apply increasing_le; auto; unfold last; lia).
    lra.
  - intros Hv. specialize (Hlow Hv). split; [exact Hlow|].
    assert (lineAt src tgt i v < qat tgt i)%Q by (apply Llow; rewrite Hlow; exact Hv).
    rewrite Hlow in *. exact H.
  - intros Hv. specialize (Hhigh Hv). split; [exact Hhigh|].
    assert (qat tgt (i + 1) < lineAt src tgt i v)%Q.
    { apply Lhigh. replace (i + 1) with last by lia. exact Hv. }
    replace (i + 1) with last in H by lia. exact H.
Qed.

(** The X table one unit below its range and the Y table one unit above it:
    the first and the last segment are used and the result lies below 0 and
    above 50. *)
Lemma interp_extends_end_segments_example :
  (segmentOf (-1) X_BREAKS_REAL = 0 ∧
   (lineAt X_BREAKS_REAL X_BREAKS_OPTA (segmentOf (-1) X_BREAKS_REAL) (-1)
    < qat X_BREAKS_OPTA 0)%Q) ∧
  (segmentOf 35 Y_BREAKS_REAL = 5 ∧
   (qat Y_BREAKS_OPTA 6
    < lineAt Y_BREAKS_REAL Y_BREAKS_OPTA (segmentOf 35 Y_BREAKS_REAL) 35)%Q).
Proof.
  split.
  - destruct (interp_extends_end_segments X_BREAKS_REAL X_BREAKS_OPTA (-1)%Q)
      as (_ & _ & _ & Hlow & _).
    + simpl. lia.
    + reflexivity.
    + reflexivity.
    + reflexivity.
    + apply Hlow. reflexivity.
  - destruct (interp_extends_end_segments Y_BREAKS_REAL Y_BREAKS_OPTA 35%Q)
      as (_ & _ & _ & _ & Hhigh).
    + simpl. lia.
    + reflexivity.
    + reflexivity.
    + reflexivity.
    + apply Hhigh. reflexivity.
Defined.

(** C6, as stated, fails outside the table's range: one unit below the X
    table the interpolation gives -58/55, below every target breakpoint, and
    above the table it gives more than 50; a point 1 m behind the goal line
    is converted to x = -1.05, its mirror image to x = 101.05. *)
Lemma interp_leaves_target_range :
  interp (Fin (-1)) X_BREAKS_REAL X_BREAKS_OPTA = Fin (-580 # 550) ∧
  interp (Fin 60) X_BREAKS_REAL X_BREAKS_OPTA = Fin (52500000 # 915000) ∧
  (50 < 52500000 # 915000)%Q ∧
  (realToOpta (Fin (-53.5)) (Fin 0)).1 = Fin (-105 # 100) ∧
  (realToOpta (Fin 53.5) (Fin 0)).1 = Fin (10105 # 100).
Proof. repeat split. Qed.

(** ** The conversion of the position columns *)

Section ArrayConversion.

Variable StringToNumber : string → num.

(** Writing the indices below [k] in increasing order fills the first [k]
    cells and keeps what the array held from [k] on. *)
Lemma array_set_fill (f : nat → jsval) (initial : list jsval) (k : nat) :
  foldl (λ acc i, array_set acc i (f i)) initial (seq 0 k)
  = map f (seq 0 k) ++ drop k initial.
Proof.
  induction k as [|k IH]; [simpl; rewrite drop_0; reflexivity|].
  rewrite seq_S, foldl_app, IH. simpl. rewrite map_app. simpl.
  unfold array_set. rewrite length_app, length_map, length_seq, length_drop.
  destruct (decide (k < k + (length initial - k))%nat) as [Hlt|Hge].
  - destruct (lookup_lt_is_Some_2 initial k) as [v Hv]; [lia|].
    rewrite (drop_S initial v k Hv).
    rewrite insert_app_r_alt by (rewrite length_map, length_seq; lia).
    rewrite length_map, length_seq. replace (k - k)%nat with 0%nat by lia.
    simpl. rewrite <- app_assoc. reflexivity.
  - rewrite drop_ge by lia. rewrite drop_ge by lia.
    replace (k - (k + (length initial - k)))%nat with 0%nat by lia.
    simpl. rewrite !app_nil_r. reflexivity.
Qed.

Lemma foldl_convertRow xs ys (rows : list nat) (accX accY : list jsval) :
  foldl (convertRow StringToNumber xs ys) (accX, accY) rows
  = (foldl (λ acc i, array_set acc i (JNum (convertedAt StringToNumber xs ys i).1)) accX rows,
     foldl (λ acc i, array_set acc i (JNum (convertedAt StringToNumber xs ys i).2)) accY rows).
Proof.
  revert accX accY. induction rows as [|i rows IH]; intros accX accY; [reflexivity|].
  simpl. unfold convertRow at 2. simpl. apply IH.
Qed.

(** The arrays [realToOptaArrays] returns: one converted cell per cell of
    [xArray]; the cells of [yArray] past the length of [xArray] are left
    empty. *)
Lemma realToOptaArrays_cells xs ys :
  realToOptaArrays StringToNumber xs ys
  = (map (λ i, JNum (convertedAt StringToNumber xs ys i).1) (seq 0 (length xs)),
     map (λ i, JNum (convertedAt StringToNumber xs ys i).2) (seq 0 (length xs))
     ++ replicate (length ys - length xs) JUndefined).
Proof.
  unfold realToOptaArrays. rewrite foldl_convertRow, !array_set_fill.
  rewrite drop_replicate, Nat.sub_diag. simpl. rewrite app_nil_r.
  rewrite drop_replicate. reflexivity.
Qed.

(** C10: without one of the position columns the dataset is returned as it
    is.  With both, the row count, the field names and every other column are
    those of the input; [pos_x] holds, for each of its cells, the x of
    [realToOpta] at that row, and [pos_y] the y, over as many rows as [pos_x]
    has (the two columns have the same length in a columnar dataset). *)
Theorem convertTrackingToOpta_frame (data : ColumnarData) :
  (columns data !! "pos_x" = None ∨ columns data !! "pos_y" = None →
   convertTrackingToOpta StringToNumber data = data) ∧
  (∀ xs ys,
     columns data !! "pos_x" = Some xs → columns data !! "pos_y" = Some ys →
     let out := convertTrackingToOpta StringToNumber data in
     numRows out = numRows data ∧
     fieldNames out = fieldNames data ∧
     (∀ name, name ≠ "pos_x" → name ≠ "pos_y" →
        columns out !! name = columns data !! name) ∧
     columns out !! "pos_x"
       = Some (map (λ i, JNum (convertedAt StringToNumber xs ys i).1) (seq 0 (length xs))) ∧
     columns out !! "pos_y"
       = Some (map (λ i, JNum (convertedAt StringToNumber xs ys i).2) (seq 0 (length xs))
               ++ replicate (length ys - length xs) JUndefined) ∧
     (length ys = length xs →
        columns out !! "pos_y"
          = Some (map (λ i, JNum (convertedAt StringToNumber xs ys i).2) (seq 0 (length ys))))).
Proof.
  split.
  - intros Hmiss. unfold convertTrackingToOpta.
    destruct (columns data !! "pos_x"), (columns data !! "pos_y"), Hmiss;
      try discriminate; reflexivity.
  - intros xs ys Hx Hy out. unfold out, convertTrackingToOpta.
    rewrite Hx, Hy, realToOptaArrays_cells. simpl.
    split; [reflexivity|]. split; [reflexivity|].
    split; [intros name Hnx Hny; rewrite !lookup_insert_ne by congruence; reflexivity|].
    split; [rewrite lookup_insert_ne by discriminate; apply lookup_insert_eq|].
    split; [apply lookup_insert_eq|].
    intros Hlen. rewrite lookup_insert_eq, Hlen, Nat.sub_diag. simpl.
    rewrite app_nil_r. reflexivity.
Qed.

End ArrayConversion.

(** Two rows: the positions are converted, the team column is kept. *)
Lemma convertTrackingToOpta_frame_example :
  let out := convertTrackingToOpta (λ _, NaN) positionsTracking in
  columns out !! "pos_x" = Some [JNum (Fin (5000 # 100)); JNum (Fin (5975 # 100))] ∧
  columns out !! "pos_y" = Some [JNum (Fin (5000 # 100)); JNum (Fin (4001 # 100))] ∧
  columns out !! "team_opta_id" = Some [JInt 3; JInt 4] ∧
  numRows out = 2.
Proof.
  destruct (convertTrackingToOpta_frame (λ _, NaN) positionsTracking) as [_ Hboth].
  destruct (Hboth _ _ eq_refl eq_refl) as (Hrows & _ & Hother & Hx & Hy & _).
  split; [exact Hx|]. split; [exact Hy|].
  split; [rewrite Hother by discriminate; reflexivity|exact Hrows].
Defined.

(** ** The event filter *)

Lemma hasCoordinate_present v : hasCoordinate v = true ↔ presentCoordinate v.
Proof.
  unfold presentCoordinate. split.
  - destruct v as [| |[|q]|s]; simpl; intros H; try discriminate;
      repeat split; discriminate.
  - intros (H1 & H2 & H3). destruct v as [| |[|q]|s]; simpl; try reflexivity; congruence.
Qed.

Lemma strict_eq_JInt v z : strict_eq v (JInt z) = true ↔ isNumber v z.
Proof.
  unfold isNumber. split.
  - destruct v as [| |[|q]|s]; simpl; intros H; try discriminate.
    exists q. split; [reflexivity|]. apply Qeq_bool_iff. exact H.
  - intros (q & -> & Hq). simpl. apply Qeq_bool_iff. exact Hq.
Qed.

Lemma syncable_has_member v :
  syncable_has v = true ↔
  ∃ z, z ∈ [1; 2; 5; 6; 8; 12; 13; 14; 15; 16; 44; 49] ∧ isNumber v z.
Proof.
  unfold isNumber. split.
  - destruct v as [| |[|q]|s]; cbn [syncable_has]; intros H; try discriminate.
    apply existsb_exists in H as (z & Hz & Hq).
    exists z. split; [|exists q; split; [reflexivity|apply Qeq_bool_iff; exact Hq]].
    unfold SYNCABLE_EVENT_TYPES in Hz. simpl in Hz.
    repeat (destruct Hz as [<-|Hz]; [apply list_elem_of_In; simpl; auto 20|]). destruct Hz.
  - intros (z & Hz & q & -> & Hq). cbn [syncable_has]. apply existsb_exists.
    exists z. split; [|apply Qeq_bool_iff; exact Hq].
    unfold SYNCABLE_EVENT_TYPES. apply list_elem_of_In in Hz. simpl in Hz.
    repeat (destruct Hz as [<-|Hz]; [simpl; auto 20|]). destruct Hz.
Qed.

Lemma isSyncableRow_syncable xCol yCol periodCol eventTypeCol i :
  isSyncableRow xCol yCol periodCol eventTypeCol i = true ↔
  syncableRow xCol yCol periodCol eventTypeCol i.
Proof.
  unfold isSyncableRow, syncableRow. cbv zeta.
  rewrite !andb_true_iff, orb_true_iff, !hasCoordinate_present, !strict_eq_JInt,
    syncable_has_member.
  tauto.
Qed.

Lemma StronglySorted_seqZ m n : StronglySorted Z.lt (seqZ m n).
Proof.
  remember (Z.to_nat n) as k eqn:Hk. revert m n Hk.
  induction k as [|k IH]; intros m n Hk.
  - rewrite seqZ_nil by lia. constructor.
  - rewrite seqZ_cons by lia. constructor; [apply IH; lia|].
    apply Forall_forall. intros j Hj. apply elem_of_seqZ in Hj. lia.
Qed.

Lemma StronglySorted_filter_lt (P : Z → Prop) `{!∀ i, Decision (P i)} (l : list Z) :
  StronglySorted Z.lt l → StronglySorted Z.lt (filter P l).
Proof.
  induction 1 as [|i l Hl IH Hall]; [constructor|].
  rewrite filter_cons. destruct (decide (P i)); [|exact IH].
  constructor; [exact IH|].
  apply Forall_forall. intros j Hj. apply list_elem_of_filter in Hj as [_ Hj].
  rewrite Forall_forall in Hall. apply Hall. exact Hj.
Qed.

Lemma pickRows_present (cols : gmap string (list jsval)) name (col : list jsval) validIndices :
  cols !! name = Some col →
  pickRows (cols !! name) validIndices = Some (map (at_index col) validIndices).
Proof. intros ->. destruct validIndices; reflexivity. Qed.

(** The loop over the field names writes one picked column per name and
    leaves the rest of the accumulator alone. *)
Lemma filterColumns_lookup (cols : gmap string (list jsval)) validIndices names :
  Forall (λ name, is_Some (cols !! name)) names →
  ∀ acc, ∃ out,
    filterColumns cols validIndices names acc = Some out ∧
    ∀ name, out !! name
            = if decide (name ∈ names)
              then (λ col, map (at_index col) validIndices) <$> cols !! name
              else acc !! name.
Proof.
  induction 1 as [|name0 names [col Hcol] _ IH]; intros acc.
  - exists acc. split; [reflexivity|]. intros name.
    destruct (decide (name ∈ [])) as [Hin|_]; [|reflexivity].
    apply elem_of_nil in Hin. destruct Hin.
  - simpl. rewrite (pickRows_present cols name0 col validIndices Hcol). simpl.
    destruct (IH (<[name0 := map (at_index col) validIndices]> acc)) as (out & Hout & Hlook).
    exists out. split; [exact Hout|]. intros name. rewrite Hlook.
    destruct (decide (name ∈ names)) as [Hin|Hnin].
    + rewrite decide_True by (apply elem_of_cons; right; exact Hin). reflexivity.
    + destruct (decide (name = name0)) as [->|Hne].
      * rewrite decide_True by (apply elem_of_cons; left; reflexivity).
        rewrite lookup_insert_eq, Hcol. reflexivity.
      * rewrite decide_False by (rewrite elem_of_cons; tauto).
        apply lookup_insert_ne. congruence.
Qed.

(** C9: without one of the four columns the dataset is returned as it is.
    With them, and a column under every field name, the rows kept are the
    rows [i] below [numRows] that satisfy the row condition, in increasing
    order of [i]; the result has one column per field name, holding the
    cells of the kept rows in that order, each of length the new [numRows];
    the field names are those of the input. *)
Theorem filterEventsToSync_keeps (data : ColumnarData) :
  (columns data !! "x" = None ∨ columns data !! "y" = None ∨
   columns data !! "period_id" = None ∨ columns data !! "event_type_id" = None →
   filterEventsToSync data = Some data) ∧
  (∀ xCol yCol periodCol eventTypeCol,
     columns data !! "x" = Some xCol → columns data !! "y" = Some yCol →
     columns data !! "period_id" = Some periodCol →
     columns data !! "event_type_id" = Some eventTypeCol →
     Forall (λ name, is_Some (columns data !! name)) (fieldNames data) →
     ∃ kept out,
       filterEventsToSync data = Some out ∧
       (∀ i, i ∈ kept ↔
             0 <= i < numRows data ∧ syncableRow xCol yCol periodCol eventTypeCol i) ∧
       StronglySorted Z.lt kept ∧
       numRows out = Z.of_nat (length kept) ∧
       fieldNames out = fieldNames data ∧
       (∀ name, columns out !! name
                = if decide (name ∈ fieldNames data)
                  then (λ col, map (at_index col) kept) <$> columns data !! name
                  else None) ∧
       (∀ name col, columns out !! name = Some col →
                    Z.of_nat (length col) = numRows out)).
Proof.
  split.
  - intros Hmiss. unfold filterEventsToSync.
    destruct (columns data !! "x"), (columns data !! "y"),
      (columns data !! "period_id"), (columns data !! "event_type_id");
      try reflexivity; destruct Hmiss as [H|[H|[H|H]]]; discriminate.
  - intros xCol yCol periodCol eventTypeCol Hx Hy Hp He Hnames.
    unfold filterEventsToSync. rewrite Hx, Hy, Hp, He.
    set (kept := filter (λ i, isSyncableRow xCol yCol periodCol eventTypeCol i = true)
                   (seqZ 0 (numRows data))).
    destruct (filterColumns_lookup (columns data) kept (fieldNames data) Hnames ∅)
      as (cols & Hcols & Hlook).
    rewrite Hcols. simpl. exists kept. eexists. split; [reflexivity|]. simpl.
    split; [|split; [|split; [reflexivity|split; [reflexivity|split]]]].
    + intros i. unfold kept. rewrite list_elem_of_filter, elem_of_seqZ,
        isSyncableRow_syncable. split; intros [H1 H2]; (split; [|tauto || lia]); tauto || lia.
    + apply StronglySorted_filter_lt, StronglySorted_seqZ.
    + intros name. rewrite Hlook. destruct (decide (name ∈ fieldNames data));
        [reflexivity|apply lookup_empty].
    + intros name col. rewrite Hlook.
      destruct (decide (name ∈ fieldNames data)); [|rewrite lookup_empty; discriminate].
      destruct (columns data !! name) as [c|]; simpl; [|discriminate].
      intros [= <-]. rewrite length_map. reflexivity.
Qed.

(** Of four events only the first one is kept: the second one has no x, the
    third one lies in period 3, the fourth one has type 43. *)
Lemma filterEventsToSync_keeps_example :
  ∃ out, filterEventsToSync rawEvents = Some out ∧
    numRows out = 1 ∧
    columns out !! "opta_event_id" = Some [JStr "A"] ∧
    columns out !! "x" = Some [JNum (Fin 50.5)] ∧
    fieldNames out = fieldNames rawEvents.
Proof.
  destruct (filterEventsToSync_keeps rawEvents) as [_ Hkeep].
  destruct (Hkeep _ _ _ _ eq_refl eq_refl eq_refl eq_refl) as (kept & out & Hout & _).
  - repeat constructor; eexists; reflexivity.
  - exists out. split; [exact Hout|].
    assert (Hval : filterEventsToSync rawEvents
                   = Some (mkColumnarData
                     (<["event_type_id" := [JInt 1]]>
                      (<["period_id" := [JInt 1]]>
                      (<["y" := [JNum (Fin 30)]]>
                      (<["x" := [JNum (Fin 50.5)]]>
                      (<["opta_event_id" := [JStr "A"]]> ∅)))))
                     1 (fieldNames rawEvents))) by reflexivity.
    rewrite Hout in Hval. injection Hval as ->.
    repeat split.
Defined.

(** ** The import handler *)

Lemma collectResults_numeric entries results :
  allNumeric entries →
  collectResults entries results = inr (assignAll results entries).
Proof.
  intros Hall. revert results.
  induction Hall as [|[key value] rest Hnum _ IH]; intros results; [reflexivity|].
  destruct value; try discriminate. simpl. apply IH.
Qed.

Lemma collectResults_offending pre key value post results :
  allNumeric pre →
  isNumeric value = false →
  collectResults (pre ++ (key, value) :: post) results = inl key.
Proof.
  intros Hpre Hbad. revert results.
  induction Hpre as [|[k v] rest Hnum _ IH]; intros results; simpl.
  - destruct value; try reflexivity. discriminate.
  - destruct v; try discriminate. apply IH.
Qed.

Lemma collectResults_inr entries results out :
  collectResults entries results = inr out →
  allNumeric entries.
Proof.
  revert results. induction entries as [|[key value] rest IH]; intros results H;
    [constructor|].
  simpl in H. destruct value; try discriminate.
  constructor; [reflexivity|]. eapply IH. exact H.
Qed.

(** What an assignment of the import leaves under a key. *)
Lemma assign_lookup key value (results : SyncedResults) k :
  assign key value results !! k
  = if bool_decide (k = key ∧ key ≠ "__proto__") then Some value else results !! k.
Proof.
  unfold assign. destruct (decide (key = "__proto__")) as [->|Hne].
  - rewrite bool_decide_eq_true_2 by reflexivity.
    rewrite bool_decide_eq_false_2 by (intros [_ H]; congruence). reflexivity.
  - rewrite (bool_decide_eq_false_2 _ Hne).
    destruct (decide (k = key)) as [->|Hk].
    + rewrite bool_decide_eq_true_2 by (split; [reflexivity|exact Hne]).
      apply lookup_insert_eq.
    + rewrite bool_decide_eq_false_2 by (intros [H _]; congruence).
      apply lookup_insert_ne. congruence.
Qed.

(** C8: every payload is either rejected or applied whole.  A payload that
    does not parse, that is not an object, or one of whose values is not a
    number is rejected: the handler alerts (with the key of the first value
    that is not a number, when there is one) and the state is the one it
    started from.  A payload whose values are all numbers is handed, whole,
    to [uploadResults], as the map its members build; and nothing else is
    ever applied, nor does the state change otherwise. *)
Theorem handleFileChange_all_or_nothing (parsed : string + json) (written : bool)
    (st : AppState) :
  (∀ message, parsed = inl message →
     handleFileChange parsed written st = Alerted (AlertError message) st) ∧
  (∀ value, parsed = inr value → (∀ entries, value ≠ JsonObject entries) →
     handleFileChange parsed written st = Alerted AlertInvalidFormat st) ∧
  (∀ pre key value post,
     parsed = inr (JsonObject (pre ++ (key, value) :: post)) →
     allNumeric pre → isNumeric value = false →
     handleFileChange parsed written st = Alerted (AlertInvalidValue key) st) ∧
  (∀ entries,
     parsed = inr (JsonObject entries) → allNumeric entries →
     handleFileChange parsed written st
     = afterUpload (uploadResults (assignAll ∅ entries) written st)) ∧
  (rejected (handleFileChange parsed written st) st ∨
   ∃ entries, parsed = inr (JsonObject entries) ∧ allNumeric entries).
Proof.
  split; [intros message ->; reflexivity|].
  split; [intros value -> Hobj; destruct value; try reflexivity;
          exfalso; eapply Hobj; reflexivity|].
  split; [intros pre key value post -> Hpre Hbad; simpl;
          rewrite (collectResults_offending pre key value post ∅ Hpre Hbad); reflexivity|].
  split; [intros entries -> Hall; simpl;
          rewrite (collectResults_numeric entries ∅ Hall); reflexivity|].
  destruct parsed as [message|value].
  { left. eexists. split; [reflexivity|discriminate]. }
  destruct value as [| | | | |entries];
    try (left; eexists; split; [reflexivity|discriminate]).
  simpl. destruct (collectResults entries ∅) as [key|results] eqn:Hcollect.
  - left. eexists. split; [reflexivity|discriminate].
  - right. exists entries. split; [reflexivity|].
    exact (collectResults_inr entries ∅ results Hcollect).
Qed.

(** On the state with E1 and E2 confirmed: a file with a string among its
    values is rejected with the key of that value and changes nothing; an
    array is rejected; the file [{"E2": 2100}] is applied and leaves exactly
    that entry; and when the write of its map is rejected the handler alerts
    with the results replaced in memory. *)
Lemma handleFileChange_example :
  handleFileChange (inr importBad) true confirmedState
    = Alerted (AlertInvalidValue "E2") confirmedState ∧
  handleFileChange (inr (JsonArray [JsonNumber 1])) true confirmedState
    = Alerted AlertInvalidFormat confirmedState ∧
  handleFileChange (inr importE2) true confirmedState
    = Applied (mkAppState (Some exampleEvents) (Some exampleTracking)
                 (<["E2" := 2100%Q]> ∅) 0 0 0) ∧
  handleFileChange (inr importE2) false confirmedState
    = Alerted AlertUploadFailed
        (mkAppState (Some exampleEvents) (Some exampleTracking)
           (<["E2" := 2100%Q]> ∅) 0 3 3).
Proof.
  split; [|split; [|split]].
  - apply (proj1 (proj2 (proj2 (handleFileChange_all_or_nothing (inr importBad) true
                                  confirmedState)))
             [("E1", JsonNumber 1100)] "E2" (JsonString "2100") [("E3", JsonNull)]).
    + reflexivity.
    + repeat constructor.
    + reflexivity.
  - apply (proj1 (proj2 (handleFileChange_all_or_nothing _ true confirmedState)) _ eq_refl).
    intros entries. discriminate.
  - rewrite (proj1 (proj2 (proj2 (proj2 (handleFileChange_all_or_nothing (inr importE2) true
                                           confirmedState))))
               [("E2", JsonNumber 2100)] eq_refl); [reflexivity|].
    repeat constructor.
  - rewrite (proj1 (proj2 (proj2 (proj2 (handleFileChange_all_or_nothing (inr importE2) false
                                           confirmedState))))
               [("E2", JsonNumber 2100)] eq_refl); [reflexivity|].
    repeat constructor.
Defined.

(** ** Skipping an event *)

(** X4: with both datasets loaded, a skip moves the cursor to the first
    unsynced event after the current one, without clamping (it reaches
    [numRows] when none is left); the confirmed results and [lastSyncOffset]
    are those of the state it started from; and the offset is set to
    [lastSyncOffset], which is what [updateOffsetForEvent] returns there.
    Where the event reached lies inside a dataset whose events lack one of
    the two columns that [updateOffsetForEvent] indexes, the call throws
    instead and the offset keeps its value.  [nextUnsynced] does the same. *)
Theorem skipEvent_keeps_results (st : AppState) (events tracking : ColumnarData) :
  eventsData st = Some events →
  trackingData st = Some tracking →
  let newIndex := findFirstUnsynced (currentEventIndex st + 1) events (syncedResults st) in
  ((updateOffsetForEvent newIndex events tracking (syncedResults st) (lastSyncOffset st)
      = Some (lastSyncOffset st) ∧
    skipEvent st
    = Returned (mkAppState (Some events) (Some tracking) (syncedResults st) newIndex
                  (lastSyncOffset st) (lastSyncOffset st))) ∨
   (newIndex < numRows events ∧ ¬ indexedColumns events ∧
    skipEvent st
    = Threw (mkAppState (Some events) (Some tracking) (syncedResults st) newIndex
               (frameOffset st) (lastSyncOffset st)))) ∧
  nextUnsynced st = skipEvent st ∧
  currentEventIndex st < newIndex ∧
  (currentEventIndex st < numRows events → newIndex <= numRows events).
Proof.
  intros Hev Htr. cbv zeta.
  split; [|split; [reflexivity|split]].
  - unfold skipEvent, moveCursor, setCursor. rewrite Hev, Htr.
    destruct (recompute_after_scan (currentEventIndex st + 1) events tracking
                (syncedResults st) (lastSyncOffset st)
                (λ offset, mkAppState (Some events) (Some tracking) (syncedResults st)
                             (findFirstUnsynced (currentEventIndex st + 1) events
                                (syncedResults st)) offset (lastSyncOffset st))
                (mkAppState (Some events) (Some tracking) (syncedResults st)
                   (findFirstUnsynced (currentEventIndex st + 1) events (syncedResults st))
                   (frameOffset st) (lastSyncOffset st)))
      as [[Hoff Hret]|(Hin & Hcols & Hthrew)].
    + left. split; [exact Hoff|exact Hret].
    + right. split; [exact Hin|]. split; [exact Hcols|exact Hthrew].
  - pose proof (scanUnsynced_ge (Z.to_nat (numRows events - (currentEventIndex st + 1)))
                  (columns events !! "opta_event_id") (numRows events) (syncedResults st)
                  (currentEventIndex st + 1)) as Hge.
    unfold findFirstUnsynced. lia.
  - intros Hlt. unfold findFirstUnsynced. apply scanUnsynced_le. lia.
Qed.

(** Skipping E1 in the specification's example: the cursor moves to E2,
    nothing is recorded and the offset is the last confirmed one, 0. *)
Lemma skipEvent_keeps_results_example :
  skipEvent exampleState
  = Returned (mkAppState (Some exampleEvents) (Some exampleTracking) ∅ 1 0 0).
Proof.
  destruct (skipEvent_keeps_results exampleState exampleEvents exampleTracking
              eq_refl eq_refl) as ([[_ Hskip]|(_ & _ & Hthrew)] & _).
  - exact Hskip.
  - discriminate Hthrew.
Defined.

(** ** Scans compose *)

Lemma scanUnsynced_enough fuel fuel' col rows results i :
  rows - i <= Z.of_nat fuel → rows - i <= Z.of_nat fuel' →
  scanUnsynced fuel col rows results i = scanUnsynced fuel' col rows results i.
Proof.
  intros H H'. destruct (decide (fuel <= fuel')%nat) as [Hle|Hgt].
  - symmetry. apply scanUnsynced_fuel; assumption.
  - apply scanUnsynced_fuel; [assumption|lia].
Qed.

(** A scan that starts on synced events continues as the scan started after
    them. *)
Lemma scanUnsynced_skip col rows results r :
  r <= rows →
  ∀ fuel fuel' j,
    j <= r →
    (∀ k, j <= k < r → has_key (eventIdOf col k) results = true) →
    rows - j <= Z.of_nat fuel → rows - r <= Z.of_nat fuel' →
    scanUnsynced fuel col rows results j = scanUnsynced fuel' col rows results r.
Proof.
  intros Hr fuel. induction fuel as [|fuel IH]; intros fuel' j Hj Hsynced Hfuel Hfuel'.
  - assert (j = r) as -> by lia. apply scanUnsynced_enough; assumption.
  - destruct (decide (j = r)) as [->|Hne]; [apply scanUnsynced_enough; assumption|].
    simpl. destruct (j <? rows) eqn:Hlt; [|apply Z.ltb_ge in Hlt; lia].
    rewrite Hsynced by lia. apply IH; try lia.
    intros k Hk. apply Hsynced. lia.
Qed.

Lemma findFirstUnsynced_skip i j events results :
  i <= j → j <= numRows events →
  (∀ k, i <= k < j → isSynced events results k = true) →
  findFirstUnsynced i events results = findFirstUnsynced j events results.
Proof.
  intros Hij Hj Hsynced. unfold findFirstUnsynced.
  apply scanUnsynced_skip; try lia. exact Hsynced.
Qed.

Lemma findFirstUnsynced_fixed i events results :
  findFirstUnsynced (findFirstUnsynced i events results) events results
  = findFirstUnsynced i events results.
Proof.
  set (r := findFirstUnsynced i events results).
  destruct (decide (r < numRows events)) as [Hlt|Hge].
  - assert (Hun : has_key (eventIdOf (columns events !! "opta_event_id") r) results = false).
    { unfold r, findFirstUnsynced in *. apply scanUnsynced_stop; [lia|exact Hlt]. }
    unfold findFirstUnsynced at 1.
    destruct (Z.to_nat (numRows events - r)) as [|fuel] eqn:Hfuel; [lia|].
    simpl. destruct (r <? numRows events) eqn:Hr; [|reflexivity].
    rewrite Hun. reflexivity.
  - unfold findFirstUnsynced at 1. apply scanUnsynced_past. lia.
Qed.

(** X5: a scan started on its own result returns that result; a later start
    never gives an earlier result; and two starts inside the dataset give
    the same result exactly when every event between them counts as synced
    (its id is a key of the results or a name they inherit).  In particular
    the scan from 0, which a reload makes, agrees with the scan from [i]
    exactly when every event before [i] counts as synced. *)
Theorem findFirstUnsynced_compose (i j : Z) (events : ColumnarData)
    (results : SyncedResults) :
  findFirstUnsynced (findFirstUnsynced i events results) events results
  = findFirstUnsynced i events results ∧
  (i <= j → findFirstUnsynced i events results <= findFirstUnsynced j events results) ∧
  (i <= j → j <= numRows events →
   (findFirstUnsynced i events results = findFirstUnsynced j events results
    ↔ ∀ k, i <= k < j → countsAsSynced events results k)).
Proof.
  split; [apply findFirstUnsynced_fixed|].
  pose proof (scanUnsynced_ge (Z.to_nat (numRows events - j))
                (columns events !! "opta_event_id") (numRows events) results j) as Hgej.
  fold (findFirstUnsynced j events results) in Hgej.
  set (r := findFirstUnsynced i events results).
  assert (Hprefix : ∀ k, i <= k < r → isSynced events results k = true).
  { intros k Hk. unfold isSynced, eventId.
    eapply scanUnsynced_prefix. unfold r, findFirstUnsynced in Hk. exact Hk. }
  split.
  - intros Hij. destruct (decide (j <= r)) as [Hjr|Hjr]; [|lia].
    destruct (decide (r <= numRows events)) as [Hr|Hr].
    + rewrite (findFirstUnsynced_skip j r events results Hjr Hr)
        by (intros k Hk; apply Hprefix; lia).
      unfold r. rewrite findFirstUnsynced_fixed. lia.
    + assert (numRows events < i).
      { destruct (decide (i <= numRows events)) as [Hi|Hi]; [|lia].
        pose proof (scanUnsynced_le (Z.to_nat (numRows events - i))
                      (columns events !! "opta_event_id") (numRows events) results i Hi).
        unfold r, findFirstUnsynced in Hr. lia. }
      assert (r = i) by (unfold r, findFirstUnsynced; apply scanUnsynced_past; lia).
      lia.
  - intros Hij Hj. split.
    + intros Heq k Hk. apply isSynced_counts, Hprefix. lia.
    + intros Hsynced. apply findFirstUnsynced_skip; try assumption.
      intros k Hk. apply isSynced_counts, Hsynced, Hk.
Qed.

(** In the specification's example with only E2 confirmed, a reload lands on
    E1 while a scan from E2 on runs to the end; and on events whose first id
    is [toString] the scans from 0 and from 1 agree with nothing confirmed. *)
Lemma findFirstUnsynced_compose_example :
  let results : SyncedResults := <["E2" := 1900%Q]> ∅ in
  findFirstUnsynced 0 exampleEvents results = 0 ∧
  findFirstUnsynced 1 exampleEvents results = 2 ∧
  findFirstUnsynced 0 exampleEvents results <= findFirstUnsynced 1 exampleEvents results ∧
  findFirstUnsynced 0 namedEvents ∅ = findFirstUnsynced 1 namedEvents ∅.
Proof.
  intros results. split; [reflexivity|]. split; [reflexivity|]. split.
  - apply (proj1 (proj2 (findFirstUnsynced_compose 0 1 exampleEvents results))). lia.
  - apply (proj2 (proj2 (findFirstUnsynced_compose 0 1 namedEvents ∅))); [lia|simpl; lia|].
    intros k Hk. assert (k = 0) as -> by lia. right.
    apply (bool_decide_eq_true_1 (derivedId namedEvents 0 ∈ Object_prototype)).
    vm_compute. reflexivity.
Defined.

(** ** The frame the sync page shows *)

Lemma sorted_lookup_lt (times : list Q) (j k : nat) (a b : Q) :
  StronglySorted Qlt times → (j < k)%nat →
  times !! j = Some a → times !! k = Some b → (a < b)%Q.
Proof.
  intros Hsorted. revert j k.
  induction Hsorted as [|h rest Hrest IH Hall]; intros j k Hjk Hj Hk; [discriminate|].
  destruct k as [|k]; [lia|]. simpl in Hk. destruct j as [|j]; simpl in Hj.
  - injection Hj as <-. rewrite Forall_forall in Hall. apply Hall.
    eapply list_elem_of_lookup_2. exact Hk.
  - eapply IH; [|exact Hj|exact Hk]. lia.
Qed.

(** In a strictly increasing list the search for a member stops on it. *)
Lemma findIndex_member (times : list Q) (k : nat) (t : Q) :
  StronglySorted Qlt times → times !! k = Some t →
  findIndex (λ x, Qle_bool t x) times = Z.of_nat k.
Proof.
  intros Hsorted Hk. unfold findIndex.
  destruct (findIndexFrom_first (λ x, Qle_bool t x) times 0)
    as [[Hall _]|(k' & t' & Hk' & Hp & Hbefore & Hidx)].
  - rewrite Forall_forall in Hall. apply list_elem_of_lookup_2 in Hk.
    specialize (Hall t Hk). simpl in Hall.
    assert (Qle_bool t t = true) by (apply Qle_bool_iff, Qle_refl). congruence.
  - rewrite Hidx. apply Qle_bool_iff in Hp.
    destruct (lt_eq_lt_dec k' k) as [[Hlt|Heq]|Hgt].
    + pose proof (sorted_lookup_lt times k' k t' t Hsorted Hlt Hk' Hk). lra.
    + subst. lia.
    + pose proof (Hbefore k t Hgt Hk) as Hf. simpl in Hf.
      assert (Qle_bool t t = true) by (apply Qle_bool_iff, Qle_refl). congruence.
Qed.

(** The base index of the page is the lookup of the specification. *)
Lemma currentTimeOf_index (times : list Q) (baseTime : Q) (offset : Z) :
  times ≠ [] →
  currentTimeOf times baseTime offset
  = times !! Z.to_nat (Z.max 0 (Z.min (Z.of_nat (length times) - 1)
                                  (nearestIndexAtOrAfter times baseTime + offset))).
Proof.
  intros Hne. unfold currentTimeOf, nearestIndexAtOrAfter.
  rewrite bool_decide_eq_false_2 by (destruct times; [congruence|discriminate]).
  unfold findIndex.
  destruct (findIndexFrom_first (λ t, Qle_bool baseTime t) times 0)
    as [[_ ->]|(k & t & _ & _ & _ & ->)]; [reflexivity|].
  destruct (0 + Z.of_nat k =? -1) eqn:H1; [apply Z.eqb_eq in H1; lia|].
  destruct (0 + Z.of_nat k <? 0) eqn:H2; [apply Z.ltb_lt in H2; lia|].
  reflexivity.
Qed.

(** X6: the page shows no time exactly when the period has no sample;
    otherwise it shows a sample of the period whatever the offset: the first
    one for an offset that leads below the first index, the last one for an
    offset that leads past the last index, and the sample [offset] places
    from the base index in between. *)
Theorem currentTimeOf_clamps (times : list Q) (baseTime : Q) (offset : Z) :
  let target := nearestIndexAtOrAfter times baseTime + offset in
  (currentTimeOf times baseTime offset = None ↔ times = []) ∧
  (∀ t, currentTimeOf times baseTime offset = Some t → t ∈ times) ∧
  (target <= 0 → currentTimeOf times baseTime offset = head times) ∧
  (Z.of_nat (length times) - 1 <= target →
   currentTimeOf times baseTime offset = last times) ∧
  (0 <= target <= Z.of_nat (length times) - 1 →
   currentTimeOf times baseTime offset = times !! Z.to_nat target).
Proof.
  intros target. destruct times as [|t0 rest].
  - repeat split; try reflexivity; try discriminate.
  - assert (Hne : t0 :: rest ≠ []) by discriminate.
    rewrite (currentTimeOf_index (t0 :: rest) baseTime offset Hne). fold target.
    set (len := Z.of_nat (length (t0 :: rest))).
    assert (Hlen : 1 <= len) by (unfold len; simpl; lia).
    split; [|split; [|split; [|split]]].
    + split; [|discriminate]. intros Hnone. exfalso.
      apply lookup_ge_None in Hnone. unfold len in *. lia.
    + intros t Ht. eapply list_elem_of_lookup_2. exact Ht.
    + intros Hlow. replace (Z.max 0 (Z.min (len - 1) target)) with 0 by lia.
      rewrite head_lookup. reflexivity.
    + intros Hhigh. replace (Z.max 0 (Z.min (len - 1) target)) with (len - 1) by lia.
      rewrite last_lookup. f_equal. unfold len. simpl. lia.
    + intros Hin. replace (Z.max 0 (Z.min (len - 1) target)) with target by lia.
      reflexivity.
Qed.

(** ** A confirmed frame is shown again *)

Lemma collectTimes_NoDupA periodCol timeCol periodId rows :
  ∀ acc out,
    collectTimes periodCol timeCol periodId rows acc = Some out →
    NoDupA Qeq acc → NoDupA Qeq out.
Proof.
  induction rows as [|i rows IH]; intros acc out Hout Hacc; simpl in Hout.
  - injection Hout as <-. exact Hacc.
  - destruct (col_index periodCol i) as [p|]; [|discriminate]. simpl in Hout.
    destruct (strict_eq p periodId); [|eapply IH; eassumption].
    destruct (col_index timeCol i) as [v|]; [|discriminate]. simpl in Hout.
    destruct (as_number v) as [t|]; [|discriminate]. simpl in Hout.
    eapply IH; [exact Hout|]. apply set_add_NoDupA. exact Hacc.
Qed.

Lemma getPeriodTimes_sorted tracking periodId times :
  getPeriodTimes tracking periodId = Some times → StronglySorted Qlt times.
Proof.
  unfold getPeriodTimes. intros H.
  destruct (collectTimes _ _ periodId (seqZ 0 (numRows tracking)) [])
    as [collected|] eqn:Hcollect; [|discriminate].
  simpl in H. injection H as <-.
  apply sort_ascending_sorted.
  eapply collectTimes_NoDupA; [exact Hcollect|constructor].
Qed.

Lemma nearestIndexAtOrAfter_member (times : list Q) (k : nat) (t : Q) :
  StronglySorted Qlt times → times !! k = Some t →
  nearestIndexAtOrAfter times t = Z.of_nat k.
Proof.
  intros Hsorted Hk. unfold nearestIndexAtOrAfter.
  rewrite (findIndex_member times k t Hsorted Hk).
  destruct (Z.of_nat k <? 0) eqn:H; [apply Z.ltb_lt in H; lia|reflexivity].
Qed.

(** With the offset of the specification the page shows the confirmed
    sample. *)
Lemma currentTimeOf_specOffset (times : list Q) (nominal t : Q) :
  StronglySorted Qlt times → t ∈ times →
  currentTimeOf times nominal (specOffset times nominal t) = Some t.
Proof.
  intros Hsorted Hin. apply list_elem_of_lookup_1 in Hin as [k Hk].
  assert (Hne : times ≠ []) by (intros ->; discriminate).
  rewrite (currentTimeOf_index times nominal _ Hne). unfold specOffset.
  rewrite (nearestIndexAtOrAfter_member times k t Hsorted Hk).
  pose proof (lookup_lt_Some _ _ _ Hk) as Hlen.
  replace (Z.max 0 (Z.min (Z.of_nat (length times) - 1)
             (nearestIndexAtOrAfter times nominal
              + (Z.of_nat k - nearestIndexAtOrAfter times nominal))))
    with (Z.of_nat k) by lia.
  rewrite Nat2Z.id. exact Hk.
Qed.

(** ** Rows *)

Lemma buildRow_lookup (cols : gmap string (list jsval)) (names : list string) (index : Z) :
  Forall (λ name, is_Some (cols !! name)) names →
  ∀ acc : Row, ∃ row : Row,
    buildRow cols names index acc = Some row ∧
    ∀ name, row !! name
            = if decide (name ∈ names)
              then (λ col, at_index col index) <$> cols !! name
              else acc !! name.
Proof.
  induction 1 as [|name0 names [col Hcol] _ IH]; intros acc.
  - exists acc. split; [reflexivity|]. intros name.
    destruct (decide (name ∈ [])) as [Hin|_]; [|reflexivity].
    apply elem_of_nil in Hin. destruct Hin.
  - simpl. rewrite Hcol. simpl.
    destruct (IH (<[name0 := at_index col index]> acc)) as (row & Hrow & Hlook).
    exists row. split; [exact Hrow|]. intros name. rewrite Hlook.
    destruct (decide (name ∈ names)) as [Hin|Hnin].
    + rewrite decide_True by (apply elem_of_cons; right; exact Hin). reflexivity.
    + destruct (decide (name = name0)) as [->|Hne].
      * rewrite decide_True by (apply elem_of_cons; left; reflexivity).
        rewrite lookup_insert_eq, Hcol. reflexivity.
      * rewrite decide_False by (rewrite elem_of_cons; tauto).
        apply lookup_insert_ne. congruence.
Qed.

Lemma buildRow_missing (cols : gmap string (list jsval)) (names : list string) (index : Z) :
  Exists (λ name, cols !! name = None) names →
  ∀ acc : Row, buildRow cols names index acc = None.
Proof.
  induction names as [|name0 names IH]; intros Hex acc; [inversion Hex|].
  simpl. destruct (cols !! name0) as [col|] eqn:Hcol; [|reflexivity].
  simpl. apply IH. inversion Hex as [? ? Hhere|? ? Hthere]; subst; [congruence|exact Hthere].
Qed.

Lemma getRow_field (data : ColumnarData) (index : Z) name col :
  namedColumns data → name ∈ fieldNames data → columns data !! name = Some col →
  ∃ row, getRow data index = Some row ∧ field row name = at_index col index.
Proof.
  intros Hnamed Hin Hcol.
  destruct (buildRow_lookup (columns data) (fieldNames data) index Hnamed ∅)
    as (row & Hrow & Hlook).
  exists row. split; [exact Hrow|]. unfold field.
  rewrite Hlook, decide_True by exact Hin. rewrite Hcol. reflexivity.
Qed.

(** ** A confirmed frame is shown again, continued *)

Lemma currentTime_shown st events tracking pc tc times nominal :
  eventsData st = Some events → trackingData st = Some tracking →
  namedColumns events →
  "period_id" ∈ fieldNames events → "matched_time" ∈ fieldNames events →
  columns events !! "period_id" = Some pc →
  columns events !! "matched_time" = Some tc →
  currentEventIndex st < numRows events →
  getPeriodTimes tracking (at_index pc (currentEventIndex st)) = Some times →
  times ≠ [] →
  as_number (at_index tc (currentEventIndex st)) = Some nominal →
  currentTime st = Some (currentTimeOf times nominal (frameOffset st)).
Proof.
  intros Hev Htr Hnamed Hp Ht Hpc Htc Hlt Htimes Hne Hnom.
  unfold currentTime, currentEvent, getEventRow. rewrite Hev, Htr.
  destruct (numRows events <=? currentEventIndex st) eqn:Hle;
    [apply Z.leb_le in Hle; lia|].
  destruct (buildRow_lookup (columns events) (fieldNames events) (currentEventIndex st)
              Hnamed ∅) as (row & Hrow & Hlook).
  unfold getRow. rewrite Hrow. simpl. unfold field.
  rewrite !Hlook, !decide_True by assumption. rewrite Hpc, Htc. simpl.
  rewrite Htimes. simpl.
  rewrite bool_decide_eq_false_2 by (destruct times; [congruence|discriminate]).
  rewrite Hnom. reflexivity.
Qed.

(** X7: the frame the page shows when the operator confirms is the frame it
    shows again when the operator comes back to the event.  On events whose
    field names list [period_id] and [matched_time], each field with its
    column, with the cursor on an event whose nominal time is a finite number
    and whose period has finite times, one of them at or after the nominal
    time: [handleSync] records the time [t] the page shows under the event's
    id, whether or not the write resolves; and from every later state with
    the same datasets and [t] still recorded under that id, whatever its
    cursor and its two offsets, [handleJump] to the event returns with the
    offset [updateOffsetForEvent] restores, under which the page shows [t]. *)
Theorem confirmed_frame_is_restored (st : AppState) (events tracking : ColumnarData)
    (pc tc : list jsval) (times : list Q) (nominal t : Q) :
  eventsData st = Some events → trackingData st = Some tracking →
  namedColumns events →
  "period_id" ∈ fieldNames events → "matched_time" ∈ fieldNames events →
  columns events !! "period_id" = Some pc →
  columns events !! "matched_time" = Some tc →
  0 <= currentEventIndex st < numRows events →
  getPeriodTimes tracking (at_index pc (currentEventIndex st)) = Some times →
  at_index tc (currentEventIndex st) = JNum (Fin nominal) →
  Exists (λ x, (nominal <= x)%Q) times →
  currentTime st = Some (Some t) →
  let id := derivedId events (currentEventIndex st) in
  (∀ written, ∃ st1,
     (handleSync written st = Some (Returned st1) ∨
      handleSync written st = Some (Threw st1)) ∧
     eventsData st1 = Some events ∧ trackingData st1 = Some tracking ∧
     syncedResults st1 !! id = Some t) ∧
  (∀ later,
     eventsData later = Some events → trackingData later = Some tracking →
     syncedResults later !! id = Some t →
     ∃ offset,
       updateOffsetForEvent (currentEventIndex st) events tracking (syncedResults later)
         (lastSyncOffset later) = Some offset ∧
       handleJump (inject_Z (currentEventIndex st)) later
       = Some (Returned (setCursor later (currentEventIndex st) offset)) ∧
       currentTime (setCursor later (currentEventIndex st) offset) = Some (Some t)).
Proof.
  intros Hev Htr Hnamed Hp Ht Hpc Htc Hi Htimes Hnom Hbase Hshown id.
  set (i := currentEventIndex st) in *.
  assert (Hnum : as_number (at_index tc i) = Some nominal) by (rewrite Hnom; reflexivity).
  assert (Hne : times ≠ []) by (intros ->; inversion Hbase).
  pose proof (getPeriodTimes_sorted _ _ _ Htimes) as Hsorted.
  rewrite (currentTime_shown st events tracking pc tc times nominal) in Hshown
    by (try assumption; fold i; lia).
  injection Hshown as Hshown.
  assert (Hin : t ∈ times).
  { rewrite (currentTimeOf_index times nominal _ Hne) in Hshown.
    eapply list_elem_of_lookup_2. exact Hshown. }
  assert (Hsync : Exists (λ x, (t <= x)%Q) times).
  { apply Exists_exists. exists t. split; [exact Hin|apply Qle_refl]. }
  split.
  - intros written.
    assert (Hsynced : handleSync written st = Some (syncCurrentEvent t written st)).
    { unfold handleSync.
      rewrite (currentTime_shown st events tracking pc tc times nominal)
        by (try assumption; fold i; lia).
      simpl. rewrite Hshown. reflexivity. }
    rewrite Hsynced. destruct written.
    + destruct (syncCurrentEvent_state t st events tracking Hev Htr)
        as (st1 & Hcases & Hev1 & Htr1 & Hres & _); [fold i; lia|].
      exists st1. split; [|split; [exact Hev1|split; [exact Htr1|exact Hres]]].
      destruct Hcases as [->| ->]; [left|right]; reflexivity.
    + unfold syncCurrentEvent. rewrite Hev, Htr. fold i.
      destruct (numRows events <=? i) eqn:Hle; [apply Z.leb_le in Hle; lia|].
      eexists. split; [right; reflexivity|]. simpl.
      split; [reflexivity|]. split; [reflexivity|].
      fold (eventId events i). rewrite eventId_derived. apply lookup_insert_eq.
  - intros later Hlev Hltr Hres.
    assert (Hoff : updateOffsetForEvent i events tracking (syncedResults later)
                     (lastSyncOffset later) = Some (specOffset times nominal t)).
    { eapply updateOffsetForEvent_found; eauto; lia. }
    exists (specOffset times nominal t). split; [exact Hoff|]. split.
    + unfold handleJump, jumpToEvent. rewrite Hlev, Hltr.
      rewrite clampedIndex_inside by lia. simpl.
      unfold moveCursor, recompute. rewrite Hoff. reflexivity.
    + rewrite (currentTime_shown _ events tracking pc tc times nominal)
        by (try assumption; simpl; lia).
      simpl. f_equal. apply currentTimeOf_specOffset; assumption.
Qed.

(** The specification's example: E1 shown at 1100 ms (two frames after its
    nominal frame) is confirmed; later, with E2 confirmed too and the cursor
    on E1 with both offsets 3, the jump to E1 restores the offset 2 and the
    page shows 1100 ms again. *)
Lemma confirmed_frame_is_restored_example :
  handleSync true exampleState
  = Some (Returned (mkAppState (Some exampleEvents) (Some exampleTracking)
                      (<["E1" := 1100%Q]> ∅) 1 2 2)) ∧
  handleJump (inject_Z 0) confirmedState = Some (Returned (setCursor confirmedState 0 2)) ∧
  currentTime (setCursor confirmedState 0 2) = Some (Some 1100%Q).
Proof.
  assert (Htimes : ∃ times, getPeriodTimes exampleTracking (JInt 1) = Some times
                            ∧ times !! 2%nat = Some 1000%Q).
  { eexists. split; reflexivity. }
  destruct Htimes as (times & Htimes & Hk).
  destruct (confirmed_frame_is_restored exampleState exampleEvents exampleTracking
              [JInt 1; JInt 1] [JInt 1000; JInt 2000] times 1000 1100
              eq_refl eq_refl) as [Hsync Hback].
  - repeat constructor; eexists; reflexivity.
  - apply elem_of_cons. right. apply elem_of_cons. left. reflexivity.
  - do 2 (apply elem_of_cons; right). apply elem_of_cons. left. reflexivity.
  - reflexivity.
  - reflexivity.
  - simpl. lia.
  - exact Htimes.
  - reflexivity.
  - apply Exists_exists. exists 1000%Q.
    split; [eapply list_elem_of_lookup_2; exact Hk|discriminate].
  - reflexivity.
  - split; [reflexivity|].
    destruct (Hback confirmedState eq_refl eq_refl eq_refl) as (offset & Hoff & Hjump & Htime).
    assert (Hval : updateOffsetForEvent 0 exampleEvents exampleTracking
                     (syncedResults confirmedState) (lastSyncOffset confirmedState) = Some 2)
      by reflexivity.
    change (currentEventIndex exampleState) with 0 in Hoff, Hjump, Htime.
    rewrite Hoff in Hval. injection Hval as ->.
    split; [exact Hjump|exact Htime].
Defined.

(** ** The cursor stays inside the dataset *)

Lemma findFirstUnsynced_bounds i events results :
  0 <= i <= numRows events →
  i <= findFirstUnsynced i events results <= numRows events.
Proof.
  intros Hi. unfold findFirstUnsynced. split.
  - apply scanUnsynced_ge.
  - apply scanUnsynced_le. lia.
Qed.

(** What holds of every state the setters before and after the
    recomputation of the offset may leave holds of the state the call ends
    in. *)
Lemma recompute_stateAfter (P : AppState → Prop) i events tracking results fallback
    finish thrown :
  (∀ offset, P (finish offset)) → P thrown →
  ∀ st', stateAfter (recompute i events tracking results fallback finish thrown) st' → P st'.
Proof.
  intros Hfinish Hthrown st'. unfold recompute.
  destruct (updateOffsetForEvent i events tracking results fallback) as [offset|].
  - intros ->. apply Hfinish.
  - destruct (updateOffsetForEvent_throws i events tracking results).
    + intros ->. exact Hthrown.
    + intros [offset ->]. apply Hfinish.
Qed.

Lemma moveCursor_cursor st events tracking newIndex st' :
  eventsData st = Some events → trackingData st = Some tracking →
  0 <= newIndex <= numRows events →
  stateAfter (moveCursor st events tracking newIndex) st' → cursorInRange st'.
Proof.
  intros Hev Htr Hindex. unfold moveCursor.
  apply recompute_stateAfter.
  - intros offset. unfold cursorInRange. simpl. rewrite Hev, Htr. exact Hindex.
  - unfold cursorInRange. simpl. rewrite Hev, Htr. exact Hindex.
Qed.

Lemma syncCurrentEvent_cursor t written st st' :
  cursorInRange st → isComplete st = false →
  stateAfter (syncCurrentEvent t written st) st' → cursorInRange st'.
Proof.
  unfold cursorInRange at 1, isComplete, syncCurrentEvent.
  destruct (eventsData st) as [events|] eqn:Hev; [|discriminate].
  destruct (trackingData st) as [tracking|] eqn:Htr; [|intros []].
  intros Hcur Hcomplete. rewrite Hcomplete.
  apply Z.leb_gt in Hcomplete. cbv zeta.
  destruct written.
  - pose proof (findFirstUnsynced_bounds (currentEventIndex st + 1) events
                  (<[eventIdOf (columns events !! "opta_event_id") (currentEventIndex st) := t]>
                     (syncedResults st))) as Hbounds.
    apply recompute_stateAfter.
    + intros offset. unfold cursorInRange. simpl. lia.
    + unfold cursorInRange. simpl. lia.
  - simpl. intros ->. unfold cursorInRange. simpl. lia.
Qed.

Lemma uploadResults_cursor results written st st' :
  cursorInRange st → stateAfter (uploadResults results written st) st' → cursorInRange st'.
Proof.
  unfold cursorInRange at 1, uploadResults.
  destruct (eventsData st) as [events|] eqn:Hev;
    destruct (trackingData st) as [tracking|] eqn:Htr.
  - intros Hcur. destruct written.
    + pose proof (findFirstUnsynced_bounds 0 events results) as Hbounds.
      apply recompute_stateAfter.
      * intros offset. unfold cursorInRange. simpl. lia.
      * unfold cursorInRange. simpl. lia.
    + simpl. intros ->. unfold cursorInRange. simpl. exact Hcur.
  - intros [].
  - intros [].
  - intros Hcur. simpl. intros ->. unfold cursorInRange. rewrite Hev, Htr. exact Hcur.
Qed.

(** The index a jump clamps to lies inside the dataset. *)
Lemma clampedIndex_range rows (index : Q) newIndex :
  1 <= rows → clampedIndex rows index = Some newIndex → 0 <= newIndex <= rows - 1.
Proof.
  intros Hrows. unfold clampedIndex. cbv zeta.
  pose proof (clampedTarget_range rows index Hrows) as [Hlow Hhigh].
  destruct (Qeq_bool (clampedTarget rows index)
              (inject_Z (Qfloor (clampedTarget rows index)))); [|discriminate].
  intros [= <-].
  apply Qfloor_resp_le in Hlow, Hhigh.
  rewrite Qfloor_Z in Hhigh. change (Qfloor 0) with 0 in Hlow. lia.
Qed.

(** X8: every control of the pages keeps the cursor between 0 and [numRows]
    and the two datasets loaded together, however a call ends: returning,
    throwing after its first setters, or with the write of the results
    rejected; so does every sequence of controls from the state the provider
    mounts with.  (The scans that leave the dataset, from a cursor already
    at [numRows], are behind controls the completion screen does not offer.)
    The steps are those of the embedding: a confirmed time that is a finite
    number and a jump whose clamped index is an integer. *)
Theorem pageStep_keeps_cursor (st st' : AppState) :
  (cursorInRange st → pageStep st st' → cursorInRange st') ∧
  (rtc pageStep initialState st → cursorInRange st).
Proof.
  assert (Hloaded : ∀ a, cursorInRange a → isComplete a = false →
            ∃ events tracking, eventsData a = Some events ∧ trackingData a = Some tracking
                               ∧ 0 <= currentEventIndex a < numRows events).
  { intros a. unfold cursorInRange, isComplete.
    destruct (eventsData a) as [events|]; [|discriminate].
    destruct (trackingData a) as [tracking|]; [|intros []].
    intros Hcur Hc. apply Z.leb_gt in Hc. exists events, tracking.
    split; [reflexivity|]. split; [reflexivity|lia]. }
  assert (Hstep : ∀ a b, cursorInRange a → pageStep a b → cursorInRange b).
  { intros a b Hcur Hs. destruct Hs as
      [a written o b Hc H Hb|a written o b Hc H Hb|a b Hc Hb|a offset Hc|a delta Hc|a delta
       |a b Hc Hb|a b Hc Hb|a b Hc Hb|a v o b Hc H Hb|a parsed written b Hb|a
       |a tracking events Hrows].
    - unfold handleSync in H. destruct (currentTime a) as [[t|]|]; simpl in H;
        [|injection H as <-; simpl in Hb; subst b; exact Hcur|discriminate].
      injection H as <-. eapply syncCurrentEvent_cursor; eassumption.
    - unfold handleSyncToPrevious in H.
      destruct (previousEventSyncedTime a) as [[[t|]|]|]; simpl in H;
        [|discriminate|injection H as <-; simpl in Hb; subst b; exact Hcur|discriminate].
      injection H as <-. eapply syncCurrentEvent_cursor; eassumption.
    - destruct (Hloaded a Hcur Hc) as (events & tracking & Hev & Htr & Hi).
      unfold skipEvent in Hb. rewrite Hev, Htr in Hb.
      eapply moveCursor_cursor; [exact Hev|exact Htr| |exact Hb].
      pose proof (findFirstUnsynced_bounds (currentEventIndex a + 1) events (syncedResults a)).
      lia.
    - exact Hcur.
    - exact Hcur.
    - exact Hcur.
    - destruct (Hloaded a Hcur Hc) as (events & tracking & Hev & Htr & Hi).
      unfold prevEvent in Hb. rewrite Hev, Htr in Hb.
      eapply moveCursor_cursor; [exact Hev|exact Htr| |exact Hb]. lia.
    - destruct (Hloaded a Hcur Hc) as (events & tracking & Hev & Htr & Hi).
      unfold nextEvent in Hb. rewrite Hev, Htr in Hb.
      eapply moveCursor_cursor; [exact Hev|exact Htr| |exact Hb]. lia.
    - destruct (Hloaded a Hcur Hc) as (events & tracking & Hev & Htr & Hi).
      unfold nextUnsynced in Hb. rewrite Hev, Htr in Hb.
      eapply moveCursor_cursor; [exact Hev|exact Htr| |exact Hb].
      pose proof (findFirstUnsynced_bounds (currentEventIndex a + 1) events (syncedResults a)).
      lia.
    - destruct (Hloaded a Hcur Hc) as (events & tracking & Hev & Htr & Hi).
      unfold handleJump, jumpToEvent in H. rewrite Hev, Htr in H.
      destruct (clampedIndex (numRows events) v) as [newIndex|] eqn:Hclamp; [|discriminate].
      simpl in H. injection H as <-.
      apply clampedIndex_range in Hclamp; [|lia].
      eapply moveCursor_cursor; [exact Hev|exact Htr| |exact Hb]. lia.
    - destruct parsed as [message|value]; [simpl in Hb; subst b; exact Hcur|].
      destruct value; try (simpl in Hb; subst b; exact Hcur). simpl in Hb.
      destruct (collectResults entries ∅) as [key|results];
        [simpl in Hb; subst b; exact Hcur|].
      apply (uploadResults_cursor results written a b Hcur).
      destruct (uploadResults results written a); exact Hb.
    - reflexivity.
    - unfold cursorInRange. simpl. lia. }
  split; [apply Hstep|].
  assert (Hsteps : ∀ a b, rtc pageStep a b → cursorInRange a → cursorInRange b).
  { induction 1 as [a|a b c Hab _ IH]; intros Ha; [exact Ha|].
    apply IH. eapply Hstep; eassumption. }
  intros Hreach. apply (Hsteps initialState st Hreach). reflexivity.
Qed.

(** ** The object stores of a dataset *)

Lemma saveColumnar_lookup (data : ColumnarData) k :
  saveColumnar data !! k
  = if decide (k ∈ fieldNames data) then Some (ColumnValue (columns data !! k))
    else if decide (k = "_meta") then Some (MetaValue (numRows data) (fieldNames data))
    else None.
Proof.
  unfold saveColumnar.
  assert (H0 : ∀ store : gmap string storeValue,
    foldl (λ store fieldName, <[fieldName := ColumnValue (columns data !! fieldName)]> store)
      store (fieldNames data) !! k
    = if decide (k ∈ fieldNames data) then Some (ColumnValue (columns data !! k))
      else store !! k).
  { generalize (fieldNames data) as names.
    induction names as [|n names IH]; intros store; simpl.
    - destruct (decide (k ∈ [])) as [H|_]; [inversion H|reflexivity].
    - rewrite IH. destruct (decide (k ∈ names)) as [Hin|Hnin].
      + rewrite decide_True by (right; exact Hin). reflexivity.
      + destruct (decide (k = n)) as [->|Hne].
        * rewrite decide_True by left. apply lookup_insert_eq.
        * rewrite decide_False by (intros H; apply elem_of_cons in H as [?|?]; auto).
          apply lookup_insert_ne. congruence. }
  rewrite H0. destruct (decide (k ∈ fieldNames data)); [reflexivity|].
  destruct (decide (k = "_meta")) as [->|Hne].
  - apply lookup_insert_eq.
  - rewrite lookup_insert_ne by congruence. apply lookup_empty.
Qed.

Lemma loadColumns_saved (data : ColumnarData) (names : list string)
    (cols : gmap string (list jsval)) :
  names ⊆ fieldNames data →
  ∃ cols' : gmap string (list jsval),
    loadColumns (saveColumnar data) names cols = Some cols' ∧
    ∀ k, cols' !! k
         = if decide (k ∈ names)
           then match columns data !! k with Some col => Some col | None => cols !! k end
           else cols !! k.
Proof.
  revert cols. induction names as [|n names IH]; intros cols Hsub; simpl.
  - exists cols. split; [reflexivity|]. intros k.
    destruct (decide (k ∈ [])) as [H|_]; [inversion H|reflexivity].
  - assert (Hn : n ∈ fieldNames data) by (apply Hsub; left).
    assert (Hrest : names ⊆ fieldNames data) by (intros x Hx; apply Hsub; right; exact Hx).
    rewrite saveColumnar_lookup, decide_True by exact Hn.
    destruct (columns data !! n) as [col|] eqn:Hcol.
    + destruct (IH (<[n := col]> cols) Hrest) as (cols' & Hload & Hlook).
      exists cols'. split; [exact Hload|]. intros k. rewrite Hlook.
      destruct (decide (k ∈ names)) as [Hin|Hnin].
      * rewrite decide_True by (right; exact Hin).
        destruct (columns data !! k) eqn:Hk; [reflexivity|].
        apply lookup_insert_ne. congruence.
      * destruct (decide (k = n)) as [->|Hne].
        -- rewrite decide_True by left. rewrite Hcol. apply lookup_insert_eq.
        -- rewrite decide_False by (intros H; apply elem_of_cons in H as [?|?]; auto).
           apply lookup_insert_ne. congruence.
    + destruct (IH cols Hrest) as (cols' & Hload & Hlook).
      exists cols'. split; [exact Hload|]. intros k. rewrite Hlook.
      destruct (decide (k ∈ names)) as [Hin|Hnin].
      * rewrite decide_True by (right; exact Hin). reflexivity.
      * destruct (decide (k = n)) as [->|Hne].
        -- rewrite decide_True by left. rewrite Hcol. reflexivity.
        -- rewrite decide_False by (intros H; apply elem_of_cons in H as [?|?]; auto).
           reflexivity.
Qed.

Lemma loadColumnar_saved (data : ColumnarData) :
  "_meta" ∉ fieldNames data →
  loadColumnar (saveColumnar data) = Some (Some (listedColumns data)).
Proof.
  intros Hmeta. unfold loadColumnar.
  rewrite saveColumnar_lookup, decide_False, decide_True by auto.
  destruct (loadColumns_saved data (fieldNames data) ∅) as (cols' & Hload & Hlook);
    [set_solver|].
  rewrite Hload. simpl. do 2 f_equal. unfold listedColumns. f_equal.
  apply map_eq. intros k. rewrite Hlook, lookup_empty.
  apply option_eq. intros col. rewrite map_lookup_filter_Some. simpl.
  destruct (decide (k ∈ fieldNames data)) as [Hin|Hnin].
  - destruct (columns data !! k); split; try intros [? ?]; auto; discriminate.
  - split; [discriminate|]. intros [_ ?]. contradiction.
Qed.

(** X9: what [saveTrackingData] and [saveEventsData] write is read back by
    [loadTrackingData] and [loadEventsData] as the dataset with its row
    count, its field names and the columns its field names list; a column
    that no field name lists is not stored.  A dataset with a field called ["_meta"] overwrites the
    record of its own row count and field names, and loading it throws. *)
Theorem saved_dataset_reloads (data : ColumnarData) :
  ("_meta" ∉ fieldNames data →
   loadColumnar (saveColumnar data) = Some (Some (listedColumns data)) ∧
   ((∀ name, is_Some (columns data !! name) → name ∈ fieldNames data) →
    listedColumns data = data)) ∧
  ("_meta" ∈ fieldNames data → loadColumnar (saveColumnar data) = None).
Proof.
  split.
  - intros Hmeta. split; [apply loadColumnar_saved; exact Hmeta|].
    intros Hall. destruct data as [cols rows names]. unfold listedColumns. simpl in *.
    f_equal. apply map_eq. intros k. apply option_eq. intros col.
    rewrite map_lookup_filter_Some. simpl. split; [intros [? _]; auto|].
    intros Hk. split; [exact Hk|]. apply Hall. rewrite Hk. eauto.
  - intros Hmeta. unfold loadColumnar.
    rewrite saveColumnar_lookup, decide_True by exact Hmeta. reflexivity.
Qed.

(** ** Reloading the page *)

Lemma loadColumnar_meta store data :
  loadColumnar store = Some (Some data) → is_Some (store !! "_meta").
Proof.
  unfold loadColumnar. destruct (store !! "_meta") as [[rows names|col]|]; [eauto| |];
    discriminate.
Qed.

Lemma loadFromStorage_agrees db p st events tracking :
  storeAgrees db st →
  eventsData st = Some events →
  trackingData st = Some tracking →
  indexedColumns events ∨ numRows events <= findFirstUnsynced 0 events (syncedResults st) →
  loadFromStorage db p
  = mkProvider
      (mkAppState (Some events) (Some tracking) (syncedResults st)
         (findFirstUnsynced 0 events (syncedResults st)) 0 (lastSyncOffset (app p)))
      (loadMetadata db) false true.
Proof.
  intros (Hev & Htr & Hres) Hevents Htracking Hcols.
  rewrite Hevents in Hev. rewrite Htracking in Htr.
  unfold loadFromStorage.
  assert (Hstored : hasStoredData db = true).
  { unfold hasStoredData. apply andb_true_iff.
    split; apply bool_decide_eq_true; eapply loadColumnar_meta; eauto. }
  rewrite Hstored, Htr, Hev, Hres.
  destruct Hcols as [[Hpc Htc]|Hpast].
  - rewrite updateOffsetForEvent_after_scan by assumption. reflexivity.
  - rewrite updateOffsetForEvent_past_end by exact Hpast. reflexivity.
Qed.

(** With nothing confirmed the scan from the first row stops there, unless
    the id of the first event is a name that every object inherits. *)
Lemma findFirstUnsynced_nothing events :
  numRows events <= 0 ∨ derivedId events 0 ∉ Object_prototype →
  findFirstUnsynced 0 events ∅ = 0.
Proof.
  intros Hfirst. unfold findFirstUnsynced.
  destruct (Z.to_nat (numRows events - 0)) as [|fuel]; simpl; [reflexivity|].
  destruct (0 <? numRows events) eqn:Hrows; [|reflexivity].
  apply Z.ltb_lt in Hrows. destruct Hfirst as [Hnone|Hown]; [lia|].
  replace (has_key _ ∅) with false; [reflexivity|].
  symmetry. apply has_key_false. split; [apply lookup_empty|].
  fold (eventId events 0). rewrite eventId_derived. exact Hown.
Qed.

(** X10: a reload after [saveData] restores the two datasets as they were
    stored, with the cursor on the first event that the results store does
    not hold and the offset at 0.  [saveData] starts the page with no
    confirmation but does not write the results store: what that store held
    before comes back as confirmed on the reload, and the reload resumes the
    saved state when the store held no results and the id of the first
    event is not a name that every object inherits. *)
Theorem saveData_reload (tracking events : ColumnarData) (meta : Metadata)
    (db : Database) (p : Provider) :
  "_meta" ∉ fieldNames tracking →
  "_meta" ∉ fieldNames events →
  is_Some (columns (listedColumns events) !! "period_id") →
  is_Some (columns (listedColumns events) !! "matched_time") →
  let saved := saveData tracking events meta db p in
  let stored := loadSyncedResults db in
  app saved.2 = savedState tracking events
  ∧ loadFromStorage saved.1 saved.2
    = mkProvider
        (mkAppState (Some (listedColumns events)) (Some (listedColumns tracking)) stored
           (findFirstUnsynced 0 (listedColumns events) stored) 0 0)
        (Some meta) false true
  ∧ (syncedResultsStore db !! "main" = None →
     numRows events <= 0 ∨ derivedId (listedColumns events) 0 ∉ Object_prototype →
     app (loadFromStorage saved.1 saved.2)
     = savedState (listedColumns tracking) (listedColumns events)).
Proof.
  intros Htm Hem Hpc Htc saved stored.
  assert (Hload : loadFromStorage saved.1 saved.2
    = mkProvider
        (mkAppState (Some (listedColumns events)) (Some (listedColumns tracking)) stored
           (findFirstUnsynced 0 (listedColumns events) stored) 0 0)
        (Some meta) false true).
  { rewrite (loadFromStorage_agrees saved.1 saved.2
               (mkAppState (Some (listedColumns events)) (Some (listedColumns tracking))
                  stored 0 0 0) (listedColumns events) (listedColumns tracking));
      try reflexivity.
    - simpl. unfold loadMetadata. simpl. rewrite lookup_insert_eq. reflexivity.
    - split; [|split]; simpl.
      + unfold loadEventsData. simpl. rewrite loadColumnar_saved by assumption. reflexivity.
      + unfold loadTrackingData. simpl. rewrite loadColumnar_saved by assumption.
        reflexivity.
      + reflexivity.
    - left. split; assumption. }
  split; [reflexivity|]. split; [exact Hload|].
  intros Hnone Hfirst. rewrite Hload. simpl.
  assert (Hs : stored = ∅).
  { unfold stored, loadSyncedResults. rewrite Hnone. reflexivity. }
  rewrite Hs, findFirstUnsynced_nothing by exact Hfirst. reflexivity.
Qed.

Lemma saveData_reload_example :
  let start := mkProvider initialState None false false in
  let saved := saveData exampleTracking exampleEvents exampleMetadata exampleDatabase start in
  let stored := loadSyncedResults exampleDatabase in
  loadFromStorage saved.1 saved.2
  = mkProvider
      (mkAppState (Some (listedColumns exampleEvents)) (Some (listedColumns exampleTracking))
         stored (findFirstUnsynced 0 (listedColumns exampleEvents) stored) 0 0)
      (Some exampleMetadata) false true
  ∧ syncedResults (app saved.2) = ∅
  ∧ stored = <["E1" := 1100%Q]> ∅
  ∧ findFirstUnsynced 0 (listedColumns exampleEvents) stored = 1.
Proof.
  intros start saved stored.
  split; [|split; [reflexivity|split; vm_compute; reflexivity]].
  refine (proj1 (proj2 (saveData_reload exampleTracking exampleEvents exampleMetadata
                          exampleDatabase start _ _ _ _))).
  - intros H. repeat (apply elem_of_cons in H as [H|H]; [discriminate|]). inversion H.
  - intros H. repeat (apply elem_of_cons in H as [H|H]; [discriminate|]). inversion H.
  - vm_compute. eauto.
  - vm_compute. eauto.
Defined.

(** Where the id of the first event is [toString], the reload after
    [saveData] on an empty store starts on the second event, not on the
    first one as the saved state does. *)
Lemma saveData_reload_inherited_id :
  let start := mkProvider initialState None false false in
  let saved := saveData exampleTracking namedEvents exampleMetadata emptyDatabase start in
  currentEventIndex (app saved.2) = 0 ∧
  currentEventIndex (app (loadFromStorage saved.1 saved.2)) = 1.
Proof. split; vm_compute; reflexivity. Qed.

(** X11: while the store holds the datasets and the confirmations of the
    page, a confirmation and an import whose write resolves write what they
    set, so the store still holds the datasets and the confirmations of
    every state they may end in, and so it does after a reset.  A reload
    then restores the datasets and every confirmation, with the cursor on
    the first unsynced event counted from the first row; where the events
    have the two columns [updateOffsetForEvent] indexes, or no event is left
    unsynced, it sets the offset to 0, leaves the offset of the last
    confirmation as it was and ends with [hasData]; otherwise it ends in its
    [catch], the offset untouched and [hasData] false. *)
Theorem confirmations_survive_reload (db : Database) (p : Provider) (st : AppState)
    (events tracking : ColumnarData) :
  storeAgrees db st →
  eventsData st = Some events →
  trackingData st = Some tracking →
  let firstUnsynced := findFirstUnsynced 0 events (syncedResults st) in
  (∀ t st', stateAfter (syncCurrentEvent t true st) st' →
     storeAgrees (storeAfterSync t true st db) st')
  ∧ (∀ results st', stateAfter (uploadResults results true st) st' →
       storeAgrees (storeAfterUpload results true st db) st')
  ∧ storeAgrees (resetAll db p).1 (app (resetAll db p).2)
  ∧ (indexedColumns events ∨ numRows events <= firstUnsynced →
     loadFromStorage db p
     = mkProvider
         (mkAppState (Some events) (Some tracking) (syncedResults st)
            firstUnsynced 0 (lastSyncOffset (app p)))
         (loadMetadata db) false true)
  ∧ (¬ indexedColumns events → firstUnsynced < numRows events →
     loadFromStorage db p
     = mkProvider
         (mkAppState (Some events) (Some tracking) (syncedResults st)
            firstUnsynced (frameOffset (app p)) (lastSyncOffset (app p)))
         (loadMetadata db) false false).
Proof.
  intros Hagree Hevents Htracking firstUnsynced.
  assert (Hstore : ∀ results (st' : AppState) db',
            eventsData st' = Some events → trackingData st' = Some tracking →
            syncedResults st' = results →
            db' = saveSyncedResults results db → storeAgrees db' st').
  { intros results st' db' Hev' Htr' Hres' ->. destruct Hagree as (Hev & Htr & _).
    rewrite Hevents in Hev. rewrite Htracking in Htr.
    split; [rewrite Hev'; exact Hev|]. split; [rewrite Htr'; exact Htr|].
    unfold loadSyncedResults. simpl. rewrite lookup_insert_eq, Hres'. reflexivity. }
  split; [|split; [|split; [|split]]].
  - intros t st'. unfold syncCurrentEvent, storeAfterSync.
    rewrite Hevents, Htracking.
    destruct (numRows events <=? currentEventIndex st);
      [simpl; intros ->; exact Hagree|].
    cbv zeta. simpl orb. cbv iota. apply recompute_stateAfter.
    + intros offset. eapply Hstore; reflexivity.
    + eapply Hstore; reflexivity.
  - intros results st'. unfold uploadResults, storeAfterUpload.
    rewrite Hevents, Htracking. cbv zeta. apply recompute_stateAfter.
    + intros offset. eapply Hstore; reflexivity.
    + eapply Hstore; reflexivity.
  - split; [reflexivity|]. split; reflexivity.
  - intros Hcols. apply loadFromStorage_agrees; assumption.
  - intros Hcols Hin. destruct Hagree as (Hev & Htr & Hres).
    rewrite Hevents in Hev. rewrite Htracking in Htr.
    unfold loadFromStorage.
    assert (Hstored : hasStoredData db = true).
    { unfold hasStoredData. apply andb_true_iff.
      split; apply bool_decide_eq_true; eapply loadColumnar_meta; eauto. }
    rewrite Hstored, Htr, Hev, Hres. fold firstUnsynced.
    destruct (updateOffsetForEvent_missing firstUnsynced events tracking (syncedResults st) 0)
      as [-> _]; [exact Hin| |reflexivity].
    destruct (columns events !! "period_id") as [pc|] eqn:Hpc; [|left; reflexivity].
    destruct (columns events !! "matched_time") as [tc|] eqn:Htc; [|right; reflexivity].
    exfalso. apply Hcols. split; [rewrite Hpc|rewrite Htc]; eauto.
Qed.

Lemma confirmations_survive_reload_example :
  storeAgrees exampleDatabase resumedState
  ∧ loadFromStorage exampleDatabase (mkProvider initialState None true false)
    = mkProvider
        (mkAppState (Some exampleEvents) (Some exampleTracking) (<["E1" := 1100%Q]> ∅) 1 0 0)
        (Some exampleMetadata) false true.
Proof.
  assert (Hagree : storeAgrees exampleDatabase resumedState).
  { split; [|split]; vm_compute; reflexivity. }
  split; [exact Hagree|].
  refine (proj1 (proj2 (proj2 (proj2 (confirmations_survive_reload exampleDatabase
                                 (mkProvider initialState None true false) resumedState
                                 exampleEvents exampleTracking Hagree eq_refl eq_refl)))) _).
  left. split; vm_compute; eauto.
Defined.

(** ** Jersey numbers *)

Lemma strict_eq_refl_Fin q : strict_eq (JNum (Fin q)) (JNum (Fin q)) = true.
Proof. simpl. apply Qeq_bool_iff. reflexivity. Qed.

Lemma same_value_zero_sym a b : same_value_zero a b = same_value_zero b a.
Proof.
  destruct a as [| |[|p]|s], b as [| |[|q]|t]; simpl; try reflexivity.
  - destruct (Qeq_bool p q) eqn:H; symmetry.
    + apply Qeq_bool_iff. symmetry. apply Qeq_bool_iff. exact H.
    + destruct (Qeq_bool q p) eqn:H'; [|reflexivity].
      apply Qeq_bool_iff in H'. symmetry in H'. apply Qeq_bool_iff in H'. congruence.
  - apply bool_decide_ext. split; congruence.
Qed.

Lemma same_value_zero_trans a b c :
  same_value_zero a b = true → same_value_zero b c = true → same_value_zero a c = true.
Proof.
  destruct a as [| |[|p]|s], b as [| |[|q]|t], c as [| |[|r]|u]; simpl;
    try discriminate; try reflexivity.
  - intros H1 H2. apply Qeq_bool_iff in H1, H2. apply Qeq_bool_iff.
    rewrite H1. exact H2.
  - intros H1 H2. apply bool_decide_eq_true in H1, H2. apply bool_decide_eq_true.
    congruence.
Qed.

Lemma same_value_zero_left a b c :
  same_value_zero a b = true → same_value_zero a c = same_value_zero b c.
Proof.
  intros Hab. destruct (same_value_zero b c) eqn:Hbc.
  - eapply same_value_zero_trans; eauto.
  - destruct (same_value_zero a c) eqn:Hac; [|reflexivity].
    rewrite same_value_zero_sym in Hab.
    rewrite (same_value_zero_trans _ _ _ Hab Hac) in Hbc. discriminate.
Qed.

Lemma Map_get_set key k v (m : JsMap) :
  Map_get key (Map_set k v m)
  = if same_value_zero k key then Some v else Map_get key m.
Proof.
  induction m as [|[k0 v0] rest IH]; simpl; [reflexivity|].
  destruct (same_value_zero k0 k) eqn:Hk; simpl.
  - rewrite (same_value_zero_left k0 k key Hk).
    destruct (same_value_zero k key); reflexivity.
  - rewrite IH. destruct (same_value_zero k0 key) eqn:H0; [|reflexivity].
    destruct (same_value_zero k key) eqn:H1; [|reflexivity].
    rewrite same_value_zero_sym in H1.
    rewrite (same_value_zero_trans _ _ _ H0 H1) in Hk. discriminate.
Qed.

(** What the map holds for a key after the rows [0 .. n-1]: the jersey of
    the last row of the key, if there is one. *)
Lemma playerJerseyMap_last ids jerseys key (n : nat) :
  let m := playerJerseyMap ids jerseys (Z.of_nat n) in
  (∀ r, jerseyRow (Z.of_nat n) ids jerseys key r →
        (∀ r', jerseyRow (Z.of_nat n) ids jerseys key r' → r' <= r) →
        Map_get key m = Some (at_index jerseys r))
  ∧ ((∀ r, ¬ jerseyRow (Z.of_nat n) ids jerseys key r) → Map_get key m = None).
Proof.
  unfold playerJerseyMap. induction n as [|n IH].
  - simpl. split; [|reflexivity]. intros r (Hr & _). lia.
  - rewrite seqZ_S. rewrite foldl_app. simpl. rewrite Z.add_0_l.
    set (m := foldl (addPlayer ids jerseys) [] (seqZ 0 (Z.of_nat n))) in *.
    destruct IH as [IHlast IHnone].
    unfold addPlayer.
    destruct (hasJersey (at_index ids (Z.of_nat n)) (at_index jerseys (Z.of_nat n)))
      eqn:Hhas.
    + rewrite Map_get_set.
      destruct (same_value_zero (at_index ids (Z.of_nat n)) key) eqn:Hkey.
      * assert (Hn : jerseyRow (Z.of_nat (S n)) ids jerseys key (Z.of_nat n)).
        { split; [lia|]. split; assumption. }
        split.
        -- intros r (Hr & _) Hmax. specialize (Hmax _ Hn).
           assert (r = Z.of_nat n) as -> by lia. reflexivity.
        -- intros Hno. exfalso. exact (Hno _ Hn).
      * split.
        -- intros r (Hr & Hj & Hk) Hmax.
           assert (r ≠ Z.of_nat n) by (intros ->; congruence).
           apply IHlast; [split; [lia|split; assumption]|].
           intros r' (Hr' & Hj' & Hk'). apply Hmax. split; [lia|split; assumption].
        -- intros Hno. apply IHnone. intros r (Hr & Hj & Hk).
           apply (Hno r). split; [lia|split; assumption].
    + split.
      * intros r (Hr & Hj & Hk) Hmax.
        assert (r ≠ Z.of_nat n) by (intros ->; congruence).
        apply IHlast; [split; [lia|split; assumption]|].
        intros r' (Hr' & Hj' & Hk'). apply Hmax. split; [lia|split; assumption].
      * intros Hno. apply IHnone. intros r (Hr & Hj & Hk).
        apply (Hno r). split; [lia|split; assumption].
Qed.

Lemma playerJerseyMap_rows ids jerseys key (rows : Z) :
  let m := playerJerseyMap ids jerseys rows in
  (∀ r, jerseyRow rows ids jerseys key r →
        (∀ r', jerseyRow rows ids jerseys key r' → r' <= r) →
        Map_get key m = Some (at_index jerseys r))
  ∧ ((∀ r, ¬ jerseyRow rows ids jerseys key r) → Map_get key m = None).
Proof.
  assert (Hmap : playerJerseyMap ids jerseys rows
                 = playerJerseyMap ids jerseys (Z.of_nat (Z.to_nat rows))).
  { unfold playerJerseyMap, seqZ. rewrite Nat2Z.id. reflexivity. }
  assert (Hrow : ∀ r, jerseyRow rows ids jerseys key r
                      ↔ jerseyRow (Z.of_nat (Z.to_nat rows)) ids jerseys key r).
  { intros r. unfold jerseyRow. split; intros (Hr & H); (split; [lia|exact H]). }
  simpl. rewrite Hmap.
  destruct (playerJerseyMap_last ids jerseys key (Z.to_nat rows)) as [Hlast Hnone].
  split.
  - intros r Hr Hmax. apply Hlast; [apply Hrow; exact Hr|].
    intros r' Hr'. apply Hmax. apply Hrow. exact Hr'.
  - intros Hno. apply Hnone. intros r Hr. apply (Hno r). apply Hrow. exact Hr.
Qed.

Lemma at_index_fmap_seqZ (f : Z → jsval) (n i : Z) :
  0 <= i < n → at_index (f <$> seqZ 0 n) i = f i.
Proof.
  intros Hi. unfold at_index.
  destruct (i <? 0) eqn:Hneg; [apply Z.ltb_lt in Hneg; lia|].
  rewrite list_lookup_fmap.
  rewrite (lookup_seqZ_lt 0 n (Z.to_nat i)) by lia. simpl.
  f_equal. lia.
Qed.

(** X12: with the three columns it reads, [mapJerseyNumbersToEvents] keeps
    the rows and every other column of the events and sets ["jersey_no"], one
    cell per event: the jersey of the last tracking row of the event's
    player (a row counts when its player id is not null, undefined or -1 and
    its jersey is not null or undefined), and null when no tracking row is
    of that player. *)
Theorem mapJerseyNumbersToEvents_last_row (events tracking : ColumnarData)
    (ids jerseys players : list jsval) :
  columns tracking !! "player_opta_id" = Some ids →
  columns tracking !! "jersey_no" = Some jerseys →
  columns events !! "player_id" = Some players →
  0 <= numRows events <= 2 ^ 32 - 1 →
  ∃ mapped,
    mapJerseyNumbersToEvents events tracking
    = Some (mkColumnarData (<["jersey_no" := mapped]> (columns events)) (numRows events)
              (if bool_decide ("jersey_no" ∈ fieldNames events) then fieldNames events
               else fieldNames events ++ ["jersey_no"]))
    ∧ Z.of_nat (length mapped) = numRows events
    ∧ ∀ i, 0 <= i < numRows events →
        (∀ r, jerseyRow (numRows tracking) ids jerseys (at_index players i) r →
              (∀ r', jerseyRow (numRows tracking) ids jerseys (at_index players i) r' →
                     r' <= r) →
              at_index mapped i = at_index jerseys r)
        ∧ ((∀ r, ¬ jerseyRow (numRows tracking) ids jerseys (at_index players i) r) →
           at_index mapped i = JNull).
Proof.
  intros Hids Hjerseys Hplayers Hrows.
  unfold mapJerseyNumbersToEvents. rewrite Hids, Hjerseys, Hplayers.
  destruct (numRows events <? 0) eqn:Hneg; [apply Z.ltb_lt in Hneg; lia|].
  destruct (2 ^ 32 - 1 <? numRows events) eqn:Hbig; [apply Z.ltb_lt in Hbig; lia|].
  simpl. eexists. split; [reflexivity|].
  split; [rewrite length_fmap, length_seqZ; lia|].
  intros i Hi. rewrite at_index_fmap_seqZ by exact Hi.
  unfold mappedJerseyNo.
  destruct (playerJerseyMap_rows ids jerseys (at_index players i) (numRows tracking))
    as [Hlast Hnone].
  split.
  - intros r Hr Hmax.
    destruct (isNullish (at_index players i)) eqn:Hnull.
    + destruct Hr as (_ & Hj & Hk). exfalso.
      unfold hasJersey in Hj.
      destruct (at_index ids r) as [| |[|p]|s], (at_index players i) as [| |[|q]|t];
        simpl in *; discriminate.
    + rewrite (Hlast r Hr Hmax). reflexivity.
  - intros Hno. destruct (isNullish (at_index players i)); [reflexivity|].
    rewrite (Hnone Hno). reflexivity.
Qed.

(** Player 7 gets the jersey of its last row (11, not 10); the unknown
    player and the event without a player get null. *)
Lemma mapJerseyNumbersToEvents_last_row_example :
  mapJerseyNumbersToEvents jerseyEvents jerseyTracking
  = Some (mkColumnarData
            (<["jersey_no" := [JInt 11; JNull; JNull]]> (columns jerseyEvents)) 3
            ["player_id"; "jersey_no"]).
Proof.
  destruct (mapJerseyNumbersToEvents_last_row jerseyEvents jerseyTracking
              [JInt 7; JInt 9; JInt (-1); JInt 7] [JInt 10; JInt 4; JInt 0; JInt 11]
              [JInt 7; JInt 8; JNull])
    as (mapped & Hmap & Hlen & Hcells); [reflexivity|reflexivity|reflexivity|simpl; lia|].
  rewrite Hmap. simpl in Hlen.
  destruct mapped as [|a [|b [|c [|d rest]]]]; simpl in Hlen; try lia.
  assert (Hnone : ∀ playerId, playerId = JInt 8 ∨ playerId = JNull →
            ∀ r, ¬ jerseyRow (numRows jerseyTracking)
                     [JInt 7; JInt 9; JInt (-1); JInt 7]
                     [JInt 10; JInt 4; JInt 0; JInt 11] playerId r).
  { intros playerId Hp r (Hr & Hj & Hk). simpl in Hr.
    assert (Hcase : r = 0 ∨ r = 1 ∨ r = 2 ∨ r = 3) by lia.
    destruct Hcase as [Hc|[Hc|[Hc|Hc]]]; subst r;
      destruct Hp as [Hp|Hp]; subst playerId; vm_compute in Hj, Hk; discriminate. }
  destruct (Hcells 0) as [H0 _]; [simpl; lia|].
  destruct (Hcells 1) as [_ H1]; [simpl; lia|].
  destruct (Hcells 2) as [_ H2]; [simpl; lia|].
  specialize (H0 3). specialize (H1 (Hnone _ (or_introl eq_refl))).
  specialize (H2 (Hnone _ (or_intror eq_refl))).
  assert (Ha : a = JInt 11).
  { apply H0.
    - split; [simpl; lia|]. split; reflexivity.
    - intros r' (Hr' & _). simpl in Hr'. lia. }
  change (b = JNull) in H1. change (c = JNull) in H2.
  rewrite Ha, H1, H2. reflexivity.
Defined.

(** ** The two teams *)

Lemma existsb_same_value_zero a b (l : list jsval) :
  same_value_zero a b = true →
  existsb (same_value_zero a) l = existsb (same_value_zero b) l.
Proof.
  intros Hab. induction l as [|x l IH]; simpl; [reflexivity|].
  rewrite IH, (same_value_zero_left a b x Hab). reflexivity.
Qed.

Lemma Set_from_has (l : list jsval) v :
  existsb (same_value_zero v) (foldl Set_add [] l) = existsb (same_value_zero v) l.
Proof.
  induction l as [|x l IH] using rev_ind; [reflexivity|].
  rewrite foldl_app. simpl. unfold Set_add at 1.
  rewrite existsb_app. simpl. rewrite orb_false_r.
  destruct (existsb (same_value_zero x) (foldl Set_add [] l)) eqn:Hx.
  - rewrite IH. destruct (same_value_zero v x) eqn:Hvx; [|rewrite orb_false_r; reflexivity].
    rewrite orb_true_r. rewrite <- IH.
    rewrite (existsb_same_value_zero v x _ Hvx). exact Hx.
  - rewrite existsb_app. simpl. rewrite orb_false_r, IH. reflexivity.
Qed.

Lemma isTeamId_same_value_zero a b :
  same_value_zero a b = true → isTeamId a = isTeamId b.
Proof.
  intros Hab. unfold isTeamId.
  destruct a as [| |[|p]|s], b as [| |[|q]|t]; simpl in *; try discriminate;
    try reflexivity.
  apply Qeq_bool_iff in Hab. do 2 f_equal.
  destruct (Qeq_bool p _) eqn:Hp, (Qeq_bool q _) eqn:Hq; try reflexivity.
  - apply Qeq_bool_iff in Hp. rewrite Hab in Hp. apply Qeq_bool_iff in Hp. congruence.
  - apply Qeq_bool_iff in Hq. rewrite <- Hab in Hq. apply Qeq_bool_iff in Hq. congruence.
Qed.

Lemma same_value_zero_refl a : same_value_zero a a = true.
Proof.
  destruct a as [| |[|p]|s]; simpl; try reflexivity.
  - apply Qeq_bool_iff. reflexivity.
  - apply bool_decide_eq_true. reflexivity.
Qed.

(** The first two members of the filtered set are the first two distinct
    team ids of the column, in row order. *)
Lemma uniqueTeamIds_first_two (l : list jsval) :
  match List.filter isTeamId (foldl Set_add [] l) with
  | [] => ∀ v, v ∈ l → isTeamId v = false
  | [a] =>
      isTeamId a = true ∧
      ∃ pre post, l = pre ++ a :: post
        ∧ (∀ v, v ∈ pre → isTeamId v = false)
        ∧ (∀ v, v ∈ post → isTeamId v = true → same_value_zero v a = true)
  | a :: b :: _ =>
      isTeamId a = true ∧ isTeamId b = true ∧ same_value_zero a b = false ∧
      ∃ pre post, l = pre ++ b :: post ∧ a ∈ pre
        ∧ (∀ v, v ∈ pre → isTeamId v = true → same_value_zero v a = true)
  end.
Proof.
  induction l as [|x l IH] using rev_ind.
  - simpl. intros v Hv. inversion Hv.
  - rewrite foldl_app. simpl. unfold Set_add at 1.
    pose proof (Set_from_has l x) as Hhas.
    destruct (existsb (same_value_zero x) (foldl Set_add [] l)) eqn:Hx.
    + (* [x] is already a member *)
      symmetry in Hhas. apply existsb_exists in Hhas as (e & He & Hxe).
      apply list_elem_of_In in He.
      destruct (List.filter isTeamId (foldl Set_add [] l)) as [|a [|b rest]].
      * intros v Hv. apply elem_of_app in Hv as [Hv|Hv]; [auto|].
        apply list_elem_of_singleton in Hv as ->.
        rewrite (isTeamId_same_value_zero x e Hxe). auto.
      * destruct IH as (Ha & pre & post & -> & Hpre & Hpost).
        split; [exact Ha|]. exists pre, (post ++ [x]).
        split; [rewrite <- app_assoc; reflexivity|]. split; [exact Hpre|].
        intros v Hv Hvalid. apply elem_of_app in Hv as [Hv|Hv]; [auto|].
        apply list_elem_of_singleton in Hv as ->.
        assert (Hevalid : isTeamId e = true)
          by (rewrite <- (isTeamId_same_value_zero x e Hxe); exact Hvalid).
        apply elem_of_app in He as [He|He];
          [rewrite (Hpre e He) in Hevalid; discriminate|].
        apply elem_of_cons in He as [->|He]; [exact Hxe|].
        eapply same_value_zero_trans; [exact Hxe|]. auto.
      * destruct IH as (Ha & Hb & Hab & pre & post & -> & Hin & Hpre).
        split; [exact Ha|]. split; [exact Hb|]. split; [exact Hab|].
        exists pre, (post ++ [x]). split; [rewrite <- app_assoc; reflexivity|].
        split; assumption.
    + (* [x] is a new member *)
      assert (Hnew : ∀ e, e ∈ l → same_value_zero x e = false).
      { intros e He. destruct (same_value_zero x e) eqn:Hxe; [|reflexivity].
        assert (Hex : existsb (same_value_zero x) l = true); [|congruence].
        apply existsb_exists. exists e.
        split; [apply list_elem_of_In; exact He|exact Hxe]. }
      rewrite List.filter_app. simpl.
      destruct (isTeamId x) eqn:Hvalid.
      * destruct (List.filter isTeamId (foldl Set_add [] l)) as [|a [|b rest]]; simpl.
        -- split; [exact Hvalid|]. exists l, []. split; [reflexivity|].
           split; [exact IH|]. intros v Hv. inversion Hv.
        -- destruct IH as (Ha & pre & post & -> & Hpre & Hpost).
           assert (Hain : a ∈ pre ++ a :: post)
             by (apply elem_of_app; right; left).
           split; [exact Ha|]. split; [exact Hvalid|].
           split; [rewrite same_value_zero_sym; apply Hnew; exact Hain|].
           exists (pre ++ a :: post), []. split; [reflexivity|].
           split; [exact Hain|].
           intros v Hv Hv'. apply elem_of_app in Hv as [Hv|Hv];
             [rewrite (Hpre v Hv) in Hv'; discriminate|].
           apply elem_of_cons in Hv as [->|Hv]; [apply same_value_zero_refl|auto].
        -- destruct IH as (Ha & Hb & Hab & pre & post & -> & Hin & Hpre).
           split; [exact Ha|]. split; [exact Hb|]. split; [exact Hab|].
           exists pre, (post ++ [x]). split; [rewrite <- app_assoc; reflexivity|].
           split; assumption.
      * rewrite app_nil_r.
        destruct (List.filter isTeamId (foldl Set_add [] l)) as [|a [|b rest]].
        -- intros v Hv. apply elem_of_app in Hv as [Hv|Hv]; [auto|].
           apply list_elem_of_singleton in Hv as ->. exact Hvalid.
        -- destruct IH as (Ha & pre & post & -> & Hpre & Hpost).
           split; [exact Ha|]. exists pre, (post ++ [x]).
           split; [rewrite <- app_assoc; reflexivity|]. split; [exact Hpre|].
           intros v Hv Hv'. apply elem_of_app in Hv as [Hv|Hv]; [auto|].
           apply list_elem_of_singleton in Hv as ->. congruence.
        -- destruct IH as (Ha & Hb & Hab & pre & post & -> & Hin & Hpre).
           split; [exact Ha|]. split; [exact Hb|]. split; [exact Hab|].
           exists pre, (post ++ [x]). split; [rewrite <- app_assoc; reflexivity|].
           split; assumption.
Qed.

(** X13: [handleStartSync] with both datasets parsed reports that it could
    not detect two teams exactly when all team ids of the tracking column
    (-1, null and undefined apart) are the same, a missing column included;
    when it reaches [saveData] it passes the tracking dataset as it is, the
    events with their jersey numbers, and as team ids the first two distinct
    team ids of the column in row order. *)
Theorem handleStartSync_two_teams (name : string) (tracking events : ColumnarData) :
  let col := default [] (columns tracking !! "team_opta_id") in
  let outcome := handleStartSync (Some name) (Some tracking) (Some events) in
  (outcome = NoTwoTeams
   ↔ ∀ a b, a ∈ col → b ∈ col → isTeamId a = true → isTeamId b = true →
            same_value_zero a b = true)
  ∧ (∀ tr ev meta,
       outcome = SaveData tr ev meta →
       tr = tracking
       ∧ mapJerseyNumbersToEvents events tracking = Some ev
       ∧ gameUuid meta = gameUuidOf name
       ∧ ∃ a b pre post,
           teamIds meta = [a; b] ∧ col = pre ++ b :: post ∧ a ∈ pre
           ∧ isTeamId a = true ∧ isTeamId b = true ∧ same_value_zero a b = false
           ∧ ∀ v, v ∈ pre → isTeamId v = true → same_value_zero v a = true).
Proof.
  intros col outcome. unfold outcome, handleStartSync, uniqueTeamIds, Set_from.
  fold col. pose proof (uniqueTeamIds_first_two col) as Hteams.
  destruct (List.filter isTeamId (foldl Set_add [] col)) as [|a [|b rest]]; simpl.
  - split; [|discriminate]. split; [|reflexivity].
    intros _ a b Ha _ Hvalid _. rewrite (Hteams a Ha) in Hvalid. discriminate.
  - destruct Hteams as (Ha & pre & post & Hcol & Hpre & Hpost).
    split; [|discriminate]. split; [|reflexivity].
    assert (Hall : ∀ v, v ∈ col → isTeamId v = true → same_value_zero v a = true).
    { intros v Hv Hvalid. rewrite Hcol in Hv.
      apply elem_of_app in Hv as [Hv|Hv]; [rewrite (Hpre v Hv) in Hvalid; discriminate|].
      apply elem_of_cons in Hv as [->|Hv]; [apply same_value_zero_refl|auto]. }
    intros _ x y Hx Hy Hxv Hyv.
    eapply same_value_zero_trans; [apply Hall; assumption|].
    rewrite same_value_zero_sym. apply Hall; assumption.
  - destruct Hteams as (Ha & Hb & Hab & pre & post & Hcol & Hin & Hpre).
    split.
    + split.
      * destruct (mapJerseyNumbersToEvents events tracking); discriminate.
      * intros Hsame. exfalso.
        rewrite (Hsame a b) in Hab; [discriminate| | |exact Ha|exact Hb]; rewrite Hcol.
        -- apply elem_of_app. left. exact Hin.
        -- apply elem_of_app. right. left.
    + intros tr ev meta.
      destruct (mapJerseyNumbersToEvents events tracking) as [withJersey|];
        [|discriminate].
      intros [= <- <- <-]. split; [reflexivity|]. split; [reflexivity|].
      split; [reflexivity|]. exists a, b, pre, post. simpl. auto 10.
Qed.

(** ** Importing what was exported *)

Lemma collectResults_numbers (l : list (string * Q)) (acc : SyncedResults) :
  collectResults (prod_map id JsonNumber <$> l) acc
  = inr (foldl (λ results entry, assign entry.1 entry.2 results) acc l).
Proof.
  revert acc. induction l as [|[k q] l IH]; intros acc; simpl; [reflexivity|].
  apply IH.
Qed.

Lemma foldl_assign_lookup (l : list (string * Q)) (acc : SyncedResults) k :
  NoDup l.*1 →
  foldl (λ results entry, assign entry.1 entry.2 results) acc l !! k
  = match (list_to_map l : SyncedResults) !! k with
    | Some q => if bool_decide (k = "__proto__") then acc !! k else Some q
    | None => acc !! k
    end.
Proof.
  revert acc. induction l as [|[k0 q0] l IH]; intros acc Hnd.
  - simpl. rewrite lookup_empty. reflexivity.
  - rewrite fmap_cons in Hnd. apply NoDup_cons in Hnd as [Hk0 Hnd].
    cbn [foldl]. rewrite IH by exact Hnd. rewrite list_to_map_cons.
    cbn [fst snd] in *. rewrite assign_lookup.
    destruct (decide (k = k0)) as [->|Hne].
    + rewrite (proj1 (not_elem_of_list_to_map l k0) Hk0).
      rewrite lookup_insert_eq.
      destruct (decide (k0 = "__proto__")) as [->|Hproto].
      * rewrite bool_decide_eq_false_2 by (intros [_ H]; congruence).
        rewrite bool_decide_eq_true_2 by reflexivity. reflexivity.
      * rewrite bool_decide_eq_true_2 by (split; [reflexivity|exact Hproto]).
        rewrite bool_decide_eq_false_2 by exact Hproto. reflexivity.
    + rewrite lookup_insert_ne by congruence.
      rewrite (bool_decide_eq_false_2 (k = k0 ∧ _)) by (intros [H _]; congruence).
      reflexivity.
Qed.

(** X14: the file [downloadResults] writes is accepted by the import,
    whatever the order of its members, and the map the import hands to
    [uploadResults] is the exported one without its key [__proto__], which
    the assignment of the import drops; it is the exported map itself when
    that has no such key.  With both datasets loaded and the write
    resolving, where the events have the two columns
    [updateOffsetForEvent] indexes or no event is left unsynced, the import
    sets the confirmations to that map, the cursor to the first unsynced
    event from the first row and both offsets to 0. *)
Theorem downloadResults_reimport (st : AppState) (events tracking : ColumnarData)
    (members : list (string * json)) :
  eventsData st = Some events →
  trackingData st = Some tracking →
  members ≡ₚ downloadResults st →
  let imported := delete "__proto__" (syncedResults st) in
  (∀ written,
     handleFileChange (inr (JsonObject members)) written st
     = afterUpload (uploadResults imported written st))
  ∧ (syncedResults st !! "__proto__" = None → imported = syncedResults st)
  ∧ (indexedColumns events ∨ numRows events <= findFirstUnsynced 0 events imported →
     handleFileChange (inr (JsonObject members)) true st
     = Applied (mkAppState (Some events) (Some tracking) imported
                  (findFirstUnsynced 0 events imported) 0 0)).
Proof.
  intros Hev Htr Hperm imported. unfold downloadResults in Hperm.
  assert (Hl : ∃ l : list (string * Q),
            members = prod_map id JsonNumber <$> l ∧ l ≡ₚ map_to_list (syncedResults st)).
  { revert Hperm. generalize (map_to_list (syncedResults st)) as l0.
    intros l0 Hperm.
    destruct (Permutation_map_inv (prod_map id JsonNumber) l0 Hperm) as (l & -> & Hl).
    exists l. split; [reflexivity|]. symmetry. exact Hl. }
  destruct Hl as (l & -> & Hl).
  assert (Hnd : NoDup l.*1).
  { rewrite Hl. apply NoDup_fst_map_to_list. }
  assert (Hres : foldl (λ results entry, assign entry.1 entry.2 results)
                   (∅ : SyncedResults) l = imported).
  { apply map_eq. intros k. rewrite foldl_assign_lookup by exact Hnd.
    rewrite (list_to_map_proper l (map_to_list (syncedResults st)) Hnd Hl).
    rewrite list_to_map_to_list, lookup_empty. unfold imported.
    destruct (decide (k = "__proto__")) as [->|Hne].
    - rewrite lookup_delete_eq, bool_decide_eq_true_2 by reflexivity.
      destruct (syncedResults st !! "__proto__"); reflexivity.
    - rewrite lookup_delete_ne, bool_decide_eq_false_2 by congruence.
      destruct (syncedResults st !! k); reflexivity. }
  assert (Hhandle : ∀ written,
            handleFileChange (inr (JsonObject (prod_map id JsonNumber <$> l))) written st
            = afterUpload (uploadResults imported written st)).
  { intros written. unfold handleFileChange. rewrite collectResults_numbers, Hres.
    reflexivity. }
  split; [exact Hhandle|]. split.
  - intros Hnone. unfold imported. apply delete_id. exact Hnone.
  - intros Hcols. rewrite Hhandle.
    destruct (uploadResults_state imported st events tracking Hev Htr) as [_ Hreset].
    rewrite (proj2 (Hreset Hcols)). reflexivity.
Qed.

Lemma downloadResults_reimport_example :
  handleFileChange (inr (JsonObject [("E2", JsonNumber 1900); ("E1", JsonNumber 1100)]))
    true confirmedState
  = Applied (mkAppState (Some exampleEvents) (Some exampleTracking)
               (delete "__proto__" (syncedResults confirmedState)) 2 0 0).
Proof.
  refine (proj2 (proj2 (downloadResults_reimport confirmedState exampleEvents exampleTracking
            [("E2", JsonNumber 1900); ("E1", JsonNumber 1100)] eq_refl eq_refl _)) _).
  - assert (Hd : downloadResults confirmedState
                 = [("E1", JsonNumber 1100); ("E2", JsonNumber 1900)]
                 ∨ downloadResults confirmedState
                   = [("E2", JsonNumber 1900); ("E1", JsonNumber 1100)]).
    { vm_compute. auto. }
    destruct Hd as [-> | ->]; [apply perm_swap|reflexivity].
  - left. split; vm_compute; eauto.
Defined.

(** ** The ids the page computes *)

(** The id the page computes from the row of an event is the id the provider
    computes from the id column. *)
Lemma getRow_eventId (events : ColumnarData) (index : Z) :
  namedColumns events → listedIds events →
  ∃ row, getRow events index = Some row
         ∧ js_String (nullish (field row "opta_event_id") (JInt index))
           = eventId events index.
Proof.
  intros Hnamed Hlisted.
  destruct (buildRow_lookup (columns events) (fieldNames events) index Hnamed ∅)
    as (row & Hrow & Hlook).
  exists row. split; [exact Hrow|].
  unfold eventId, eventIdOf, field. rewrite Hlook.
  destruct (decide ("opta_event_id" ∈ fieldNames events)) as [Hin|Hnin].
  - destruct (columns events !! "opta_event_id"); reflexivity.
  - destruct Hlisted as [Hin| ->]; [contradiction|]. rewrite lookup_empty. reflexivity.
Qed.

(** X15: on a dataset whose id column is one of its fields, the page and the
    provider compute the same event ids: the page marks the current event as
    synced exactly when the provider's test counts it as synced; what
    "same as previous" offers is what the results hold under the id of the
    event one row up: the time under an own key, an inherited member under
    an inherited name, nothing otherwise; and taking a time [t] it offers is
    confirming the current event at [t], which, when the write resolves,
    records [t] under the current id, leaves the previous event's
    confirmation in place, keeps the offset and makes it [lastSyncOffset]. *)
Theorem page_ids_agree (st : AppState) (events tracking : ColumnarData) :
  eventsData st = Some events →
  trackingData st = Some tracking →
  namedColumns events → listedIds events →
  0 < currentEventIndex st < numRows events →
  let i := currentEventIndex st in
  isCurrentSynced st = Some (isSynced events (syncedResults st) i)
  ∧ previousEventSyncedTime st
    = Some (member_of (derivedId events (i - 1)) (syncedResults st))
  ∧ ∀ t, syncedResults st !! derivedId events (i - 1) = Some t →
      (∀ written, handleSyncToPrevious written st = Some (syncCurrentEvent t written st))
      ∧ ∃ st',
          (syncCurrentEvent t true st = Returned st' ∨
           syncCurrentEvent t true st = Threw st')
          ∧ syncedResults st' = <[derivedId events i := t]> (syncedResults st)
          ∧ syncedResults st' !! derivedId events i = Some t
          ∧ syncedResults st' !! derivedId events (i - 1) = Some t
          ∧ frameOffset st' = frameOffset st
          ∧ lastSyncOffset st' = frameOffset st.
Proof.
  intros Hev Htr Hnamed Hlisted Hi i.
  assert (Hprev : previousEventSyncedTime st
                  = Some (member_of (derivedId events (i - 1)) (syncedResults st))).
  { unfold previousEventSyncedTime. fold i.
    destruct (i <=? 0) eqn:H0; [apply Z.leb_le in H0; lia|].
    rewrite Hev. simpl.
    destruct (numRows events <=? i - 1) eqn:Hle; [apply Z.leb_le in Hle; lia|].
    destruct (getRow_eventId events (i - 1) Hnamed Hlisted) as (row & -> & Hid).
    simpl. rewrite Hid, eventId_derived. reflexivity. }
  split; [|split; [exact Hprev|]].
  - unfold isCurrentSynced, currentEvent, getEventRow. rewrite Hev. fold i.
    destruct (numRows events <=? i) eqn:Hle; [apply Z.leb_le in Hle; lia|].
    destruct (getRow_eventId events i Hnamed Hlisted) as (row & -> & Hid).
    simpl. rewrite Hid. reflexivity.
  - intros t Ht. split.
    + intros written. unfold handleSyncToPrevious. rewrite Hprev. unfold member_of.
      rewrite Ht. reflexivity.
    + destruct (syncCurrentEvent_state t st events tracking Hev Htr)
        as (st' & Hcases & _ & _ & Hcur & Hres & _ & Hoff & Hlast); [lia|].
      fold i in Hcur, Hres.
      exists st'. split; [exact Hcases|]. split; [exact Hres|]. split; [exact Hcur|].
      split; [|split; assumption].
      rewrite Hres.
      destruct (decide (derivedId events i = derivedId events (i - 1))) as [Heq|Hne].
      * rewrite Heq. apply lookup_insert_eq.
      * rewrite lookup_insert_ne by exact Hne. exact Ht.
Qed.

Lemma page_ids_agree_example :
  let st := mkAppState (Some exampleEvents) (Some exampleTracking)
              (<["E1" := 1100%Q]> ∅) 1 3 2 in
  isCurrentSynced st = Some false
  ∧ previousEventSyncedTime st = Some (Some (OwnTime 1100%Q))
  ∧ ∃ st', handleSyncToPrevious true st = Some (Returned st')
      ∧ syncedResults st' !! "E2" = Some 1100%Q
      ∧ syncedResults st' !! "E1" = Some 1100%Q.
Proof.
  intros st.
  destruct (page_ids_agree st exampleEvents exampleTracking eq_refl eq_refl)
    as (Hsynced & Hprev & Hsame).
  - repeat constructor; vm_compute; eauto.
  - left. vm_compute. set_solver.
  - simpl. lia.
  - split; [exact Hsynced|]. split; [exact Hprev|].
    destruct (Hsame 1100%Q eq_refl) as (Hcall & st' & Hcases & _ & Hcur & Hprevious & _).
    exists st'. rewrite Hcall. split; [|split; [exact Hcur|exact Hprevious]].
    destruct Hcases as [->|Hthrew]; [reflexivity|discriminate Hthrew].
Defined.

(** ** Instructions for the events that are kept *)

Lemma getEventCategory_Qeq StringToNumber (q q' : Q) :
  (q == q')%Q →
  getEventCategory StringToNumber (JNum (Fin q))
  = getEventCategory StringToNumber (JNum (Fin q')).
Proof.
  intros Hq.
  assert (Heq : ∀ c, Qeq_bool c q = Qeq_bool c q').
  { intros c. destruct (Qeq_bool c q') eqn:H'.
    - apply Qeq_bool_iff. apply Qeq_bool_iff in H'. rewrite Hq. exact H'.
    - destruct (Qeq_bool c q) eqn:H; [|reflexivity].
      apply Qeq_bool_iff in H. rewrite Hq in H. apply Qeq_bool_iff in H. congruence. }
  assert (Heq' : ∀ c, Qeq_bool q c = Qeq_bool q' c).
  { intros c. destruct (Qeq_bool q' c) eqn:H'.
    - apply Qeq_bool_iff. apply Qeq_bool_iff in H'. rewrite Hq. exact H'.
    - destruct (Qeq_bool q c) eqn:H; [|reflexivity].
      apply Qeq_bool_iff in H. rewrite Hq in H. apply Qeq_bool_iff in H. congruence. }
  unfold getEventCategory, includes. simpl. rewrite !Heq, Heq'. reflexivity.
Qed.

(** X17: for an event type that is a number, the instructions are specific
    (not those of the category [other]) only for event types the upload
    keeps, and every event type the upload keeps has specific instructions
    except type 2. *)
Theorem getEventCategory_syncable StringToNumber (eventType : jsval) (q : Q) :
  eventType = JNum (Fin q) →
  (getEventCategory StringToNumber eventType ≠ other → syncable_has eventType = true)
  ∧ (syncable_has eventType = true →
     (getEventCategory StringToNumber eventType = other ↔ (q == 2)%Q)).
Proof.
  intros ->. split.
  - intros Hcat. apply syncable_has_member.
    unfold getEventCategory, includes in Hcat. simpl in Hcat.
    assert (Hz : ∀ z, Qeq_bool (inject_Z z) q = true → isNumber (JNum (Fin q)) z).
    { intros z Hz. exists q. split; [reflexivity|].
      apply Qeq_bool_iff in Hz. symmetry. exact Hz. }
    destruct (Qeq_bool (inject_Z 1) q) eqn:H1; [exists 1; split; [set_solver|apply Hz; exact H1]|].
    destruct (Qeq_bool (inject_Z 12) q) eqn:H12; [exists 12; split; [set_solver|apply Hz; exact H12]|].
    destruct (Qeq_bool (inject_Z 13) q) eqn:H13; [exists 13; split; [set_solver|apply Hz; exact H13]|].
    destruct (Qeq_bool (inject_Z 14) q) eqn:H14; [exists 14; split; [set_solver|apply Hz; exact H14]|].
    destruct (Qeq_bool (inject_Z 15) q) eqn:H15; [exists 15; split; [set_solver|apply Hz; exact H15]|].
    destruct (Qeq_bool (inject_Z 16) q) eqn:H16; [exists 16; split; [set_solver|apply Hz; exact H16]|].
    simpl in Hcat.
    destruct (Qeq_bool q (inject_Z 44)) eqn:H44.
    { exists 44. split; [set_solver|]. exists q. split; [reflexivity|].
      apply Qeq_bool_iff. exact H44. }
    destruct (Qeq_bool (inject_Z 8) q) eqn:H8; [exists 8; split; [set_solver|apply Hz; exact H8]|].
    destruct (Qeq_bool (inject_Z 49) q) eqn:H49; [exists 49; split; [set_solver|apply Hz; exact H49]|].
    simpl in Hcat.
    destruct (Qeq_bool (inject_Z 5) q) eqn:H5; [exists 5; split; [set_solver|apply Hz; exact H5]|].
    destruct (Qeq_bool (inject_Z 6) q) eqn:H6; [exists 6; split; [set_solver|apply Hz; exact H6]|].
    simpl in Hcat. congruence.
  - intros Hsync. apply syncable_has_member in Hsync as (z & Hz & q' & [= <-] & Hq).
    rewrite (getEventCategory_Qeq StringToNumber q (inject_Z z) Hq).
    rewrite Hq.
    repeat (apply elem_of_cons in Hz as [-> | Hz];
            [split; [intros H; vm_compute in H; try discriminate; reflexivity
                    |intros H; vm_compute; try reflexivity;
                     vm_compute in H; discriminate]|]).
    inversion Hz.
Qed.

Lemma getEventCategory_syncable_example :
  (getEventCategory (λ _, NaN) (JInt 2) = other ↔ (2 == 2)%Q)
  ∧ (getEventCategory (λ _, NaN) (JInt 49) = other ↔ (49 == 2)%Q).
Proof.
  split.
  - apply (getEventCategory_syncable (λ _, NaN) (JInt 2) 2 eq_refl). reflexivity.
  - apply (getEventCategory_syncable (λ _, NaN) (JInt 49) 49 eq_refl). reflexivity.
Defined.

(** ** The cursor after a reload *)

(** X19: a reload keeps the cursor between 0 and [numRows] with the two
    datasets loaded together, as the controls of the page do: when it
    succeeds, when it finds nothing stored or fails to load (the state is
    left as it was), and when it fails after it has set the datasets and the
    cursor.  The stored events are assumed to have a row count that is not
    negative. *)
Theorem loadFromStorage_keeps_cursor (db : Database) (p : Provider) :
  cursorInRange (app p) →
  (∀ events, loadEventsData db = Some (Some events) → 0 <= numRows events) →
  cursorInRange (app (loadFromStorage db p))
  ∧ (hasData (loadFromStorage db p) = true →
     is_Some (eventsData (app (loadFromStorage db p)))
     ∧ is_Some (trackingData (app (loadFromStorage db p)))).
Proof.
  intros Hcur Hrows. unfold loadFromStorage.
  destruct (hasStoredData db); [|split; [exact Hcur|discriminate]].
  destruct (loadTrackingData db) as [[tracking|]|]; try (split; [exact Hcur|discriminate]).
  destruct (loadEventsData db) as [[events|]|]; try (split; [exact Hcur|discriminate]).
  specialize (Hrows events eq_refl).
  pose proof (findFirstUnsynced_bounds 0 events (loadSyncedResults db)) as Hb.
  destruct (updateOffsetForEvent _ _ _ _ _) as [offset|]; simpl.
  - split; [|intros _; split; eauto]. unfold cursorInRange. simpl. lia.
  - split; [|discriminate]. unfold cursorInRange. simpl. lia.
Qed.

Lemma loadFromStorage_keeps_cursor_example :
  let reloaded := loadFromStorage exampleDatabase (mkProvider initialState None true false) in
  cursorInRange (app reloaded)
  ∧ (hasData reloaded = true →
     is_Some (eventsData (app reloaded)) ∧ is_Some (trackingData (app reloaded))).
Proof.
  apply loadFromStorage_keeps_cursor.
  - reflexivity.
  - intros events Hevents. vm_compute in Hevents.
    injection Hevents as <-. simpl. lia.
Defined.

(** ** Filtering what is already filtered *)

Lemma map_at_index_all (col : list jsval) :
  map (at_index col) (seqZ 0 (Z.of_nat (length col))) = col.
Proof.
  change (map (at_index col) (seqZ 0 (Z.of_nat (length col))))
    with (at_index col <$> seqZ 0 (Z.of_nat (length col))).
  apply list_eq. intros n. rewrite list_lookup_fmap.
  destruct (decide (n < length col)%nat) as [Hlt|Hge].
  - rewrite lookup_seqZ_lt by lia. simpl.
    destruct (lookup_lt_is_Some_2 col n Hlt) as [v Hv]. rewrite Hv.
    unfold at_index. destruct (0 + Z.of_nat n <? 0) eqn:Hneg;
      [apply Z.ltb_lt in Hneg; lia|].
    replace (Z.to_nat (0 + Z.of_nat n)) with n by lia. rewrite Hv. reflexivity.
  - rewrite lookup_seqZ_ge by lia. simpl. symmetry. apply lookup_ge_None. lia.
Qed.

Lemma filter_all (P : Z → Prop) `{!∀ i, Decision (P i)} (l : list Z) :
  Forall P l → filter P l = l.
Proof.
  induction 1 as [|i l Hi _ IH]; [reflexivity|].
  rewrite filter_cons, decide_True by exact Hi. rewrite IH. reflexivity.
Qed.

Lemma at_index_map (col : list jsval) (kept : list Z) (j : Z) (i : Z) :
  0 <= j → kept !! Z.to_nat j = Some i →
  at_index (map (at_index col) kept) j = at_index col i.
Proof.
  intros Hj Hi. unfold at_index at 1.
  destruct (j <? 0) eqn:Hneg; [apply Z.ltb_lt in Hneg; lia|].
  change (map (at_index col) kept) with (at_index col <$> kept).
  rewrite list_lookup_fmap, Hi. reflexivity.
Qed.

Lemma pickRows_length (col : option (list jsval)) (kept : list Z) (picked : list jsval) :
  pickRows col kept = Some picked → length picked = length kept.
Proof.
  unfold pickRows. destruct kept as [|k kept'].
  - intros [= <-]. reflexivity.
  - destruct col as [arr|]; [|discriminate]. intros [= <-].
    apply (length_map (at_index arr) (k :: kept')).
Qed.

Lemma filterColumns_length (cols : gmap string (list jsval)) (kept : list Z)
    (names : list string) (acc out : gmap string (list jsval)) :
  filterColumns cols kept names acc = Some out →
  (∀ name col, acc !! name = Some col → length col = length kept) →
  ∀ name col, out !! name = Some col → length col = length kept.
Proof.
  revert acc. induction names as [|name0 names IH]; intros acc Hout Hacc name col Hcol.
  - injection Hout as <-. eauto.
  - simpl in Hout.
    destruct (pickRows (cols !! name0) kept) as [picked|] eqn:Hpick; [|discriminate].
    simpl in Hout. eapply (IH _ Hout); [|exact Hcol].
    intros name' col' Hcol'.
    destruct (decide (name' = name0)) as [->|Hne].
    + rewrite lookup_insert_eq in Hcol'. injection Hcol' as <-.
      eapply pickRows_length. exact Hpick.
    + rewrite lookup_insert_ne in Hcol' by congruence. eauto.
Qed.

(** The loop writes a column under every field name and nothing else. *)
Lemma filterColumns_names (cols : gmap string (list jsval)) (kept : list Z)
    (names : list string) (acc out : gmap string (list jsval)) :
  filterColumns cols kept names acc = Some out →
  ∀ name, (name ∈ names → is_Some (out !! name))
          ∧ (name ∉ names → out !! name = acc !! name).
Proof.
  revert acc. induction names as [|name0 names IH]; intros acc Hout name.
  - injection Hout as <-. split; [intros H; inversion H|reflexivity].
  - simpl in Hout.
    destruct (pickRows (cols !! name0) kept) as [picked|] eqn:Hpick; [|discriminate].
    simpl in Hout. destruct (IH _ Hout name) as [Hin Hnin]. split.
    + intros H. destruct (decide (name ∈ names)) as [Hn|Hn]; [auto|].
      apply elem_of_cons in H as [->|H]; [|contradiction].
      rewrite (Hnin Hn), lookup_insert_eq. eauto.
    + intros H. rewrite Hnin by (intros Hn; apply H; right; exact Hn).
      apply lookup_insert_ne. intros ->. apply H. left.
Qed.

(** Picking every row of columns of the same length changes nothing. *)
Lemma filterColumns_all (cols : gmap string (list jsval)) (n : nat) (names : list string)
    (acc : gmap string (list jsval)) :
  (∀ name col, cols !! name = Some col → length col = n) →
  (∀ name, name ∈ names → is_Some (cols !! name)) →
  ∃ out, filterColumns cols (seqZ 0 (Z.of_nat n)) names acc = Some out
         ∧ ∀ name, out !! name = if decide (name ∈ names) then cols !! name
                                 else acc !! name.
Proof.
  intros Hlen. revert acc. induction names as [|name0 names IH]; intros acc Hnames.
  - exists acc. split; [reflexivity|]. intros name.
    destruct (decide (name ∈ [])) as [Hin|_]; [inversion Hin|reflexivity].
  - destruct (Hnames name0) as [col Hcol]; [left|].
    simpl. rewrite (pickRows_present cols name0 col _ Hcol). simpl.
    rewrite <- (Hlen name0 col Hcol), map_at_index_all.
    destruct (IH (<[name0 := col]> acc)) as (out & Hout & Hlook).
    { intros name Hin. apply Hnames. right. exact Hin. }
    rewrite <- (Hlen name0 col Hcol) in Hout.
    exists out. split; [exact Hout|]. intros name. rewrite Hlook.
    destruct (decide (name ∈ names)) as [Hin|Hnin].
    + rewrite decide_True by (right; exact Hin). reflexivity.
    + destruct (decide (name = name0)) as [->|Hne].
      * rewrite decide_True by left. rewrite lookup_insert_eq, Hcol. reflexivity.
      * rewrite decide_False by (intros H; apply elem_of_cons in H as [?|?]; auto).
        apply lookup_insert_ne. congruence.
Qed.

(** A column of the filtered dataset holds the picked cells of the column
    of the same name. *)
Lemma filterColumns_picked (cols : gmap string (list jsval)) (kept : list Z)
    (names : list string) (acc out : gmap string (list jsval)) name col picked :
  filterColumns cols kept names acc = Some out →
  name ∈ names → cols !! name = Some col → out !! name = Some picked →
  picked = map (at_index col) kept.
Proof.
  revert acc. induction names as [|name0 names IH]; intros acc Hout Hin Hcol Hpicked.
  - inversion Hin.
  - simpl in Hout.
    destruct (pickRows (cols !! name0) kept) as [picked0|] eqn:Hpick; [|discriminate].
    simpl in Hout.
    destruct (decide (name ∈ names)) as [Hn|Hn]; [eapply IH; eauto|].
    apply elem_of_cons in Hin as [->|Hin]; [|contradiction].
    destruct (filterColumns_names _ _ _ _ _ Hout name0) as [_ Hsame].
    rewrite (Hsame Hn), lookup_insert_eq in Hpicked. injection Hpicked as <-.
    rewrite (pickRows_present cols name0 col kept Hcol) in Hpick.
    injection Hpick as <-. reflexivity.
Qed.

(** X20: the filter of the upload page is idempotent: wherever it returns a
    dataset, filtering that dataset again returns it unchanged. *)
Theorem filterEventsToSync_idempotent (data out : ColumnarData) :
  filterEventsToSync data = Some out → filterEventsToSync out = Some out.
Proof.
  unfold filterEventsToSync at 1.
  destruct (columns data !! "x") as [xCol|] eqn:Hx;
    [|intros [= <-]; unfold filterEventsToSync; rewrite Hx; reflexivity].
  destruct (columns data !! "y") as [yCol|] eqn:Hy;
    [|intros [= <-]; unfold filterEventsToSync; rewrite Hx, Hy; reflexivity].
  destruct (columns data !! "period_id") as [periodCol|] eqn:Hp;
    [|intros [= <-]; unfold filterEventsToSync; rewrite Hx, Hy, Hp; reflexivity].
  destruct (columns data !! "event_type_id") as [eventTypeCol|] eqn:He;
    [|intros [= <-]; unfold filterEventsToSync; rewrite Hx, Hy, Hp, He; reflexivity].
  remember (filter (λ i, isSyncableRow xCol yCol periodCol eventTypeCol i = true)
              (seqZ 0 (numRows data))) as kept eqn:Hkept.
  destruct (filterColumns (columns data) kept (fieldNames data) ∅) as [cols|] eqn:Hcols;
    [|discriminate].
  simpl. intros [= <-].
  assert (Hlen : ∀ name col, cols !! name = Some col → length col = length kept).
  { apply (filterColumns_length _ _ _ _ _ Hcols). intros name col Hcol.
    rewrite lookup_empty in Hcol. discriminate. }
  pose proof (filterColumns_names _ _ _ _ _ Hcols) as Hnames.
  unfold filterEventsToSync. simpl.
  destruct (cols !! "x") as [xCol'|] eqn:Hx'; [|reflexivity].
  destruct (cols !! "y") as [yCol'|] eqn:Hy'; [|reflexivity].
  destruct (cols !! "period_id") as [periodCol'|] eqn:Hp'; [|reflexivity].
  destruct (cols !! "event_type_id") as [eventTypeCol'|] eqn:He'; [|reflexivity].
  assert (Hlisted : ∀ name col', cols !! name = Some col' → name ∈ fieldNames data).
  { intros name col' Hcol'. destruct (decide (name ∈ fieldNames data)) as [Hin|Hnin];
      [exact Hin|].
    destruct (Hnames name) as [_ Hsame]. rewrite (Hsame Hnin), lookup_empty in Hcol'.
    discriminate. }
  assert (Hpick : ∀ name col col', columns data !! name = Some col →
                    cols !! name = Some col' → col' = map (at_index col) kept).
  { intros name col col' Hcol Hcol'.
    eapply (filterColumns_picked _ _ _ _ _ _ _ _ Hcols); eauto. }
  rewrite (Hpick _ _ _ Hx Hx'), (Hpick _ _ _ Hy Hy'), (Hpick _ _ _ Hp Hp'),
    (Hpick _ _ _ He He').
  assert (Hall : filter (λ i, isSyncableRow (map (at_index xCol) kept)
                                (map (at_index yCol) kept)
                                (map (at_index periodCol) kept)
                                (map (at_index eventTypeCol) kept) i = true)
                   (seqZ 0 (Z.of_nat (length kept)))
                 = seqZ 0 (Z.of_nat (length kept))).
  { apply filter_all. apply Forall_forall. intros j Hj.
    apply elem_of_seqZ in Hj.
    destruct (lookup_lt_is_Some_2 kept (Z.to_nat j)) as [i Hi]; [lia|].
    assert (Hin : i ∈ kept) by (eapply list_elem_of_lookup_2; exact Hi).
    rewrite Hkept in Hin. apply list_elem_of_filter in Hin as [Hsync _].
    unfold isSyncableRow in *.
    rewrite !(at_index_map _ kept j i) by (try lia; exact Hi). exact Hsync. }
  rewrite Hall.
  destruct (filterColumns_all cols (length kept) (fieldNames data) ∅ Hlen) as (out & Hout & Hlook).
  { intros name Hin. apply Hnames. exact Hin. }
  rewrite Hout. simpl. rewrite length_seqZ, Nat2Z.id.
  do 2 f_equal. apply map_eq. intros name. rewrite Hlook.
  destruct (decide (name ∈ fieldNames data)) as [Hin|Hnin]; [reflexivity|].
  rewrite lookup_empty. symmetry.
  destruct (Hnames name) as [_ Hsame]. rewrite (Hsame Hnin). apply lookup_empty.
Qed.

Lemma filterEventsToSync_idempotent_example :
  ∃ out, filterEventsToSync rawEvents = Some out
         ∧ numRows out = 1
         ∧ filterEventsToSync out = Some out.
Proof.
  destruct (filterEventsToSync rawEvents) as [out|] eqn:Hout; [|discriminate].
  exists out. split; [reflexivity|]. split.
  - vm_compute in Hout. injection Hout as <-. reflexivity.
  - apply (filterEventsToSync_idempotent rawEvents). exact Hout.
Defined.

(** ** The frame of the time shown *)

Lemma frameRows_shown (tracking : ColumnarData) (pc tc : list jsval) (period : jsval)
    (t : Q) (rows : list Z) (acc out : list Q) :
  namedColumns tracking →
  "period_id" ∈ fieldNames tracking → "matched_time" ∈ fieldNames tracking →
  columns tracking !! "period_id" = Some pc →
  columns tracking !! "matched_time" = Some tc →
  collectTimes (Some pc) (Some tc) period rows acc = Some out →
  ∃ frame,
    frameRows (Some pc) (Some tc) tracking period t rows = Some frame
    ∧ (∀ row, row ∈ frame →
         strict_eq (field row "period_id") period = true
         ∧ strict_eq (field row "matched_time") (JNum (Fin t)) = true)
    ∧ (sampledAt pc tc period rows t → frame ≠ []).
Proof.
  intros Hnamed Hp Ht Hpc Htc. revert acc.
  induction rows as [|i rows IH]; intros acc Hout.
  - exists []. split; [reflexivity|]. split; [intros row Hrow; inversion Hrow|].
    intros (j & _ & Hj & _). inversion Hj.
  - simpl in Hout. simpl.
    destruct (strict_eq (at_index pc i) period) eqn:Hperiod.
    + destruct (as_number (at_index tc i)) as [ti|] eqn:Hti; [|discriminate].
      simpl in Hout. destruct (IH _ Hout) as (frame & Hframe & Hrows & Hsampled).
      simpl. destruct (strict_eq (at_index tc i) (JNum (Fin t))) eqn:Htime.
      * destruct (getRow_field tracking i "period_id" pc Hnamed Hp Hpc)
          as (row & Hrow & Hfp).
        destruct (getRow_field tracking i "matched_time" tc Hnamed Ht Htc)
          as (row' & Hrow' & Hft).
        rewrite Hrow in Hrow'. injection Hrow' as <-.
        rewrite Hrow, Hframe. simpl. eexists. split; [reflexivity|].
        split; [|discriminate].
        intros r Hr. apply elem_of_cons in Hr as [->|Hr]; [|auto].
        rewrite Hfp, Hft. split; assumption.
      * rewrite Hframe. exists frame. split; [reflexivity|]. split; [exact Hrows|].
        intros (j & tj & Hj & Hjp & Hjt & Heq). apply Hsampled.
        apply elem_of_cons in Hj as [->|Hj]; [|exists j, tj; auto].
        exfalso. destruct (at_index tc i) as [| |[|q]|s]; try discriminate.
        simpl in Hjt. injection Hjt as ->. simpl in Htime.
        apply Qeq_bool_iff in Heq. congruence.
    + destruct (IH _ Hout) as (frame & Hframe & Hrows & Hsampled).
      simpl. rewrite Hframe. exists frame. split; [reflexivity|]. split; [exact Hrows|].
      intros (j & tj & Hj & Hjp & Hjt & Heq). apply Hsampled.
      apply elem_of_cons in Hj as [->|Hj]; [congruence|exists j, tj; auto].
Qed.

(** X21: whenever the page shows a time, it has a frame to draw: the rows
    of [frameData] are computed, there is at least one, and each of them is
    a tracking row of the event's period sampled at the time shown. *)
Theorem frameData_of_shown_time (st : AppState) (tracking : ColumnarData) (event : Row)
    (t : Q) :
  trackingData st = Some tracking →
  namedColumns tracking →
  "period_id" ∈ fieldNames tracking → "matched_time" ∈ fieldNames tracking →
  currentEvent st = Some (Some event) →
  currentTime st = Some (Some t) →
  ∃ frame,
    frameData st = Some frame
    ∧ frame ≠ []
    ∧ ∀ row, row ∈ frame →
        strict_eq (field row "period_id") (field event "period_id") = true
        ∧ strict_eq (field row "matched_time") (JNum (Fin t)) = true.
Proof.
  intros Htr Hnamed Hp Ht Hevent Hshown.
  unfold currentTime in Hshown. unfold frameData. rewrite Hevent in *. simpl in *.
  rewrite Htr in *. unfold frameTime in Hshown. unfold frameDataOf.
  set (period := field event "period_id") in *.
  destruct (getPeriodTimes tracking period) as [times|] eqn:Htimes; [|discriminate].
  simpl in *.
  destruct (bool_decide (length times = 0%nat)); [discriminate|].
  destruct (as_number (field event "matched_time")) as [base|]; [|discriminate].
  simpl in *. injection Hshown as Hshown. rewrite Hshown.
  assert (Hmember : t ∈ times).
  { unfold currentTimeOf in Hshown.
    destruct (bool_decide (length times = 0%nat)); [discriminate|].
    eapply list_elem_of_lookup_2. exact Hshown. }
  unfold getPeriodTimes in Htimes.
  pose proof Hnamed as Hall. unfold namedColumns in Hall. rewrite Forall_forall in Hall.
  destruct (Hall _ Hp) as [pc Hpc]. destruct (Hall _ Ht) as [tc Htc].
  rewrite Hpc, Htc in *.
  destruct (collectTimes (Some pc) (Some tc) period (seqZ 0 (numRows tracking)) [])
    as [collected|] eqn:Hcollect; [|discriminate].
  simpl in Htimes. injection Htimes as <-.
  destruct (collectTimes_members pc tc period _ _ _ Hcollect) as [Hnd Hmem].
  destruct (sort_ascending_sorted collected (Hnd (NoDupA_nil _))) as [_ Hsame].
  destruct (frameRows_shown tracking pc tc period t _ _ _ Hnamed Hp Ht Hpc Htc Hcollect)
    as (frame & Hframe & Hrows & Hsampled).
  exists frame. split; [exact Hframe|]. split; [|exact Hrows].
  apply Hsampled.
  assert (Hin : InA Qeq t collected).
  { apply Hsame. apply InA_alt. exists t. split; [reflexivity|].
    apply list_elem_of_In. exact Hmember. }
  apply Hmem in Hin as [Hin|Hin]; [inversion Hin|exact Hin].
Qed.

(** In the specification's example, two frames after the nominal frame of
    E1, the page shows 1100 ms and the tracking row sampled then. *)
Lemma frameData_of_shown_time_example :
  ∃ event frame,
    currentEvent exampleState = Some (Some event)
    ∧ frameData exampleState = Some frame
    ∧ frame ≠ []
    ∧ ∀ row, row ∈ frame →
        strict_eq (field row "period_id") (field event "period_id") = true
        ∧ strict_eq (field row "matched_time") (JNum (Fin 1100)) = true.
Proof.
  destruct (currentEvent exampleState) as [[event|]|] eqn:Hevent;
    try (vm_compute in Hevent; discriminate).
  exists event.
  destruct (frameData_of_shown_time exampleState exampleTracking event 1100 eq_refl)
    as (frame & Hframe & Hne & Hrows).
  - repeat constructor; eexists; reflexivity.
  - apply elem_of_cons. left. reflexivity.
  - apply elem_of_cons. right. apply elem_of_cons. left. reflexivity.
  - exact Hevent.
  - vm_compute. reflexivity.
  - exists frame. split; [reflexivity|]. split; [exact Hframe|].
    split; [exact Hne|exact Hrows].
Defined.

(** ** Who is drawn as a player *)

Lemma strict_eq_same_value_zero a b :
  strict_eq a b = true → same_value_zero a b = true.
Proof. destruct a as [| |[|p]|s], b as [| |[|q]|t]; simpl; auto. Qed.

Lemma teamPlayers_member (frame : list Row) (teamIds : list jsval) (k : Z) (row : Row) :
  row ∈ teamPlayers frame teamIds k
  ↔ row ∈ frame ∧ strict_eq (field row "team_opta_id") (at_index teamIds k) = true.
Proof.
  unfold teamPlayers. rewrite !list_elem_of_In. apply filter_In.
Qed.

(** X22: with the team ids [handleStartSync] saves, the pitch never draws a
    row of the frame as a player of both teams, and never draws as a player
    a row whose team id is -1 (the ball), null or undefined. *)
Theorem teamPlayers_disjoint (name : string) (tracking events tr ev : ColumnarData)
    (meta : Metadata) (frame : list Row) (row : Row) :
  handleStartSync (Some name) (Some tracking) (Some events) = SaveData tr ev meta →
  ¬ (row ∈ teamPlayers frame (teamIds meta) 0 ∧ row ∈ teamPlayers frame (teamIds meta) 1)
  ∧ (row ∈ teamPlayers frame (teamIds meta) 0 ∨ row ∈ teamPlayers frame (teamIds meta) 1 →
     isTeamId (field row "team_opta_id") = true).
Proof.
  unfold handleStartSync, uniqueTeamIds, Set_from.
  pose proof (uniqueTeamIds_first_two (default [] (columns tracking !! "team_opta_id")))
    as Hteams.
  destruct (List.filter isTeamId _) as [|a [|b rest]]; simpl; try discriminate.
  destruct Hteams as (Ha & Hb & Hab & _).
  destruct (mapJerseyNumbersToEvents events tracking); [|discriminate].
  intros [= <- <- <-]. simpl. rewrite !teamPlayers_member.
  change (at_index (a :: b :: take 0 rest) 0) with a.
  change (at_index (a :: b :: take 0 rest) 1) with b.
  split.
  - intros [[_ H0] [_ H1]].
    apply strict_eq_same_value_zero in H0, H1.
    rewrite same_value_zero_sym in H0.
    rewrite (same_value_zero_trans _ _ _ H0 H1) in Hab. discriminate.
  - intros [[_ H]|[_ H]]; apply strict_eq_same_value_zero in H;
      rewrite (isTeamId_same_value_zero _ _ H); assumption.
Qed.

Lemma teamPlayers_disjoint_example :
  let ball : Row := <["team_opta_id" := JInt (-1)]> ∅ in
  let teams := [JInt 30; JInt 31] in
  ¬ (ball ∈ teamPlayers [ball] teams 0 ∧ ball ∈ teamPlayers [ball] teams 1)
  ∧ (ball ∈ teamPlayers [ball] teams 0 ∨ ball ∈ teamPlayers [ball] teams 1 →
     isTeamId (field ball "team_opta_id") = true).
Proof.
  intros ball teams.
  destruct (mapJerseyNumbersToEvents jerseyEvents jerseyTracking) as [withJersey|] eqn:Hmap;
    [|vm_compute in Hmap; discriminate].
  apply (teamPlayers_disjoint "tracking_game.parquet" jerseyTracking jerseyEvents
           jerseyTracking withJersey (mkMetadata "game" teams) [ball] ball).
  unfold handleStartSync. rewrite Hmap. reflexivity.
Defined.

